(** * coltrane: the incremental static-site build command

    A shallow embedding of [coltrane/management/commands/build.py] (the
    [Command] class: [_output_markdown_file], [handle],
    [_call_collectstatic] and [_set_output_directory]) together with the
    executor discipline of [coltrane/utils.py] / [concurrent.futures] that
    [handle] relies on, and of [dict_merge] of [coltrane/utils.py].

    Conventions.
    - Python objects that are mutated in place ([self], the manifest, the
      generated files, the spinner/stdout streams) live in one explicit
      [World]; methods are programs over that world.
    - A method body is a _resumption_: a finite tree of atomic actions.  It can
      be run to completion ([run]) or one action at a time, which is what the
      worker threads of the pool do.
    - Exceptions are values ([Raised e]); an action that raises ends the
      method, as no [try] appears in the modelled method bodies except where
      written out. *)

From Stdlib Require Import ZArith Lia Ascii String.
From stdpp Require Import base option list strings gmap pretty relations.

Set Default Proof Using "Type".
Local Open Scope Z_scope.

(** ** Values *)

Abbreviation Path := string (only parsing).

(** A raised exception: [error.__class__.__name__] and [str(error)]. *)
Record PyExc := mkExc { exc_class : string; exc_str : string }.

Inductive result (A : Type) : Type :=
| Ok (a : A)
| Raised (e : PyExc).
Arguments Ok {A} a.
Arguments Raised {A} e.

Global Instance PyExc_eq_dec : EqDecision PyExc.
Proof. solve_decision. Defined.

(** ** Manifest *)

(** Modelled from the spec: [coltrane.manifest.ManifestItem] is not part of the
    sources at hand.  Spec section 3, FileFingerprint / ManifestRecord: the path
    of the source file, its modification time and the hash of its content.
    Of the modification time only equality is ever used; a number stands for
    the timestamp. *)
Record ManifestItem := mkItem {
  item_path : Path;
  mtime : Z;
  md5 : string;
}.

Global Instance ManifestItem_eq_dec : EqDecision ManifestItem.
Proof. solve_decision. Defined.

(** Modelled from the spec: [coltrane.manifest.Manifest] is not part of the
    sources at hand.  Spec section 3, Manifest: a mapping from path to record,
    the [isDirty] flag, and the global [staticAssetsChanged] signal. *)
Record Manifest := mkManifest {
  items : gmap string ManifestItem;
  is_dirty : bool;
  static_files_manifest_changed : bool;
}.

(** ** The command object *)

(** [SimpleNamespace(create_count=0, update_count=0, skip_count=0)] *)
Record Counts := mkCounts {
  create_count : Z;
  update_count : Z;
  skip_count : Z;
}.

(** The attributes of [Command] that the build reads and writes. *)
Record Command := mkCommand {
  is_force : bool;
  threads_count : Z;
  manifest : option Manifest;
  output_result_counts : Counts;
}.

(** Class-level attribute values: what a fresh [Command()] sees. *)
Definition Command_class : Command :=
  mkCommand false 2 None (mkCounts 0 0 0).

(** ** Observable calls and output *)

Inductive Event :=
| EvRender (p : Path)                      (* item.render_html() entered *)
| EvWriteText (p : Path) (html : string)   (* generated_file_path.write_text *)
| EvManifestAdd (p : Path)                 (* manifest.add(p) completed *)
| EvWriteData                              (* manifest.write_data() *)
| EvStdout (s : string)                    (* self.stdout.write *)
| EvSpinnerStart (s : string)
| EvSpinnerText (s : string)               (* spinner.text = s *)
| EvSpinnerSucceed (s : string)
| EvSpinnerFail (s : string).

Global Instance Event_eq_dec : EqDecision Event.
Proof. solve_decision. Defined.

(** ** World: everything a build mutates *)

Record World := mkWorld {
  self : Command;
  outputs : gmap string string;                    (* generated HTML files *)
  manifest_file : option (gmap string ManifestItem); (* persisted manifest *)
  calls : list Event;
}.

(** ** Environment: the collaborators a build only reads

    The source files do not change while a build runs: a path has one
    fingerprint for the whole build. *)

Record Env := mkEnv {
  (* os.stat + md5 of the source file, as used by [ManifestItem.create] *)
  env_stat : Path → result (Z * string);
  (* [item.render_html()] *)
  env_render_html : Path → result string;
  (* [item.generated_file_path] *)
  env_generated_file_path : Path → Path;
  (* [Path.write_text]: the exception it raises for a path, if any *)
  env_write_text_error : Path → option PyExc;
  (* [get_content_paths()] *)
  env_content_paths : list Path;
  (* [multiprocessing.cpu_count()] *)
  env_cpu_count : result Z;
  (* the collectstatic future: cleaned-up stdout, or the exception it raised *)
  env_collectstatic : result string;
  (* spec section 6: [staticSetChanged] reported by the asset collection *)
  env_static_set_changed : bool;
  (* [str(get_output_directory())] *)
  env_output_directory : string;
}.

(** ** Resumptions *)

Inductive prog (R : Type) : Type :=
| Ret (r : R)
| Act {A : Type} (a : World → World * result A) (k : A → prog R).
Arguments Ret {R} r.
Arguments Act {R A} a k.

Fixpoint prog_bind {A B} (p : prog A) (f : A → prog B) : prog B :=
  match p with
  | Ret r => f r
  | Act a k => Act a (λ x, prog_bind (k x) f)
  end.

Global Instance prog_ret : MRet prog := λ _ x, Ret x.
Global Instance prog_mbind : MBind prog := λ _ _ f p, prog_bind p f.

(** Run a method body to completion without interruption. *)
Fixpoint run {R} (p : prog R) (w : World) : World * result R :=
  match p with
  | Ret r => (w, Ok r)
  | Act a k =>
      match a w with
      | (w', Ok x) => run (k x) w'
      | (w', Raised e) => (w', Raised e)
      end
  end.

(** One atomic action that reads the world. *)
Definition act_read {A} (f : World → result A) : prog A :=
  Act (λ w, (w, f w)) Ret.
(** One atomic action that updates the world. *)
Definition act_write (f : World → World) : prog unit :=
  Act (λ w, (f w, Ok tt)) Ret.
(** One atomic action that may update the world or raise. *)
Definition act_try (f : World → result World) : prog unit :=
  Act (λ w, match f w with Ok w' => (w', Ok tt) | Raised e => (w, Raised e) end) Ret.

Definition set_self (f : Command → Command) (w : World) : World :=
  mkWorld (f (self w)) (outputs w) (manifest_file w) (calls w).
Definition set_outputs (f : gmap string string → gmap string string) (w : World) : World :=
  mkWorld (self w) (f (outputs w)) (manifest_file w) (calls w).
Definition set_manifest_file (d : option (gmap string ManifestItem)) (w : World) : World :=
  mkWorld (self w) (outputs w) d (calls w).
Definition emit (e : Event) (w : World) : World :=
  mkWorld (self w) (outputs w) (manifest_file w) (calls w ++ [e]).

Definition set_is_force (b : bool) (c : Command) : Command :=
  mkCommand b (threads_count c) (manifest c) (output_result_counts c).
Definition set_threads_count (n : Z) (c : Command) : Command :=
  mkCommand (is_force c) n (manifest c) (output_result_counts c).
Definition set_manifest (m : option Manifest) (c : Command) : Command :=
  mkCommand (is_force c) (threads_count c) m (output_result_counts c).
Definition set_counts (f : Counts → Counts) (c : Command) : Command :=
  mkCommand (is_force c) (threads_count c) (manifest c) (f (output_result_counts c)).

Definition set_create_count (n : Z) (c : Counts) : Counts :=
  mkCounts n (update_count c) (skip_count c).
Definition set_update_count (n : Z) (c : Counts) : Counts :=
  mkCounts (create_count c) n (skip_count c).
Definition set_skip_count (n : Z) (c : Counts) : Counts :=
  mkCounts (create_count c) (update_count c) n.

(** ** [ManifestItem] and [Manifest] operations *)

Definition AttributeError_None (attr : string) : PyExc :=
  mkExc "AttributeError" ("'NoneType' object has no attribute '" +:+ attr +:+ "'").

Section Methods.
Context (env : Env).

(** Modelled from the spec: [ManifestItem.create] (spec 4.1, [fingerprint]):
    a function of the file's state; fails when the file cannot be read or
    stat'd. *)
Definition ManifestItem_create (markdown_file : Path) : result ManifestItem :=
  match env_stat env markdown_file with
  | Ok (t, h) => Ok (mkItem markdown_file t h)
  | Raised e => Raised e
  end.

(** Modelled from the spec: [Manifest.get] (spec 4.2): point lookup, no side
    effects. *)
Definition Manifest_get (m : Manifest) (markdown_file : Path) : option ManifestItem :=
  items m !! markdown_file.

(** Modelled from the spec: [Manifest.add] (spec 4.2): computes a fresh
    fingerprint for the path, upserts the record, sets [isDirty].  The upsert
    and the flag change together. *)
Definition Manifest_upsert (item : ManifestItem) (m : Manifest) : Manifest :=
  mkManifest (<[item_path item := item]> (items m)) true
             (static_files_manifest_changed m).

Definition Manifest_add (m : Manifest) (markdown_file : Path) : result Manifest :=
  match ManifestItem_create markdown_file with
  | Ok item => Ok (Manifest_upsert item m)
  | Raised e => Raised e
  end.

(** [self.manifest.get(markdown_file)] *)
Definition self_manifest_get (markdown_file : Path) : prog (option ManifestItem) :=
  act_read (λ w,
    match manifest (self w) with
    | Some m => Ok (Manifest_get m markdown_file)
    | None => Raised (AttributeError_None "get")
    end).

(** [self.manifest.add(markdown_file)]: the fingerprint is taken first, the
    record is advanced in a second action. *)
Definition self_manifest_add (markdown_file : Path) : prog unit :=
  item ← act_read (λ w,
    match manifest (self w) with
    | Some _ => ManifestItem_create markdown_file
    | None => Raised (AttributeError_None "add")
    end);
  act_try (λ w,
    match manifest (self w) with
    | Some m =>
        Ok (emit (EvManifestAdd markdown_file)
              (set_self (set_manifest (Some (Manifest_upsert item m))) w))
    | None => Raised (AttributeError_None "add")
    end).

(** [self.output_result_counts.<field> += 1]: a load and a store. *)
Definition incr_count (get : Counts → Z) (set : Z → Counts → Counts) : prog unit :=
  n ← act_read (λ w, Ok (get (output_result_counts (self w))));
  act_write (set_self (set_counts (set (n + 1)))).

(** ** [Command._output_markdown_file] (build.py 96-124) *)
Definition _output_markdown_file (markdown_file : Path) : prog unit :=
  (* assert self.manifest, "Manifest must be loaded first" *)
  _ ← act_read (λ w,
    match manifest (self w) with
    | Some _ => Ok tt
    | None => Raised (mkExc "AssertionError" "Manifest must be loaded first")
    end);
  item ← act_read (λ _, ManifestItem_create markdown_file);
  existing_item ← self_manifest_get markdown_file;
  is_skipped ←
    match existing_item with
    | Some existing =>
        force ← act_read (λ w, Ok (is_force (self w)));
        if negb force then
          if mtime item =? mtime existing then
            _ ← incr_count skip_count set_skip_count;
            mret true
          else if bool_decide (md5 item = md5 existing) then
            (* Update item in manifest to get newest mtime *)
            _ ← self_manifest_add markdown_file;
            _ ← incr_count skip_count set_skip_count;
            mret true
          else mret false
        else mret false
    | None => mret false
    end;
  if negb is_skipped then
    _ ← match existing_item with
        | Some _ => incr_count update_count set_update_count
        | None => incr_count create_count set_create_count
        end;
    rendered_html ← Act (λ w, (emit (EvRender (item_path item)) w,
                               env_render_html env (item_path item))) Ret;
    _ ← act_try (λ w,
          let target := env_generated_file_path env (item_path item) in
          match env_write_text_error env target with
          | Some e => Raised e
          | None => Ok (emit (EvWriteText target rendered_html)
                          (set_outputs (<[target := rendered_html]>) w))
          end);
    self_manifest_add markdown_file
  else mret tt.

End Methods.

(** ** Python's [int(str)]

    [int] on a [str] as CPython 3.11 computes it ([PyLong_FromUnicodeObject]):
    every character beyond ASCII is first replaced, a Unicode blank by a
    space and a Unicode decimal digit by its ASCII digit
    ([_PyUnicode_TransformDecimalAndSpaceToASCII]); the ASCII text is then
    read in base ten ([PyLong_FromString]): blanks, one optional sign, digits
    that may be grouped by single underscores, blanks.  Anything else, and a
    literal of more than [int_max_str_digits] digits, raises [ValueError].

    A [str] is held as its UTF-8 encoding; a byte sequence that is no UTF-8
    encoding stands for no [str] and reads as no integer. *)

Definition byte_of (a : ascii) : Z := Z.of_nat (nat_of_ascii a).

Definition is_continuation (x : Z) : bool := (128 <=? x) && (x <? 192).

(** The code points of a UTF-8 text: shortest encodings only, no surrogates,
    nothing above U+10FFFF. *)
Fixpoint utf8_decode (s : list ascii) : option (list Z) :=
  match s with
  | [] => Some []
  | b0 :: r0 =>
      let x0 := byte_of b0 in
      if x0 <? 128 then cons x0 <$> utf8_decode r0
      else if x0 <? 224 then
        match r0 with
        | b1 :: r1 =>
            let x1 := byte_of b1 in
            if (194 <=? x0) && is_continuation x1
            then cons ((x0 - 192) * 64 + (x1 - 128)) <$> utf8_decode r1
            else None
        | [] => None
        end
      else if x0 <? 240 then
        match r0 with
        | b1 :: b2 :: r2 =>
            let x1 := byte_of b1 in
            let x2 := byte_of b2 in
            let cp := ((x0 - 224) * 64 + (x1 - 128)) * 64 + (x2 - 128) in
            if is_continuation x1 && is_continuation x2 && (2048 <=? cp)
               && negb ((55296 <=? cp) && (cp <=? 57343))
            then cons cp <$> utf8_decode r2
            else None
        | _ => None
        end
      else
        match r0 with
        | b1 :: b2 :: b3 :: r3 =>
            let x1 := byte_of b1 in
            let x2 := byte_of b2 in
            let x3 := byte_of b3 in
            let cp := (((x0 - 240) * 64 + (x1 - 128)) * 64 + (x2 - 128)) * 64
                      + (x3 - 128) in
            if (x0 <? 245) && is_continuation x1 && is_continuation x2
               && is_continuation x3 && (65536 <=? cp) && (cp <=? 1114111)
            then cons cp <$> utf8_decode r3
            else None
        | _ => None
        end
  end.

(** [Py_UNICODE_ISSPACE] beyond ASCII (Unicode 14.0, the version of
    CPython 3.11). *)
Definition unicode_space (cp : Z) : bool :=
  bool_decide (cp ∈ [133; 160; 5760; 8232; 8233; 8239; 8287; 12288])
  || ((8192 <=? cp) && (cp <=? 8202)).

(** The code points of the digit zero of every decimal digit system beyond
    ASCII (Unicode 14.0, general category Nd); the digits one to nine of a
    system follow its zero. *)
Definition unicode_decimal_zeros : list Z :=
  [1632; 1776; 1984; 2406; 2534; 2662; 2790; 2918; 3046; 3174; 3302;
   3430; 3558; 3664; 3792; 3872; 4160; 4240; 6112; 6160; 6470; 6608;
   6784; 6800; 6992; 7088; 7232; 7248; 42528; 43216; 43264; 43472;
   43504; 43600; 44016; 65296; 66720; 68912; 69734; 69872; 69942; 70096;
   70384; 70736; 70864; 71248; 71360; 71472; 71904; 72016; 72784; 73040;
   73120; 92768; 92864; 93008; 120782; 120792; 120802; 120812; 120822;
   123200; 123632; 125264; 130032].

(** [Py_UNICODE_TODECIMAL] beyond ASCII. *)
Definition unicode_decimal (cp : Z) : option Z :=
  (λ zero, cp - zero)
    <$> List.find (λ zero, (zero <=? cp) && (cp <? zero + 10)) unicode_decimal_zeros.

(** One character of [_PyUnicode_TransformDecimalAndSpaceToASCII]; what is
    neither ASCII, nor a blank, nor a decimal digit becomes [?]. *)
Definition to_ascii_code (cp : Z) : Z :=
  if cp <? 127 then cp
  else if unicode_space cp then 32
  else match unicode_decimal cp with
       | Some d => 48 + d
       | None => 63
       end.

(** [Py_ISSPACE]: tab, line feed, vertical tab, form feed, carriage return
    and space. *)
Definition is_py_space (c : Z) : bool :=
  ((9 <=? c) && (c <=? 13)) || (c =? 32).

Definition digit_of_code (c : Z) : option Z :=
  if (48 <=? c) && (c <=? 57) then Some (c - 48) else None.

Fixpoint py_digits (acc : Z) (after_digit : bool) (s : list Z) : option Z :=
  match s with
  | [] => if after_digit then Some acc else None
  | c :: rest =>
      match digit_of_code c with
      | Some d => py_digits (10 * acc + d) true rest
      | None =>
          if c =? 95 then
            if after_digit then py_digits acc false rest else None
          else None
      end
  end.

Fixpoint drop_spaces (s : list Z) : list Z :=
  match s with
  | c :: rest => if is_py_space c then drop_spaces rest else s
  | [] => []
  end.

Definition py_strip (s : list Z) : list Z :=
  rev (drop_spaces (rev (drop_spaces s))).

(** [sys.int_info.default_max_str_digits] *)
Definition int_max_str_digits : Z := 4300.

(** [PyLong_FromString] in base ten on a buffer that must be read to its
    end. *)
Definition py_long_from_string (s : list Z) : option Z :=
  match py_strip s with
  | c :: rest =>
      let body := if (c =? 45) || (c =? 43) then rest else c :: rest in
      if int_max_str_digits
           <? Z.of_nat (length (filter (λ c, is_Some (digit_of_code c)) body))
      then None
      else if c =? 45 then Z.opp <$> py_digits 0 false body
      else py_digits 0 false body
  | [] => None
  end.

Definition py_int (s : string) : option Z :=
  match utf8_decode (list_ascii_of_string s) with
  | Some code_points => py_long_from_string (to_ascii_code <$> code_points)
  | None => None
  end.

(** Truthiness of a [str]. *)
Definition str_truthy (s : string) : bool :=
  match s with EmptyString => false | _ => true end.

(** ** The options dictionary *)

Record Options := mkOptions {
  opt_force : bool;             (* "force" in options and options["force"] is True *)
  opt_threads : option string;  (* options["threads"], None when not given *)
}.

(** ** The build *)

Definition LogSymbols_SUCCESS : string := "✔".

Definition error_message_of (path : Path) (error : PyExc) : string :=
  "Rendering " +:+ path +:+ " failed. `" +:+ exc_class error +:+ ": "
    +:+ exc_str error +:+ "`".

Definition result_msg_of (c : Counts) : string :=
  "Create " +:+ pretty (create_count c) +:+ " HTML files, "
    +:+ pretty (skip_count c) +:+ " unmodified, "
    +:+ pretty (update_count c) +:+ " updated".

Definition spinner_text_of (threads : Z) : string :=
  let pluralized_threads := if 1 <? threads then "s" else "" in
  "Create HTML files (use " +:+ pretty threads +:+ " thread"
    +:+ pluralized_threads +:+ ")".

(* The texts are kept folded while a build is evaluated symbolically. *)
Global Arguments error_message_of : simpl never.
Global Arguments result_msg_of : simpl never.
Global Arguments spinner_text_of : simpl never.

Section Build.
Context (env : Env).

(** Modelled from the spec: [Manifest(manifest_file=...)] (spec 4.2, [load]):
    an absent manifest file gives the empty manifest; nothing is dirty after
    a load; [static_files_manifest_changed] is the asset collection's
    [staticSetChanged]. *)
Definition Manifest_load (file : option (gmap string ManifestItem)) : Manifest :=
  mkManifest (default ∅ file) false (env_static_set_changed env).

(** Modelled from the spec: [Manifest.write_data] (spec 4.2): the records are
    serialized to the manifest file. *)
Definition Manifest_write_data (m : Manifest) (w : World) : World :=
  emit EvWriteData (set_manifest_file (Some (items m)) w).

Definition stdout_write (s : string) : prog unit := act_write (emit (EvStdout s)).

(** [Command._success] (build.py 126-128) *)
Definition _success (text : string) : prog unit :=
  _ ← stdout_write LogSymbols_SUCCESS;
  stdout_write text.

Definition self_manifest {A} (attr : string) (f : Manifest → A) : prog A :=
  act_read (λ w,
    match manifest (self w) with
    | Some m => Ok (f m)
    | None => Raised (AttributeError_None attr)
    end).

(** [future = executor.submit(f, path); error = future.exception()]: the
    calling thread is blocked until the submitted body has run to its end on
    a worker (see [Pool] below for the executor itself). *)
Definition submit_and_wait (task : prog unit) : prog (option PyExc) :=
  Act (λ w, let '(w', r) := run task w in
            (w', Ok (match r with Ok _ => None | Raised e => Some e end)))
      Ret.

(** The [for path in get_content_paths()] loop (build.py 219-225).  The
    locals [errors] and [error_message] are threaded through. *)
Fixpoint create_html_files (paths : list Path) (errors : list string)
    (error_message : option string) : prog (list string * option string) :=
  match paths with
  | [] => mret (errors, error_message)
  | path :: rest =>
      error ← submit_and_wait (_output_markdown_file env path);
      match error with
      | Some e =>
          let msg := error_message_of path e in
          create_html_files rest (errors ++ [msg]) (Some msg)
      | None => create_html_files rest errors error_message
      end
  end.

(** [for error in errors: spinner.fail(error_message)] (build.py 231-232) *)
Fixpoint report_errors (errors : list string) (error_message : option string)
    : prog unit :=
  match errors with
  | [] => mret tt
  | error :: rest =>
      _ ← act_try (λ w,
            match error_message with
            | Some m => Ok (emit (EvSpinnerFail m) w)
            | None => Raised (mkExc "UnboundLocalError" "error_message")
            end);
      report_errors rest error_message
  end.

(** Thread-count resolution (build.py 200-209). *)
Definition resolve_threads (options : Options) : prog unit :=
  match opt_threads options with
  | Some s =>
      if str_truthy s then
        match py_int s with
        | Some n => act_write (set_self (set_threads_count n))
        | None => mret tt                       (* except ValueError: pass *)
        end
      else
        match env_cpu_count env with
        | Ok n => act_write (set_self (set_threads_count (n `div` 2 - 1)))
        | Raised _ => mret tt                   (* logger.exception(ex) *)
        end
  | None =>
      match env_cpu_count env with
      | Ok n => act_write (set_self (set_threads_count (n `div` 2 - 1)))
      | Raised _ => mret tt
      end
  end.

(** ** [Command.handle] (build.py 158-244).  The local [errors] is returned
    so that it can be observed.

    [self._set_output_directory(options)] (line 171) and
    [output_directory.mkdir(exist_ok=True)] (line 178) act on the settings
    and on the directories, which the world does not hold: [handle] is the
    build in which these two statements return.  [_set_output_directory] is
    modelled on its own further down. *)
Definition handle (options : Options) : prog (list string) :=
  _ ← act_write (set_self (set_is_force false));
  _ ← act_write (set_self (set_manifest None));
  _ ← act_write (set_self (set_counts (set_create_count 0)));
  _ ← act_write (set_self (set_counts (set_update_count 0)));
  _ ← act_write (set_self (set_counts (set_skip_count 0)));
  _ ← stdout_write "Start generating the static site...";
  (* self._set_output_directory(options) changes django settings only; the
     directories it selects are the ones of [env] *)
  (* collectstatic_future = self._call_collectstatic() runs on its own thread *)
  _ ← _success "Use ";
  _ ← stdout_write (env_output_directory env);
  (* output_directory.mkdir(exist_ok=True) *)
  _ ← act_write (emit (EvSpinnerStart "Load manifest"));
  _ ← act_write (λ w, set_self (set_manifest (Some (Manifest_load (manifest_file w)))) w);
  _ ← act_write (emit (EvSpinnerSucceed "Load manifest"));
  _ ← (if opt_force options then
         _ ← act_write (set_self (set_is_force true));
         _ ← _success "Force update because ";
         stdout_write "--force"
       else mret tt);
  _ ← act_write (emit (EvSpinnerStart "Collect static files"));
  collectstatic_stdout ← act_read (λ _, env_collectstatic env);
  _ ← act_write (emit (EvSpinnerSucceed collectstatic_stdout));
  force ← act_read (λ w, Ok (is_force (self w)));
  _ ← (if negb force then
         changed ← self_manifest "static_files_manifest_changed"
                     static_files_manifest_changed;
         if (changed : bool) then
           _ ← act_write (set_self (set_is_force true));
           _success "Force update because static file(s) updated"
         else mret tt
       else mret tt);
  _ ← resolve_threads options;
  _ ← act_write (emit (EvSpinnerStart "Create HTML files"));
  (* with ThreadPoolExecutor(max_workers=self.threads_count) as executor *)
  threads ← act_read (λ w,
    let n := threads_count (self w) in
    if n <=? 0 then Raised (mkExc "ValueError" "max_workers must be greater than 0")
    else Ok n);
  _ ← act_write (emit (EvSpinnerText (spinner_text_of threads)));
  '(errors, error_message) ← create_html_files (env_content_paths env) [] None;
  result_msg ← act_read (λ w, Ok (result_msg_of (output_result_counts (self w))));
  _ ← act_write (emit (EvSpinnerSucceed result_msg));
  _ ← report_errors errors error_message;
  dirty ← self_manifest "is_dirty" is_dirty;
  _ ← (if (dirty : bool) then
         _ ← act_write (emit (EvSpinnerStart "Update manifest"));
         _ ← act_try (λ w,
               match manifest (self w) with
               | Some m => Ok (Manifest_write_data m w)
               | None => Raised (AttributeError_None "write_data")
               end);
         act_write (emit (EvSpinnerSucceed "Update manifest"))
       else mret tt);
  _ ← stdout_write "";
  _ ← stdout_write "Static site output completed";
  mret errors.

End Build.

(** A build started on a command object [c] over the persisted manifest
    [file], with nothing generated or printed yet. *)
Definition initial_world (c : Command) (file : option (gmap string ManifestItem)) : World :=
  mkWorld c ∅ file [].

(** ** The change classifier, as the specification words it (section 4.3) *)

Inductive Outcome := Skip | Create | Update.

Record Decision := mkDecision {
  outcome : Outcome;
  renders : bool;     (* the file is rendered *)
  refreshes : bool;   (* the record is refreshed via [add] without a render *)
}.

Definition classify_spec (isForced : bool) (existingRecord : option ManifestItem)
    (currentFingerprint : ManifestItem) : Decision :=
  if isForced then
    mkDecision (if existingRecord is Some _ then Update else Create) true false
  else
    match existingRecord with
    | None => mkDecision Create true false
    | Some rec =>
        if mtime currentFingerprint =? mtime rec then mkDecision Skip false false
        else if bool_decide (md5 currentFingerprint = md5 rec) then
          mkDecision Skip false true
        else mkDecision Update true false
    end.

(** Exactly one counter advances by one. *)
Definition bump (o : Outcome) (c : Counts) : Counts :=
  match o with
  | Skip => set_skip_count (skip_count c + 1) c
  | Create => set_create_count (create_count c + 1) c
  | Update => set_update_count (update_count c + 1) c
  end.

(** What the render branch (build.py 115-124) does to the world once the
    counter for outcome [o] has been advanced. *)
Definition render_branch (env : Env) (path : Path) (item : ManifestItem)
    (m : Manifest) (o : Outcome) (w : World) : World * result unit :=
  let w1 := emit (EvRender path) (set_self (set_counts (bump o)) w) in
  match env_render_html env path with
  | Raised e => (w1, Raised e)
  | Ok html =>
      let target := env_generated_file_path env path in
      match env_write_text_error env target with
      | Some e => (w1, Raised e)
      | None =>
          (emit (EvManifestAdd path)
             (set_self (set_manifest (Some (Manifest_upsert item m)))
                (emit (EvWriteText target html)
                   (set_outputs (<[target := html]>) w1))),
           Ok tt)
      end
  end.


(** ** The build as one sequential pass

    The same build, written as state passing: what [handle] computes when
    every submitted file is processed to its end before the next is submitted.
    [handle_run] below proves that [run (handle ...)] is this function. *)

Definition emits (evs : list Event) (w : World) : World :=
  mkWorld (self w) (outputs w) (manifest_file w) (calls w ++ evs).

(** One iteration of the loop over the content paths: the world after the
    file's body has run, and the error message appended for a failure. *)
Definition file_step (env : Env) (st : World * list string) (path : Path)
    : World * list string :=
  let '(w, errors) := st in
  match run (_output_markdown_file env path) w with
  | (w', Ok _) => (w', errors)
  | (w', Raised e) => (w', errors ++ [error_message_of path e])
  end.

Definition build_loop (env : Env) (paths : list Path) (st : World * list string)
    : World * list string :=
  foldl (file_step env) st paths.

Definition effective_force (env : Env) (options : Options) : bool :=
  opt_force options || env_static_set_changed env.

Definition default_threads (env : Env) (current : Z) : Z :=
  match env_cpu_count env with
  | Ok n => n `div` 2 - 1
  | Raised _ => current
  end.

Definition resolved_threads (env : Env) (options : Options) (current : Z) : Z :=
  match opt_threads options with
  | Some s =>
      if str_truthy s then default current (py_int s)
      else default_threads env current
  | None => default_threads env current
  end.

Definition prologue_events (env : Env) (options : Options)
    (collectstatic_stdout : string) (threads : Z) : list Event :=
  [EvStdout "Start generating the static site...";
   EvStdout LogSymbols_SUCCESS; EvStdout "Use ";
   EvStdout (env_output_directory env);
   EvSpinnerStart "Load manifest"; EvSpinnerSucceed "Load manifest"]
  ++ (if opt_force options then
        [EvStdout LogSymbols_SUCCESS; EvStdout "Force update because ";
         EvStdout "--force"]
      else [])
  ++ [EvSpinnerStart "Collect static files";
      EvSpinnerSucceed collectstatic_stdout]
  ++ (if negb (opt_force options) && env_static_set_changed env then
        [EvStdout LogSymbols_SUCCESS;
         EvStdout "Force update because static file(s) updated"]
      else [])
  ++ [EvSpinnerStart "Create HTML files"; EvSpinnerText (spinner_text_of threads)].

(** The world in which the first file is submitted. *)
Definition loop_entry (env : Env) (options : Options)
    (collectstatic_stdout : string) (w : World) : World :=
  let threads := resolved_threads env options (threads_count (self w)) in
  mkWorld
    (mkCommand (effective_force env options) threads
       (Some (Manifest_load env (manifest_file w))) (mkCounts 0 0 0))
    (outputs w) (manifest_file w)
    (calls w ++ prologue_events env options collectstatic_stdout threads).

Definition epilogue_events (m : Manifest) (c : Counts) (errors : list string)
    : list Event :=
  [EvSpinnerSucceed (result_msg_of c)]
  ++ replicate (length errors) (EvSpinnerFail (default "" (last errors)))
  ++ (if is_dirty m then
        [EvSpinnerStart "Update manifest"; EvWriteData;
         EvSpinnerSucceed "Update manifest"]
      else [])
  ++ [EvStdout ""; EvStdout "Static site output completed"].

(** The world [handle] returns in, from the world the loop ended in. *)
Definition loop_exit (m : Manifest) (errors : list string) (w : World) : World :=
  mkWorld (self w) (outputs w)
    (if is_dirty m then Some (items m) else manifest_file w)
    (calls w ++ epilogue_events m (output_result_counts (self w)) errors).

(** ** Readable files and example sites *)

(** Whether [ManifestItem.create] succeeds on a path. *)
Definition readable (env : Env) (path : Path) : bool :=
  match env_stat env path with Ok _ => true | Raised _ => false end.

(** The thread count as the specification words it (section 4.4, step 6). *)
Definition default_threads_spec (hardware_threads : Z) : Z :=
  Z.max 1 (hardware_threads `div` 2 - 1).

Definition resolve_threads_spec (threads_option : option string)
    (hardware_threads : Z) : Z :=
  match threads_option with
  | Some s =>
      match py_int s with
      | Some n => if 0 <? n then n else default_threads_spec hardware_threads
      | None => default_threads_spec hardware_threads
      end
  | None => default_threads_spec hardware_threads
  end.

(** A site whose files are all readable; [bad] lists the paths whose template
    fails to render. *)
Definition example_env (paths bad : list Path) (cpus : Z) : Env :=
  mkEnv
    (λ p, Ok (100, "md5-" +:+ p))
    (λ p, if bool_decide (p ∈ bad)
          then Raised (mkExc "TemplateSyntaxError" ("Invalid block tag in " +:+ p))
          else Ok ("<html>" +:+ p +:+ "</html>"))
    (λ p, "output/" +:+ p +:+ ".html")
    (λ _, None)
    paths
    (Ok cpus)
    (Ok "Copy 0 static files")
    false
    "output".

(** The fail lines of the spinner, in the order they were printed. *)
Definition spinner_fails (evs : list Event) : list string :=
  omap (λ e, match e with EvSpinnerFail s => Some s | _ => None end) evs.

(** The stored record of a path carries the file's current modification
    time. *)
Definition recorded_fresh (env : Env) (its : gmap string ManifestItem)
    (path : Path) : Prop :=
  ∃ t h it, env_stat env path = Ok (t, h) ∧ its !! path = Some it ∧ mtime it = t.

(** ** The executor

    [ThreadPoolExecutor(max_workers=n)] as [handle] uses it (build.py 214-225,
    and [threadpool] in utils.py for the same [submit]).  The main thread walks
    the content paths; [submit] puts a work item on the queue and returns a
    future; [future.exception()] blocks the main thread until that future is
    finished.  A free worker takes the oldest work item and runs its body one
    atomic action at a time; any interleaving of the threads is a sequence of
    [pool_step]s. *)

Inductive MainState :=
| MainLoop (todo : list Path)                            (* at [for path in ...] *)
| MainWait (future : nat) (path : Path) (todo : list Path) (* in [future.exception()] *)
| MainShutdown                                           (* leaving the [with] block *)
| MainDone.

Record Pool := mkPool {
  pool_main : MainState;
  pool_queue : list (nat * Path);          (* submitted, not yet taken *)
  pool_running : list (nat * prog unit);   (* one body per busy worker *)
  pool_done : gmap nat (option PyExc);     (* finished futures and their exception *)
  pool_next : nat;                         (* the next future *)
  pool_world : World;
  pool_errors : list string;               (* the local [errors] *)
}.

Inductive pool_step (env : Env) (max_workers : nat) : Pool → Pool → Prop :=
| step_submit path todo q r d n w errs :
    (* future = executor.submit(self._output_markdown_file, path) *)
    pool_step env max_workers
      (mkPool (MainLoop (path :: todo)) q r d n w errs)
      (mkPool (MainWait n path todo) (q ++ [(n, path)]) r d (S n) w errs)
| step_exhausted q r d n w errs :
    pool_step env max_workers
      (mkPool (MainLoop []) q r d n w errs)
      (mkPool MainShutdown q r d n w errs)
| step_take m f path q r d n w errs :
    (* a free worker takes the oldest work item *)
    (length r < max_workers)%nat →
    pool_step env max_workers
      (mkPool m ((f, path) :: q) r d n w errs)
      (mkPool m q (r ++ [(f, _output_markdown_file env path)]) d n w errs)
| step_action m q r1 r2 f A (a : World → World * result A) k d n w errs w' x :
    (* a worker performs the next atomic action of its body *)
    a w = (w', Ok x) →
    pool_step env max_workers
      (mkPool m q (r1 ++ (f, Act a k) :: r2) d n w errs)
      (mkPool m q (r1 ++ (f, k x) :: r2) d n w' errs)
| step_raise m q r1 r2 f A (a : World → World * result A) k d n w errs w' e :
    (* the action raises: the future is finished with the exception *)
    a w = (w', Raised e) →
    pool_step env max_workers
      (mkPool m q (r1 ++ (f, Act a k) :: r2) d n w errs)
      (mkPool m q (r1 ++ r2) (<[f := Some e]> d) n w' errs)
| step_return m q r1 r2 f d n w errs :
    (* the body returns: the future is finished without exception *)
    pool_step env max_workers
      (mkPool m q (r1 ++ (f, Ret tt) :: r2) d n w errs)
      (mkPool m q (r1 ++ r2) (<[f := None]> d) n w errs)
| step_wake f path todo q r d n w errs error :
    (* error = future.exception() returns; if error: errors.append(...) *)
    d !! f = Some error →
    pool_step env max_workers
      (mkPool (MainWait f path todo) q r d n w errs)
      (mkPool (MainLoop todo) q r d n w
         (match error with
          | Some e => errs ++ [error_message_of path e]
          | None => errs
          end))
| step_shutdown d n w errs :
    (* executor.shutdown(wait=True): every worker has gone idle *)
    pool_step env max_workers
      (mkPool MainShutdown [] [] d n w errs)
      (mkPool MainDone [] [] d n w errs).

(** The pool as the [with] block is entered. *)
Definition pool_start (paths : list Path) (w : World) : Pool :=
  mkPool (MainLoop paths) [] [] ∅ 0 w [].

(** Work items and bodies that are submitted and not finished. *)
Definition in_flight (c : Pool) : nat :=
  (length (pool_queue c) + length (pool_running c))%nat.

(** What a finished body leaves in its future. *)
Definition exception_of (r : result unit) : option PyExc :=
  match r with Ok _ => None | Raised e => Some e end.

(** The sequential loop has processed [pre]; the pool is somewhere inside the
    iteration for the next path, or between two iterations. *)
Inductive pool_inv (env : Env) (paths : list Path) (w : World) : Pool → Prop :=
| inv_loop pre todo d n w1 errs :
    paths = pre ++ todo →
    build_loop env pre (w, []) = (w1, errs) →
    (∀ g, (n ≤ g)%nat → d !! g = None) →
    pool_inv env paths w (mkPool (MainLoop todo) [] [] d n w1 errs)
| inv_queued pre path todo f d n w1 errs :
    paths = pre ++ path :: todo →
    build_loop env pre (w, []) = (w1, errs) →
    (∀ g, (f ≤ g)%nat → d !! g = None) → (f < n)%nat →
    pool_inv env paths w (mkPool (MainWait f path todo) [(f, path)] [] d n w1 errs)
| inv_running pre path todo f p d n w1 w2 errs :
    paths = pre ++ path :: todo →
    build_loop env pre (w, []) = (w1, errs) →
    run p w2 = run (_output_markdown_file env path) w1 →
    (∀ g, (f ≤ g)%nat → d !! g = None) → (f < n)%nat →
    pool_inv env paths w (mkPool (MainWait f path todo) [] [(f, p)] d n w2 errs)
| inv_finished pre path todo f d n w1 w2 errs r :
    paths = pre ++ path :: todo →
    build_loop env pre (w, []) = (w1, errs) →
    run (_output_markdown_file env path) w1 = (w2, r) →
    d !! f = Some (exception_of r) →
    (∀ g, (n ≤ g)%nat → d !! g = None) →
    pool_inv env paths w (mkPool (MainWait f path todo) [] [] d n w2 errs)
| inv_shutdown d n w1 errs :
    build_loop env paths (w, []) = (w1, errs) →
    pool_inv env paths w (mkPool MainShutdown [] [] d n w1 errs)
| inv_done d n w1 errs :
    build_loop env paths (w, []) = (w1, errs) →
    pool_inv env paths w (mkPool MainDone [] [] d n w1 errs).

(** The number of atomic actions a body still performs from a world. *)
Fixpoint body_steps (p : prog unit) (w : World) : nat :=
  match p with
  | Ret _ => 0
  | Act a k =>
      match a w with
      | (w', Ok x) => S (body_steps (k x) w')
      | (_, Raised _) => 0
      end
  end.

(** The number of pool steps from the head of the loop to the end of the
    [with] block: per file a submit, a take, the actions of the body, its
    return or raise and the wake-up of the main thread; then the end of the
    loop and the shutdown. *)
Fixpoint remaining_steps (env : Env) (todo : list Path) (w : World) : nat :=
  match todo with
  | [] => 2
  | path :: rest =>
      let body := _output_markdown_file env path in
      (4 + body_steps body w + remaining_steps env rest (run body w).1)%nat
  end.

Definition pool_measure (env : Env) (c : Pool) : nat :=
  let w := pool_world c in
  match pool_main c with
  | MainLoop todo => remaining_steps env todo w
  | MainWait _ path todo =>
      match pool_queue c, pool_running c with
      | _ :: _, _ =>
          let body := _output_markdown_file env path in
          (3 + body_steps body w + remaining_steps env todo (run body w).1)%nat
      | [], (_, p) :: _ =>
          (2 + body_steps p w + remaining_steps env todo (run p w).1)%nat
      | [], [] => (1 + remaining_steps env todo w)%nat
      end
  | MainShutdown => 1%nat
  | MainDone => 0%nat
  end.

(** ** What one file does to the command object

    The counters and the manifest after the body of a file, as a function of
    the command object before it. *)

Definition rendered_ok (env : Env) (path : Path) : bool :=
  match env_render_html env path with
  | Ok _ =>
      match env_write_text_error env (env_generated_file_path env path) with
      | None => true
      | Some _ => false
      end
  | Raised _ => false
  end.

Definition step_self (env : Env) (path : Path) (c : Command) : Command :=
  match manifest c, env_stat env path with
  | Some m, Ok (t, h) =>
      let item := mkItem path t h in
      let d := classify_spec (is_force c) (items m !! path) item in
      let upsert := if renders d then rendered_ok env path else refreshes d in
      mkCommand (is_force c) (threads_count c)
        (Some (if upsert then Manifest_upsert item m else m))
        (bump (outcome d) (output_result_counts c))
  | _, _ => c
  end.

(** A world in which the manifest of a first build has just been loaded. *)
Definition example_world : World :=
  mkWorld (mkCommand false 2 (Some (mkManifest ∅ false false)) (mkCounts 0 0 0))
    ∅ None [].


(** * [coltrane/utils.py]: [dict_merge] *)

(** The values [dict_merge] is modelled on: a [str], or a dictionary of
    such values.  A dictionary keeps its keys in insertion order; the keys
    are strings.  Dictionaries are values here: source and destination are
    trees that hold no dictionary object twice, neither within one of them
    nor between them. *)
#[local] Unset Elimination Schemes.
Inductive pyval :=
| PLeaf (v : string)
| PDict (d : list (string * pyval)).
#[local] Set Elimination Schemes.

Abbreviation pydict := (list (string * pyval)).

(** [d[key]], [None] when [key not in d]. *)
Fixpoint dict_get (key : string) (d : pydict) : option pyval :=
  match d with
  | [] => None
  | (k, v) :: rest => if bool_decide (k = key) then Some v else dict_get key rest
  end.

(** [d[key] = value]: an existing key keeps its place, a new key goes last. *)
Fixpoint dict_set (key : string) (value : pyval) (d : pydict) : pydict :=
  match d with
  | [] => [(key, value)]
  | (k, v) :: rest =>
      if bool_decide (k = key) then (k, value) :: rest
      else (k, v) :: dict_set key value rest
  end.

Definition dict_keys (d : pydict) : list string := d.*1.

(** [source[key] == destination[key]] where the two are not both
    dictionaries: two [str] values are compared, a [str] and a dictionary are
    never equal. *)
Definition leaf_eqb (sv dv : pyval) : bool :=
  match sv, dv with
  | PLeaf a, PLeaf b => bool_decide (a = b)
  | _, _ => false
  end.

Definition is_dict (v : pyval) : bool :=
  match v with PDict _ => true | PLeaf _ => false end.

(** ["Conflict at %s" % ".".join(path + [str(key)])] *)
Definition conflict_message (path : list string) (key : string) : string :=
  "Conflict at " +:+ String.concat "." (path ++ [key]).

(** The [for key in destination] loop of [dict_merge] (utils.py 25-42);
    [rec] is the recursive call on two nested dictionaries.  The source is
    changed in place, so it is returned also when a conflict is raised. *)
Definition dict_merge_loop
    (rec : pyval → pydict → list string → pydict * result unit)
    (destination_overrides_source : bool) (path : list string)
    : pydict → pydict → pydict * result unit :=
  fix loop (entries : pydict) (source : pydict) : pydict * result unit :=
    match entries with
    | [] => (source, Ok tt)
    | (key, dv) :: rest =>
        match dict_get key source with
        | Some sv =>
            if is_dict sv && is_dict dv then
              match sv with
              | PDict sd =>
                  match rec dv sd (path ++ [key]) with
                  | (sd', Ok _) => loop rest (dict_set key (PDict sd') source)
                  | (sd', Raised e) => (dict_set key (PDict sd') source, Raised e)
                  end
              | PLeaf _ => loop rest source
              end
            else if leaf_eqb sv dv then loop rest source   (* same leaf value *)
            else if destination_overrides_source then
              loop rest (dict_set key dv source)
            else
              (source, Raised (mkExc "Exception" (conflict_message path key)))
        | None => loop rest (dict_set key dv source)
        end
    end.

Fixpoint dict_merge_into (destination : pyval) (source : pydict)
    (destination_overrides_source : bool) (path : list string)
    {struct destination} : pydict * result unit :=
  match destination with
  | PDict entries =>
      dict_merge_loop
        (λ dv sd p, dict_merge_into dv sd destination_overrides_source p)
        destination_overrides_source path entries source
  | PLeaf _ => (source, Ok tt)
  end.

(** ** [dict_merge] (utils.py 10-44).  The pair is the source after the call
    and what the call did: [Ok] when it returned (the source), [Raised] when
    it raised. *)
Definition dict_merge (source destination : pydict)
    (destination_overrides_source : bool) (path : list string)
    : pydict * result unit :=
  dict_merge_into (PDict destination) source destination_overrides_source path.

(** A dictionary has each key once, at every level. *)
Fixpoint wf_pyval (v : pyval) : Prop :=
  match v with
  | PLeaf _ => True
  | PDict d =>
      NoDup (dict_keys d)
      ∧ (fix all (d : pydict) : Prop :=
           match d with
           | [] => True
           | (_, v) :: rest => wf_pyval v ∧ all rest
           end) d
  end.

(** The value under a path of keys. *)
Fixpoint dict_lookup_path (keys : list string) (v : pyval) : option pyval :=
  match keys with
  | [] => Some v
  | key :: rest =>
      match v with
      | PDict d =>
          match dict_get key d with
          | Some v' => dict_lookup_path rest v'
          | None => None
          end
      | PLeaf _ => None
      end
  end.

(** * Summaries of a build *)

(** The number of files the three counters account for. *)
Definition counts_total (c : Counts) : Z :=
  create_count c + update_count c + skip_count c.


(** * Django settings the command writes *)

(** [settings.DEBUG], [settings.COLTRANE] (absent when [hasattr] is false)
    and [settings.STATIC_ROOT].  The values kept under [COLTRANE] are strings
    and dictionaries. *)
Record Settings := mkSettings {
  DEBUG : bool;
  COLTRANE : option pydict;
  STATIC_ROOT : option string;
}.

(** * [Command._call_collectstatic] (build.py 61-94) *)

(** [str.replace(old, new)] for a non-empty [old]: the text is scanned from
    the left, every occurrence found is replaced and the scan goes on behind
    it.  [skip] counts the characters of an occurrence still to pass. *)
Fixpoint str_replace_from (skip : nat) (old new s : string) : string :=
  match s with
  | EmptyString => EmptyString
  | String c rest =>
      match skip with
      | S n => str_replace_from n old new rest
      | O =>
          if String.prefix old s
          then new +:+ str_replace_from (String.length old - 1) old new rest
          else String c (str_replace_from 0 old new rest)
      end
  end.

Definition str_replace (old new s : string) : string :=
  str_replace_from 0 old new s.

(** The slice [s[1:-2]]. *)
Definition slice_1_m2 (s : string) : string :=
  substring 1 (String.length s - 3) s.

(** [f" copied to '{str(get_output_static_directory())}'"] *)
Definition copied_to (static_directory : string) : string :=
  " copied to '" +:+ static_directory +:+ "'".

(** [call_command] is the collectstatic command: what it wrote to [stdout],
    or the exception it raised, under the settings it ran with. *)
Definition _call_collectstatic (call_command : Settings → result string)
    (static_directory : string) (settings : Settings)
    : Settings * result string :=
  (* settings.DEBUG = False *)
  let settings := mkSettings false (COLTRANE settings) (STATIC_ROOT settings) in
  match call_command settings with
  | Raised e => (settings, Raised e)
  | Ok collectstatic_stdout =>
      let collectstatic_stdout :=
        slice_1_m2 (str_replace (copied_to static_directory) "" collectstatic_stdout) in
      (settings, Ok ("Copy " +:+ collectstatic_stdout))
  end.

(** Whether a text holds the character [c]. *)
Fixpoint has_char (c : ascii) (s : string) : bool :=
  match s with
  | EmptyString => false
  | String c' rest => bool_decide (c' = c) || has_char c rest
  end.

(** The number of characters before the first [c]. *)
Fixpoint chars_before (c : ascii) (s : string) : nat :=
  match s with
  | EmptyString => 0
  | String c' rest => if bool_decide (c' = c) then 0 else S (chars_before c rest)
  end.

(** * [Command._set_output_directory] (build.py 130-156) *)

Definition KeyError (key : string) : PyExc := mkExc "KeyError" key.
Definition TypeError (msg : string) : PyExc := mkExc "TypeError" msg.

Definition set_COLTRANE (c : option pydict) (s : Settings) : Settings :=
  mkSettings (DEBUG s) c (STATIC_ROOT s).
Definition set_STATIC_ROOT (r : option string) (s : Settings) : Settings :=
  mkSettings (DEBUG s) (COLTRANE s) r.

(** [d[key]] *)
Definition getitem (key : string) (d : pydict) : result pyval :=
  match dict_get key d with
  | Some v => Ok v
  | None => Raised (KeyError key)
  end.

(** [settings.COLTRANE["OUTPUT"][key]] *)
Definition output_setting (key : string) (coltrane : pydict) : result pyval :=
  match getitem "OUTPUT" coltrane with
  | Ok (PDict output) => getitem key output
  | Ok (PLeaf _) => Raised (TypeError "string indices must be integers")
  | Raised e => Raised e
  end.

(** [try: settings.STATIC_ROOT = <value> except KeyError: pass] *)
Definition try_static_root (value : result string) (settings : Settings)
    : Settings * result unit :=
  match value with
  | Ok root => (set_STATIC_ROOT (Some root) settings, Ok tt)
  | Raised e =>
      if bool_decide (exc_class e = "KeyError") then (settings, Ok tt)
      else (settings, Raised e)
  end.

Section OutputDirectory.
(** [get_base_directory()] and the [/] of [pathlib]. *)
Context (base_directory : string) (truediv : string → string → string).

(** [get_base_directory() / settings.COLTRANE["OUTPUT"]["PATH"] / "static"] *)
Definition static_under_base (coltrane : pydict) : result string :=
  match output_setting "PATH" coltrane with
  | Ok (PLeaf path) => Ok (truediv (truediv base_directory path) "static")
  | Ok (PDict _) =>
      Raised (TypeError "unsupported operand type(s) for /: 'PosixPath' and 'dict'")
  | Raised e => Raised e
  end.

(** [Path(settings.COLTRANE["OUTPUT"]["DIRECTORY"]) / "static"] *)
Definition static_under_directory (coltrane : pydict) : result string :=
  match output_setting "DIRECTORY" coltrane with
  | Ok (PLeaf directory) => Ok (truediv directory "static")
  | Ok (PDict _) =>
      Raised (TypeError "expected str, bytes or os.PathLike object, not dict")
  | Raised e => Raised e
  end.

(** [output] is [options["output"]], [None] when the key is absent. *)
Definition _set_output_directory (output : option string) (settings : Settings)
    : Settings * result unit :=
  match output with
  | Some o =>
      if str_truthy o then
        (* if not hasattr(settings, "COLTRANE"): setattr(settings, "COLTRANE", {}) *)
        let coltrane := default [] (COLTRANE settings) in
        (* if "OUTPUT" not in settings.COLTRANE: settings.COLTRANE["OUTPUT"] = {} *)
        let coltrane :=
          if dict_get "OUTPUT" coltrane is Some _ then coltrane
          else dict_set "OUTPUT" (PDict []) coltrane in
        let settings := set_COLTRANE (Some coltrane) settings in
        (* settings.COLTRANE["OUTPUT"]["PATH"] = options["output"] *)
        match getitem "OUTPUT" coltrane with
        | Ok (PDict output) =>
            let coltrane :=
              dict_set "OUTPUT" (PDict (dict_set "PATH" (PLeaf o) output)) coltrane in
            let settings := set_COLTRANE (Some coltrane) settings in
            match try_static_root (static_under_base coltrane) settings with
            | (settings, Ok _) =>
                try_static_root (static_under_directory coltrane) settings
            | (settings, Raised e) => (settings, Raised e)
            end
        | Ok (PLeaf _) =>
            (settings,
             Raised (TypeError "'str' object does not support item assignment"))
        | Raised e => (settings, Raised e)
        end
      else (settings, Ok tt)
  | None => (settings, Ok tt)
  end.

End OutputDirectory.
(** ** Running programs: basic equations *)

Lemma run_prog_bind {A B} (p : prog A) (f : A → prog B) (w : World) :
  run (prog_bind p f) w =
    match run p w with
    | (w', Ok x) => run (f x) w'
    | (w', Raised e) => (w', Raised e)
    end.
Proof.
  revert w. induction p as [r | X a k IH]; intros w; [done|].
  simpl. destruct (a w) as [w' [x|e]]; [apply IH | done].
Qed.

Lemma run_bind {A B} (p : prog A) (f : A → prog B) (w : World) :
  run (p ≫= f) w =
    match run p w with
    | (w', Ok x) => run (f x) w'
    | (w', Raised e) => (w', Raised e)
    end.
Proof. apply run_prog_bind. Qed.

Section MethodFacts.
Context (env : Env).
Implicit Types (w : World) (m : Manifest) (path : Path).

Lemma run_output_markdown_file_unloaded path w :
  manifest (self w) = None →
  run (_output_markdown_file env path) w =
    (w, Raised (mkExc "AssertionError" "Manifest must be loaded first")).
Proof. intros H. cbn. by rewrite H. Qed.

Lemma run_output_markdown_file_unreadable path w m e :
  manifest (self w) = Some m →
  env_stat env path = Raised e →
  run (_output_markdown_file env path) w = (w, Raised e).
Proof.
  intros Hm Hs. cbn. rewrite Hm. unfold ManifestItem_create. by rewrite Hs.
Qed.

Lemma run_output_markdown_file_build path w m t h o :
  manifest (self w) = Some m →
  env_stat env path = Ok (t, h) →
  classify_spec (is_force (self w)) (items m !! path) (mkItem path t h)
    = mkDecision o true false →
  run (_output_markdown_file env path) w
    = render_branch env path (mkItem path t h) m o w.
Proof.
  intros Hm Hs Hd. destruct w as [[f tc mo cs] outs file cl].
  simpl in Hm; subst mo. unfold classify_spec in Hd. simpl in Hd.
  unfold render_branch.
  cbn. unfold ManifestItem_create, Manifest_get. rewrite Hs. cbn.
  destruct (items m !! path) as [ex|] eqn:Hex; cbn.
  - destruct f; cbn.
    + injection Hd as <-. cbn.
      destruct (env_render_html env path) as [html|e]; cbn; [|done].
      by destruct (env_write_text_error env _).
    + destruct (t =? mtime ex); [done|].
      case_bool_decide; [done|]. injection Hd as <-. cbn.
      destruct (env_render_html env path) as [html|e]; cbn; [|done].
      by destruct (env_write_text_error env _).
  - assert (o = Create) as -> by (destruct f; congruence). cbn.
    destruct (env_render_html env path) as [html|e]; cbn; [|done].
    by destruct (env_write_text_error env _).
Qed.

Lemma run_output_markdown_file_mtime path w m t h :
  manifest (self w) = Some m →
  env_stat env path = Ok (t, h) →
  classify_spec (is_force (self w)) (items m !! path) (mkItem path t h)
    = mkDecision Skip false false →
  run (_output_markdown_file env path) w
    = (set_self (set_counts (bump Skip)) w, Ok tt).
Proof.
  intros Hm Hs Hd. destruct w as [[f tc mo cs] outs file cl].
  simpl in Hm; subst mo. unfold classify_spec in Hd. simpl in Hd.
  cbn. unfold ManifestItem_create, Manifest_get. rewrite Hs. cbn.
  destruct (items m !! path) as [ex|] eqn:Hex; [|by destruct f].
  destruct f; [done|]. cbn.
  destruct (t =? mtime ex); [done|]. by case_bool_decide.
Qed.

Lemma run_output_markdown_file_md5 path w m t h :
  manifest (self w) = Some m →
  env_stat env path = Ok (t, h) →
  classify_spec (is_force (self w)) (items m !! path) (mkItem path t h)
    = mkDecision Skip false true →
  run (_output_markdown_file env path) w
    = (set_self (set_counts (bump Skip))
         (emit (EvManifestAdd path)
            (set_self (set_manifest (Some (Manifest_upsert (mkItem path t h) m))) w)),
       Ok tt).
Proof.
  intros Hm Hs Hd. destruct w as [[f tc mo cs] outs file cl].
  simpl in Hm; subst mo. unfold classify_spec in Hd. simpl in Hd.
  cbn. unfold ManifestItem_create, Manifest_get. rewrite Hs. cbn.
  destruct (items m !! path) as [ex|] eqn:Hex; [|by destruct f].
  destruct f; [done|]. cbn.
  destruct (t =? mtime ex); [done|]. by case_bool_decide.
Qed.

End MethodFacts.

Lemma classify_spec_cases isForced existingRecord currentFingerprint :
  let d := classify_spec isForced existingRecord currentFingerprint in
  (d = mkDecision Create true false ∧ existingRecord = None)
  ∨ (d = mkDecision Update true false ∧ is_Some existingRecord)
  ∨ (d = mkDecision Skip false false ∧ isForced = false ∧ is_Some existingRecord)
  ∨ (d = mkDecision Skip false true ∧ isForced = false ∧ is_Some existingRecord).
Proof.
  unfold classify_spec.
  destruct isForced, existingRecord as [rec|]; simpl; eauto 6.
  destruct (_ =? _); [eauto 8|]. case_bool_decide; eauto 8.
Qed.

Lemma render_branch_calls env path item m o w :
  ∃ tr, calls (render_branch env path item m o w).1 = calls w ++ EvRender path :: tr.
Proof.
  unfold render_branch.
  destruct (env_render_html env path); [|by exists []].
  destruct (env_write_text_error env _); [by exists []|].
  eexists. simpl. rewrite <- !app_assoc. done.
Qed.

Lemma render_branch_counts env path item m o w :
  output_result_counts (self (render_branch env path item m o w).1)
    = bump o (output_result_counts (self w)).
Proof.
  unfold render_branch.
  destruct (env_render_html env path); [|done].
  by destruct (env_write_text_error env _).
Qed.

(** C1. Classification follows the five-step decision procedure of the
    specification: with the manifest loaded and the file's fingerprint
    available, [_output_markdown_file] advances exactly the counter of the
    outcome that [classify_spec] gives for (force flag, stored record, current
    fingerprint); it renders the file exactly when the procedure says so; on
    the mtime match it leaves the manifest alone; on the hash match it
    refreshes the record through [add] without rendering. *)
Theorem output_markdown_file_follows_classifier env path w m t h :
  manifest (self w) = Some m →
  env_stat env path = Ok (t, h) →
  let item := mkItem path t h in
  let d := classify_spec (is_force (self w)) (items m !! path) item in
  let w' := (run (_output_markdown_file env path) w).1 in
  output_result_counts (self w') = bump (outcome d) (output_result_counts (self w))
  ∧ ∃ tr, calls w' = calls w ++ tr
      ∧ (renders d = true → EvRender path ∈ tr)
      ∧ (renders d = false →
           (∀ p, EvRender p ∉ tr) ∧ (∀ p html, EvWriteText p html ∉ tr)
           ∧ outputs w' = outputs w)
      ∧ (refreshes d = true →
           manifest (self w') = Some (Manifest_upsert item m)
           ∧ EvManifestAdd path ∈ tr)
      ∧ (renders d = false → refreshes d = false →
           manifest (self w') = manifest (self w) ∧ tr = []).
Proof.
  intros Hm Hs item d w'. subst w'.
  destruct (classify_spec_cases (is_force (self w)) (items m !! path) item)
    as [[Hd _]|[[Hd _]|[[Hd _]|[Hd _]]]]; fold d in Hd.
  - rewrite (run_output_markdown_file_build env path w m t h Create Hm Hs Hd).
    rewrite Hd. simpl outcome. split; [apply render_branch_counts|].
    destruct (render_branch_calls env path item m Create w) as [tr Htr].
    exists (EvRender path :: tr). simpl. split_and!; try done.
    intros _. apply list_elem_of_here.
  - rewrite (run_output_markdown_file_build env path w m t h Update Hm Hs Hd).
    rewrite Hd. simpl outcome. split; [apply render_branch_counts|].
    destruct (render_branch_calls env path item m Update w) as [tr Htr].
    exists (EvRender path :: tr). simpl. split_and!; try done.
    intros _. apply list_elem_of_here.
  - rewrite (run_output_markdown_file_mtime env path w m t h Hm Hs Hd).
    rewrite Hd. simpl. split; [done|]. exists []. rewrite app_nil_r.
    split_and!; try done. intros _. split_and!; [| |done]; intros; apply not_elem_of_nil.
  - rewrite (run_output_markdown_file_md5 env path w m t h Hm Hs Hd).
    rewrite Hd. simpl. split; [done|]. exists [EvManifestAdd path].
    split_and!; try done.
    + intros _. split_and!; [| |done]; intros; rewrite list_elem_of_singleton; done.
    + intros _. split; [done|]. apply list_elem_of_here.
Qed.

(** ** Normalising worlds

    The setters are projections-and-rebuild; on a world that is already a
    constructor they are rewritten innermost first, so that a chain of
    updates collapses in linear time. *)

Lemma emit_mk e s o f c : emit e (mkWorld s o f c) = mkWorld s o f (c ++ [e]).
Proof. done. Qed.
Lemma emits_mk evs s o f c : emits evs (mkWorld s o f c) = mkWorld s o f (c ++ evs).
Proof. done. Qed.
Lemma set_self_mk g s o f c : set_self g (mkWorld s o f c) = mkWorld (g s) o f c.
Proof. done. Qed.
Lemma set_outputs_mk g s o f c : set_outputs g (mkWorld s o f c) = mkWorld s (g o) f c.
Proof. done. Qed.
Lemma set_manifest_file_mk d s o f c :
  set_manifest_file d (mkWorld s o f c) = mkWorld s o d c.
Proof. done. Qed.
Lemma set_is_force_mk b a t m c : set_is_force b (mkCommand a t m c) = mkCommand b t m c.
Proof. done. Qed.
Lemma set_threads_count_mk n a t m c :
  set_threads_count n (mkCommand a t m c) = mkCommand a n m c.
Proof. done. Qed.
Lemma set_manifest_mk m' a t m c : set_manifest m' (mkCommand a t m c) = mkCommand a t m' c.
Proof. done. Qed.
Lemma set_counts_mk g a t m c : set_counts g (mkCommand a t m c) = mkCommand a t m (g c).
Proof. done. Qed.
Lemma set_create_count_mk n c u s : set_create_count n (mkCounts c u s) = mkCounts n u s.
Proof. done. Qed.
Lemma set_update_count_mk n c u s : set_update_count n (mkCounts c u s) = mkCounts c n s.
Proof. done. Qed.
Lemma set_skip_count_mk n c u s : set_skip_count n (mkCounts c u s) = mkCounts c u n.
Proof. done. Qed.

Ltac world_norm :=
  unfold Manifest_write_data;
  repeat first
    [ rewrite emit_mk | rewrite emits_mk | rewrite set_self_mk
    | rewrite set_outputs_mk | rewrite set_manifest_file_mk
    | rewrite set_is_force_mk | rewrite set_threads_count_mk
    | rewrite set_manifest_mk | rewrite set_counts_mk
    | rewrite set_create_count_mk | rewrite set_update_count_mk
    | rewrite set_skip_count_mk ].

Ltac world_simpl := world_norm; cbn; rewrite <- ?app_assoc; cbn.

(* From here on the body of a file is used through the equations above. *)
Local Arguments _output_markdown_file : simpl never.

Section LoopFacts.
Context (env : Env).
Implicit Types (w : World) (m : Manifest) (path : Path).

(** Every way the body of [_output_markdown_file] can go once the manifest
    is loaded. *)
Lemma run_output_markdown_file_cases path w m :
  manifest (self w) = Some m →
  let r := run (_output_markdown_file env path) w in
  (∃ e, env_stat env path = Raised e ∧ r = (w, Raised e))
  ∨ (∃ t h, env_stat env path = Ok (t, h) ∧
      let item := mkItem path t h in
      let d := classify_spec (is_force (self w)) (items m !! path) item in
      (∃ o, d = mkDecision o true false ∧ r = render_branch env path item m o w)
      ∨ (d = mkDecision Skip false false
         ∧ r = (set_self (set_counts (bump Skip)) w, Ok tt))
      ∨ (d = mkDecision Skip false true
         ∧ r = (set_self (set_counts (bump Skip))
                  (emit (EvManifestAdd path)
                     (set_self (set_manifest (Some (Manifest_upsert item m))) w)),
                Ok tt))).
Proof.
  intros Hm r. subst r.
  destruct (env_stat env path) as [[t h]|e] eqn:Hs.
  - right. exists t, h. split; [done|]. intros item d.
    destruct (classify_spec_cases (is_force (self w)) (items m !! path) item)
      as [[Hd _]|[[Hd _]|[[Hd _]|[Hd _]]]]; fold d in Hd.
    + left. exists Create. eauto using run_output_markdown_file_build.
    + left. exists Update. eauto using run_output_markdown_file_build.
    + right; left. eauto using run_output_markdown_file_mtime.
    + right; right. eauto using run_output_markdown_file_md5.
  - left. exists e. eauto using run_output_markdown_file_unreadable.
Qed.

(** What a file's body never touches, and the only ways the manifest can
    move. *)
Lemma run_output_markdown_file_frame path w m :
  manifest (self w) = Some m →
  let w' := (run (_output_markdown_file env path) w).1 in
  is_force (self w') = is_force (self w)
  ∧ threads_count (self w') = threads_count (self w)
  ∧ manifest_file w' = manifest_file w
  ∧ ∃ m', manifest (self w') = Some m'
      ∧ (m' = m
         ∨ ∃ t h, env_stat env path = Ok (t, h)
             ∧ m' = Manifest_upsert (mkItem path t h) m).
Proof.
  intros Hm w'. subst w'.
  destruct (run_output_markdown_file_cases path w m Hm)
    as [(e & _ & ->)|(t & h & Hs & [(o & _ & ->)|[[_ ->]|[_ ->]]])]; simpl.
  - eauto 10.
  - unfold render_branch.
    destruct (env_render_html env path); simpl; [|eauto 10].
    destruct (env_write_text_error env _); simpl; eauto 10.
  - eauto 10.
  - eauto 10.
Qed.

Lemma run_submit_and_wait (task : prog unit) w :
  run (submit_and_wait task) w =
    let '(w', r) := run task w in
    (w', Ok (match r with Ok _ => None | Raised e => Some e end)).
Proof. unfold submit_and_wait. simpl. by destruct (run task w). Qed.

Lemma run_create_html_files paths w errors :
  run (create_html_files env paths errors (last errors)) w =
    let '(w', errors') := build_loop env paths (w, errors) in
    (w', Ok (errors', last errors')).
Proof.
  revert w errors. induction paths as [|path rest IH]; intros w errors; [done|].
  cbn [create_html_files]. rewrite run_bind, run_submit_and_wait.
  unfold build_loop. cbn [foldl file_step].
  destruct (run (_output_markdown_file env path) w) as [w' [[]|e]].
  - apply IH.
  - specialize (IH w' (errors ++ [error_message_of path e])).
    rewrite last_snoc in IH. apply IH.
Qed.

Lemma run_report_errors errors msg w :
  run (report_errors errors (Some msg)) w =
    (emits (replicate (length errors) (EvSpinnerFail msg)) w, Ok tt).
Proof.
  revert w. induction errors as [|error rest IH]; intros w.
  - simpl. unfold emits. rewrite app_nil_r. by destruct w.
  - simpl report_errors. rewrite ?run_bind, ?run_prog_bind. simpl. rewrite IH.
    unfold emits, emit. simpl. by rewrite <- app_assoc.
Qed.

End LoopFacts.

Lemma run_resolve_threads env options w :
  run (resolve_threads env options) w =
    (set_self (set_threads_count
                 (resolved_threads env options (threads_count (self w)))) w,
     Ok tt).
Proof.
  unfold resolve_threads, resolved_threads, default_threads.
  destruct w as [[f tc mo cs] outs file cl].
  destruct (opt_threads options) as [s|]; [destruct (str_truthy s)|];
    first [by destruct (py_int s) | by destruct (env_cpu_count env)].
Qed.

Lemma build_loop_invariant env (I : World * list string → Prop) paths st :
  I st →
  (∀ st path, path ∈ paths → I st → I (file_step env st path)) →
  I (build_loop env paths st).
Proof.
  unfold build_loop. revert st.
  induction paths as [|path rest IH]; intros st Hst Hstep; [done|].
  simpl. apply IH.
  - apply Hstep; [apply list_elem_of_here | done].
  - intros st' p Hp. apply Hstep. by apply list_elem_of_further.
Qed.

Lemma file_step_world env w errors path :
  (file_step env (w, errors) path).1 = (run (_output_markdown_file env path) w).1.
Proof.
  unfold file_step.
  by destruct (run (_output_markdown_file env path) w) as [w' [[]|e]].
Qed.

(** The loop leaves the force flag, the thread count and the manifest file
    alone, and the manifest stays loaded. *)
Lemma build_loop_frame env paths w errors m :
  manifest (self w) = Some m →
  let w1 := (build_loop env paths (w, errors)).1 in
  is_force (self w1) = is_force (self w)
  ∧ threads_count (self w1) = threads_count (self w)
  ∧ manifest_file w1 = manifest_file w
  ∧ is_Some (manifest (self w1)).
Proof.
  intros Hm.
  apply (build_loop_invariant env (λ st,
    is_force (self st.1) = is_force (self w)
    ∧ threads_count (self st.1) = threads_count (self w)
    ∧ manifest_file st.1 = manifest_file w
    ∧ is_Some (manifest (self st.1)))).
  { simpl. by rewrite Hm. }
  intros [w0 errors0] path _ (Hf & Ht & Hfile & [m0 Hm0]).
  rewrite file_step_world. cbn [fst] in *.
  destruct (run_output_markdown_file_frame env path w0 m0 Hm0)
    as (Hf' & Ht' & Hfile' & m' & Hm' & _).
  rewrite Hf', Ht', Hfile', Hm'. eauto.
Qed.

Lemma run_report_errors_last errors w :
  run (report_errors errors (last errors)) w =
    (emits (replicate (length errors) (EvSpinnerFail (default "" (last errors)))) w,
     Ok tt).
Proof.
  destruct (last errors) as [msg|] eqn:Hl; [apply run_report_errors|].
  apply last_None in Hl as ->. simpl. unfold emits. rewrite app_nil_r.
  by destruct w.
Qed.

(** ** Stepping through straight-line code *)

Lemma run_act_write f w : run (act_write f) w = (f w, Ok tt).
Proof. done. Qed.
Lemma run_act_read {A} (f : World → result A) w :
  run (act_read f) w = match f w with Ok x => (w, Ok x) | Raised e => (w, Raised e) end.
Proof. unfold act_read. simpl. by destruct (f w). Qed.
Lemma run_act_try f w :
  run (act_try f) w =
    match f w with Ok w' => (w', Ok tt) | Raised e => (w, Raised e) end.
Proof. unfold act_try. simpl. by destruct (f w). Qed.
Lemma run_mret {A} (x : A) w : run (mret x) w = (w, Ok x).
Proof. done. Qed.
Lemma run_stdout_write s w : run (stdout_write s) w = (emit (EvStdout s) w, Ok tt).
Proof. done. Qed.
Lemma run_success text w :
  run (_success text) w
    = (emit (EvStdout text) (emit (EvStdout LogSymbols_SUCCESS) w), Ok tt).
Proof. done. Qed.
Lemma run_self_manifest {A} attr (f : Manifest → A) s o d c :
  run (self_manifest attr f) (mkWorld s o d c) =
    match manifest s with
    | Some m => (mkWorld s o d c, Ok (f m))
    | None => (mkWorld s o d c, Raised (AttributeError_None attr))
    end.
Proof. unfold self_manifest. rewrite run_act_read. simpl. by destruct (manifest s). Qed.

(* One statement of straight-line code on a world in constructor form. *)
Ltac run_step :=
  rewrite ?run_bind, ?run_prog_bind;
  first [ rewrite run_act_write | rewrite run_stdout_write | rewrite run_success
        | rewrite run_self_manifest | rewrite run_act_read | rewrite run_act_try
        | rewrite run_mret ];
  cbv beta iota zeta; world_norm; cbn [self outputs manifest_file calls
    is_force threads_count manifest output_result_counts negb].

Lemma handle_run env options w s :
  env_collectstatic env = Ok s →
  0 < resolved_threads env options (threads_count (self w)) →
  ∃ w1 errors m,
    build_loop env (env_content_paths env) (loop_entry env options s w, [])
      = (w1, errors)
    ∧ manifest (self w1) = Some m
    ∧ run (handle env options) w = (loop_exit m errors w1, Ok errors).
Proof.
  intros Hc Ht.
  destruct (build_loop env (env_content_paths env) (loop_entry env options s w, []))
    as [w1 errors] eqn:Hloop.
  destruct (build_loop_frame env (env_content_paths env)
              (loop_entry env options s w) [] _ eq_refl) as (_ & _ & _ & [m Hm]).
  rewrite Hloop in Hm. cbn [fst] in Hm.
  exists w1, errors, m. split_and!; [done..|].
  apply Z.leb_gt in Ht.
  unfold handle. revert Hloop. unfold loop_entry, prologue_events, effective_force.
  destruct w as [[f tc mo [c0 u0 s0]] outs file cl].
  cbn [self threads_count outputs manifest_file calls] in *. intros Hloop.
  repeat run_step.
  assert (∀ w0, run (create_html_files env (env_content_paths env) [] None) w0
     = let '(w', errors') := build_loop env (env_content_paths env) (w0, []) in
       (w', Ok (errors', last errors'))) as Hrun
    by (intros w0; apply (run_create_html_files env _ w0 [])).
  assert (∀ (P : prog (list string)) w0,
            run (resolve_threads env options ≫= λ _, P) w0
            = run P (set_self (set_threads_count
                (resolved_threads env options (threads_count (self w0)))) w0))
    as Hres by (intros P w0; by rewrite run_bind, run_resolve_threads).
  destruct (opt_force options); repeat run_step; rewrite Hc; cbv beta iota zeta;
    repeat run_step;
    [|change (static_files_manifest_changed (Manifest_load env file))
        with (env_static_set_changed env);
      destruct (env_static_set_changed env); repeat run_step];
    (rewrite Hres; world_norm; cbn [self threads_count]; repeat run_step;
     rewrite Ht; cbv beta iota zeta; repeat run_step;
     rewrite run_bind, Hrun; rewrite <- ?app_assoc; cbn [app];
     cbn [negb andb orb app] in Hloop; rewrite <- ?app_assoc in Hloop;
     cbn [app] in Hloop; rewrite Hloop; cbv beta iota zeta;
     destruct w1 as [[f1 tc1 mo1 cs1] outs1 file1 cl1];
     cbn [self manifest] in Hm; subst mo1;
     repeat run_step; rewrite ?run_bind, ?run_prog_bind, run_report_errors_last;
     cbv beta iota zeta; world_norm; repeat run_step;
     unfold loop_exit, epilogue_events; cbv beta iota zeta;
     destruct (is_dirty m); repeat run_step; rewrite <- ?app_assoc; cbn [app];
     done).
Qed.

(** C5. Hash fallback: without force, for a file whose stored record has
    another modification time but the same content hash, the body of
    [_output_markdown_file] returns normally, advances the skip counter only,
    refreshes the record of that path to the new modification time through
    [add], and leaves everything else as it was: the other records, the
    generated files, the manifest file, the force flag and the thread count;
    nothing is rendered and nothing is written, the only call made is
    [manifest.add]. *)
Theorem hash_match_refreshes_record_only env path w m existing t h :
  manifest (self w) = Some m →
  is_force (self w) = false →
  items m !! path = Some existing →
  env_stat env path = Ok (t, h) →
  t ≠ mtime existing →
  h = md5 existing →
  let r := run (_output_markdown_file env path) w in
  let w' := r.1 in
  r.2 = Ok tt
  ∧ output_result_counts (self w') =
      mkCounts (create_count (output_result_counts (self w)))
               (update_count (output_result_counts (self w)))
               (skip_count (output_result_counts (self w)) + 1)
  ∧ (∃ m', manifest (self w') = Some m'
       ∧ items m' !! path = Some (mkItem path t h)
       ∧ (∀ q, q ≠ path → items m' !! q = items m !! q)
       ∧ is_dirty m' = true
       ∧ static_files_manifest_changed m' = static_files_manifest_changed m)
  ∧ outputs w' = outputs w
  ∧ manifest_file w' = manifest_file w
  ∧ is_force (self w') = false
  ∧ threads_count (self w') = threads_count (self w)
  ∧ calls w' = calls w ++ [EvManifestAdd path].
Proof.
  intros Hm Hf Hex Hs Ht Hh r w'. subst r w'.
  assert (classify_spec (is_force (self w)) (items m !! path) (mkItem path t h)
            = mkDecision Skip false true) as Hd.
  { rewrite Hf, Hex. unfold classify_spec. simpl.
    apply Z.eqb_neq in Ht. rewrite Ht. by rewrite bool_decide_eq_true_2. }
  rewrite (run_output_markdown_file_md5 env path w m t h Hm Hs Hd).
  destruct w as [[f tc mo cs] outs file cl]. simpl in *. subst f.
  split_and!; try done.
  eexists. split; [done|]. simpl. split_and!; try done.
  - apply lookup_insert_eq.
  - intros q Hq. by apply lookup_insert_ne.
Qed.

(** The hypotheses of the hash fallback hold on a one-record manifest. *)
Lemma hash_match_refreshes_record_only_witness :
  let env := example_env ["a.md"] [] 8 in
  let m := mkManifest {["a.md" := mkItem "a.md" 7 "md5-a.md"]} false false in
  let w := mkWorld (mkCommand false 2 (Some m) (mkCounts 0 0 0)) ∅ None [] in
  calls (run (_output_markdown_file env "a.md") w).1 = [EvManifestAdd "a.md"].
Proof.
  intros env m w.
  pose proof (hash_match_refreshes_record_only env "a.md" w m
                (mkItem "a.md" 7 "md5-a.md") 100 "md5-a.md") as H.
  apply H; [reflexivity | reflexivity | reflexivity | reflexivity
           | simpl; lia | reflexivity].
Defined.

(** [self.manifest.add(path)] run to its end is [Manifest.add] on the loaded
    manifest. *)
Lemma run_self_manifest_add env path w :
  run (self_manifest_add env path) w =
    match manifest (self w) with
    | Some m =>
        match Manifest_add env m path with
        | Ok m' =>
            (emit (EvManifestAdd path) (set_self (set_manifest (Some m')) w), Ok tt)
        | Raised e => (w, Raised e)
        end
    | None => (w, Raised (AttributeError_None "add"))
    end.
Proof.
  unfold self_manifest_add, Manifest_add.
  destruct w as [[f tc [m|] cs] outs file cl]; [|done]. cbn.
  by destruct (ManifestItem_create env path) as [item|e].
Qed.

(** ** Calls are only ever appended *)

Lemma run_output_markdown_file_calls env path w m :
  manifest (self w) = Some m →
  ∃ tr, calls (run (_output_markdown_file env path) w).1 = calls w ++ tr.
Proof.
  intros Hm.
  destruct (run_output_markdown_file_cases env path w m Hm)
    as [(e & _ & ->)|(t & h & Hs & [(o & _ & ->)|[[_ ->]|[_ ->]]])]; simpl.
  - exists []. by rewrite app_nil_r.
  - destruct (render_branch_calls env path (mkItem path t h) m o w) as [tr ->].
    eauto.
  - exists []. by rewrite app_nil_r.
  - eauto.
Qed.

Lemma build_loop_calls env paths w errors m :
  manifest (self w) = Some m →
  ∃ tr, calls (build_loop env paths (w, errors)).1 = calls w ++ tr.
Proof.
  intros Hm.
  apply (build_loop_invariant env (λ st,
    is_Some (manifest (self st.1)) ∧ ∃ tr, calls st.1 = calls w ++ tr)).
  { simpl. rewrite Hm. split; [eauto|]. exists []. by rewrite app_nil_r. }
  intros [w0 errors0] path _ [[m0 Hm0] [tr Htr]].
  rewrite file_step_world. cbn [fst] in *.
  destruct (run_output_markdown_file_frame env path w0 m0 Hm0)
    as (_ & _ & _ & m' & Hm' & _).
  destruct (run_output_markdown_file_calls env path w0 m0 Hm0) as [tr' Htr'].
  split; [eauto|]. exists (tr ++ tr'). by rewrite Htr', Htr, app_assoc.
Qed.

(** ** Forced builds *)

(** Under the force flag a readable file takes the render branch, as a
    create or as an update. *)
Lemma run_output_markdown_file_forced env path w m t h :
  manifest (self w) = Some m →
  is_force (self w) = true →
  env_stat env path = Ok (t, h) →
  ∃ o, o ≠ Skip
    ∧ run (_output_markdown_file env path) w
        = render_branch env path (mkItem path t h) m o w.
Proof.
  intros Hm Hf Hs.
  exists (if items m !! path is Some _ then Update else Create).
  split; [by destruct (items m !! path)|].
  apply run_output_markdown_file_build; [done..|].
  by rewrite Hf.
Qed.

Lemma build_loop_forced env paths w errors m :
  manifest (self w) = Some m →
  is_force (self w) = true →
  let w1 := (build_loop env paths (w, errors)).1 in
  skip_count (output_result_counts (self w1))
    = skip_count (output_result_counts (self w))
  ∧ create_count (output_result_counts (self w1))
      + update_count (output_result_counts (self w1))
    = create_count (output_result_counts (self w))
      + update_count (output_result_counts (self w))
      + Z.of_nat (length (filter (λ p, readable env p = true) paths))
  ∧ ∀ p, p ∈ paths → readable env p = true →
      ∃ tr, calls w1 = calls w ++ tr ∧ EvRender p ∈ tr.
Proof.
  revert w errors m.
  induction paths as [|path rest IH]; intros w errors m Hm Hf.
  { simpl. split_and!; [done|lia|]. intros p Hp. by apply not_elem_of_nil in Hp. }
  unfold build_loop. cbn [foldl].
  destruct (file_step env (w, errors) path) as [w0 errors0] eqn:Hstep.
  pose proof (file_step_world env w errors path) as Hw0.
  rewrite Hstep in Hw0. cbn [fst] in Hw0.
  destruct (run_output_markdown_file_frame env path w m Hm)
    as (Hf' & _ & _ & m' & Hm' & _).
  rewrite <- Hw0 in Hf', Hm'. rewrite Hf in Hf'.
  specialize (IH w0 errors0 m' Hm' Hf'). unfold build_loop in IH.
  destruct IH as (IHs & IHc & IHr).
  assert (skip_count (output_result_counts (self w0))
            = skip_count (output_result_counts (self w))
          ∧ create_count (output_result_counts (self w0))
              + update_count (output_result_counts (self w0))
            = create_count (output_result_counts (self w))
              + update_count (output_result_counts (self w))
              + (if readable env path then 1 else 0)
          ∧ (readable env path = true →
               ∃ tr, calls w0 = calls w ++ tr ∧ EvRender path ∈ tr))
    as (Hs0 & Hc0 & Hr0).
  { rewrite Hw0. unfold readable.
    destruct (env_stat env path) as [[t h]|e] eqn:Hs.
    - destruct (run_output_markdown_file_forced env path w m t h Hm Hf Hs)
        as (o & Ho & ->).
      rewrite render_branch_counts.
      destruct (render_branch_calls env path (mkItem path t h) m o w) as [tr Htr].
      split_and!.
      + by destruct o.
      + destruct o; simpl; try done; lia.
      + intros _. exists (EvRender path :: tr). split; [done|]. apply list_elem_of_here.
    - rewrite (run_output_markdown_file_unreadable env path w m e Hm Hs).
      simpl. split_and!; [done|lia|done]. }
  split_and!.
  - by rewrite IHs.
  - rewrite IHc, Hc0, filter_cons. destruct (readable env path) eqn:Hrd.
    + rewrite decide_True by done. simpl length. lia.
    + rewrite decide_False by done. lia.
  - intros p Hp Hrd.
    destruct (build_loop_calls env rest w0 errors0 m' Hm') as [tr1 Htr1].
    unfold build_loop in Htr1.
    apply elem_of_cons in Hp as [->|Hp].
    + destruct (Hr0 Hrd) as (tr0 & Htr0 & Hin).
      exists (tr0 ++ tr1). rewrite Htr1, Htr0, app_assoc. split; [done|].
      apply elem_of_app. by left.
    + destruct (IHr p Hp Hrd) as (tr & Htr & Hin).
      destruct (run_output_markdown_file_calls env path w m Hm) as [tr0 Htr0].
      rewrite <- Hw0 in Htr0.
      exists (tr0 ++ tr). rewrite Htr, Htr0, app_assoc. split; [done|].
      apply elem_of_app. by right.
Qed.

(** C2. When the effective force flag is true, because [--force] was passed
    or because the asset collection reported a changed static set, a build
    that reaches its worker pool skips no file: the skip counter ends at
    zero, every discovered file whose fingerprint can be taken is counted as
    a create or an update, and each such file is rendered — whatever the
    stored manifest records say. *)
Theorem forced_build_never_skips env options w s :
  opt_force options = true ∨ env_static_set_changed env = true →
  env_collectstatic env = Ok s →
  0 < resolved_threads env options (threads_count (self w)) →
  let r := run (handle env options) w in
  let counts := output_result_counts (self r.1) in
  (∃ errors, r.2 = Ok errors)
  ∧ skip_count counts = 0
  ∧ create_count counts + update_count counts
      = Z.of_nat (length (filter (λ p, readable env p = true)
                            (env_content_paths env)))
  ∧ ∀ p, p ∈ env_content_paths env → readable env p = true →
      ∃ tr, calls r.1 = calls w ++ tr ∧ EvRender p ∈ tr.
Proof.
  intros Hforce Hc Ht r counts. subst counts r.
  destruct (handle_run env options w s Hc Ht) as (w1 & errors & m & Hloop & Hm & ->).
  cbn [fst snd]. split; [eauto|].
  assert (is_force (self (loop_entry env options s w)) = true) as Hf.
  { unfold loop_entry, effective_force. simpl.
    destruct Hforce as [-> | ->]; [done|]. by rewrite orb_true_r. }
  destruct (build_loop_forced env (env_content_paths env)
              (loop_entry env options s w) [] _ eq_refl Hf) as (Hs & Hcu & Hr).
  rewrite Hloop in Hs, Hcu, Hr. cbn [fst] in Hs, Hcu, Hr.
  unfold loop_exit. cbn [self output_result_counts calls].
  split_and!.
  - by rewrite Hs.
  - by rewrite Hcu.
  - intros p Hp Hrd. destruct (Hr p Hp Hrd) as (tr & Htr & Hin).
    unfold loop_entry in Htr. cbn [calls] in Htr.
    eexists. rewrite Htr, <- !app_assoc. split; [done|].
    rewrite !elem_of_app. right. left. done.
Qed.

(** The hypotheses of the forced build hold for [--force] on a two-file site
    whose manifest already records both files unchanged. *)
Lemma forced_build_never_skips_witness :
  let env := example_env ["a.md"; "b.md"] [] 8 in
  let file := Some ({["a.md" := mkItem "a.md" 100 "md5-a.md"]}
                    : gmap string ManifestItem) in
  skip_count (output_result_counts (self
    (run (handle env (mkOptions true None)) (initial_world Command_class file)).1)) = 0.
Proof.
  intros env file.
  pose proof (forced_build_never_skips env (mkOptions true None)
                (initial_world Command_class file) "Copy 0 static files") as H.
  apply H; [by left | reflexivity | reflexivity].
Defined.

(** The hypotheses of the classification theorem hold on a stored record
    with a newer file of other content. *)
Lemma output_markdown_file_follows_classifier_witness :
  let env := example_env ["a.md"] [] 8 in
  let m := mkManifest {["a.md" := mkItem "a.md" 7 "md5-old"]} false false in
  let w := mkWorld (mkCommand false 2 (Some m) (mkCounts 0 0 0)) ∅ None [] in
  output_result_counts (self (run (_output_markdown_file env "a.md") w).1)
    = mkCounts 0 1 0.
Proof.
  intros env m w.
  pose proof (output_markdown_file_follows_classifier env "a.md" w m 100 "md5-a.md")
    as H.
  apply H; reflexivity.
Defined.

(** C3 (the code departs from the claim).  Three new files, the second of
    which fails to render: the build completes and collects exactly one error
    naming that file, but the counters show three outcomes, not two — the
    create counter was advanced before the render was attempted. *)
Theorem render_failure_is_still_counted :
  let env := example_env ["a.md"; "bad.md"; "b.md"] ["bad.md"] 8 in
  let r := run (handle env (mkOptions false None)) (initial_world Command_class None) in
  r.2 = Ok ["Rendering bad.md failed. `TemplateSyntaxError: Invalid block tag in bad.md`"]
  ∧ output_result_counts (self r.1) = mkCounts 3 0 0
  ∧ outputs r.1 !! "output/bad.md.html" = None.
Proof. vm_compute. done. Qed.

(** C7 (the code departs from the claim).  Two files fail to render, each
    with its own message; both messages are collected, but after the summary
    the spinner prints the message of the last failure twice and the first
    one never. *)
Theorem last_error_is_printed_for_every_error :
  let env := example_env ["a.md"; "b.md"] ["a.md"; "b.md"] 8 in
  let r := run (handle env (mkOptions false None)) (initial_world Command_class None) in
  r.2 = Ok ["Rendering a.md failed. `TemplateSyntaxError: Invalid block tag in a.md`";
            "Rendering b.md failed. `TemplateSyntaxError: Invalid block tag in b.md`"]
  ∧ spinner_fails (calls r.1)
    = ["Rendering b.md failed. `TemplateSyntaxError: Invalid block tag in b.md`";
       "Rendering b.md failed. `TemplateSyntaxError: Invalid block tag in b.md`"].
Proof. vm_compute. done. Qed.

(** C10. [handle] starts by resetting the force flag, the manifest reference
    and the three counters: a build started on a command object gives the
    same world and the same result whatever those attributes held before, so
    nothing of them carries over from an earlier build. *)
Theorem handle_ignores_previous_build env options f tc mo cs outs file cl :
  run (handle env options) (mkWorld (mkCommand f tc mo cs) outs file cl)
  = run (handle env options)
      (mkWorld (mkCommand false tc None (mkCounts 0 0 0)) outs file cl).
Proof. unfold handle. rewrite !run_bind. reflexivity. Qed.

(** ** Thread count *)

(** C6, as stated, fails: on sixteen hardware threads the specification's
    count for the non-numeric [--threads abc] is the computed default 7; the
    code keeps the count the command object already has, 2 on a fresh
    command. *)
Lemma invalid_threads_keeps_current_count :
  let env := example_env [] [] 16 in
  let w := initial_world Command_class None in
  let w' := (run (resolve_threads env (mkOptions false (Some "abc"))) w).1 in
  threads_count (self w') = 2
  ∧ resolve_threads_spec (Some "abc") 16 = 7
  ∧ threads_count (self w') ≠ resolve_threads_spec (Some "abc") 16.
Proof. vm_compute. split_and!; congruence. Qed.

(** C6, amended.  Resolving the thread count never raises.  A [--threads]
    value that [int] reads as a positive integer becomes the count.  A
    non-empty value that [int] rejects leaves the count of the command object
    as it was (2 on a fresh command).  Without a value, from four hardware
    threads on, the count is the specification's default: half of the
    hardware threads minus one, floored at 1. *)
Theorem resolve_threads_amended env options w :
  let r := run (resolve_threads env options) w in
  let n := threads_count (self r.1) in
  r.2 = Ok tt
  ∧ (∀ s k, opt_threads options = Some s → py_int s = Some k → 0 < k →
       n = k ∧ ∀ hardware_threads, n = resolve_threads_spec (Some s) hardware_threads)
  ∧ (∀ s, opt_threads options = Some s → str_truthy s = true → py_int s = None →
       n = threads_count (self w))
  ∧ (∀ c, opt_threads options = None ∨ opt_threads options = Some "" →
       env_cpu_count env = Ok c → 4 ≤ c →
       n = default_threads_spec c ∧ n = c `div` 2 - 1).
Proof.
  intros r n. subst n r. rewrite run_resolve_threads. cbn [fst snd].
  split; [done|].
  destruct w as [[f tc mo cs] outs file cl]. world_norm.
  cbn [self threads_count].
  unfold resolved_threads, default_threads. split_and!.
  - intros s k -> Hk Hpos.
    assert (str_truthy s = true) as ->.
    { destruct s; [|done]. by vm_compute in Hk. }
    rewrite Hk. cbn [default]. split; [done|]. intros hw.
    unfold resolve_threads_spec. rewrite Hk.
    apply Z.ltb_lt in Hpos. by rewrite Hpos.
  - intros s -> -> ->. done.
  - intros c Hopt Hcpu Hc.
    assert (match opt_threads options with
            | Some s => if str_truthy s then default tc (py_int s)
                        else match env_cpu_count env with
                             | Ok n => n `div` 2 - 1 | Raised _ => tc end
            | None => match env_cpu_count env with
                      | Ok n => n `div` 2 - 1 | Raised _ => tc end
            end = c `div` 2 - 1) as ->.
    { destruct Hopt as [-> | ->]; simpl; by rewrite Hcpu. }
    split; [|done]. unfold default_threads_spec.
    assert (2 ≤ c `div` 2) by (apply Z.div_le_lower_bound; lia). lia.
Qed.

(** The cases of the amended claim, on concrete options; the last value is
    the Arabic-Indic digit three. *)
Lemma resolve_threads_amended_witness :
  let env := example_env [] [] 16 in
  let w := initial_world Command_class None in
  threads_count (self (run (resolve_threads env (mkOptions false (Some " 4 "))) w).1) = 4
  ∧ threads_count (self (run (resolve_threads env (mkOptions false (Some "abc"))) w).1) = 2
  ∧ threads_count (self (run (resolve_threads env (mkOptions false None)) w).1) = 7
  ∧ threads_count (self (run (resolve_threads env (mkOptions false (Some "٣"))) w).1) = 3.
Proof.
  intros env w. split_and!.
  - pose proof (resolve_threads_amended env (mkOptions false (Some " 4 ")) w)
      as (_ & H & _ & _).
    apply (H " 4 " 4); solve [reflexivity | lia].
  - pose proof (resolve_threads_amended env (mkOptions false (Some "abc")) w)
      as (_ & _ & H & _).
    apply (H "abc"); reflexivity.
  - pose proof (resolve_threads_amended env (mkOptions false None) w)
      as (_ & _ & _ & H).
    apply (H 16); first [by left | reflexivity | lia].
  - pose proof (resolve_threads_amended env (mkOptions false (Some "٣")) w)
      as (_ & H & _ & _).
    apply (H "٣" 3); solve [reflexivity | lia].
Defined.

(** ** Builds that abort before the worker pool *)

(* An event of another kind is none of the listed ones. *)
Ltac not_in_events :=
  let Hin := fresh "Hin" in
  intros Hin;
  repeat (apply elem_of_cons in Hin as [Hin|Hin]; [discriminate Hin|]);
  by apply elem_of_nil in Hin.

Lemma handle_aborted env options w :
  (∃ e, env_collectstatic env = Raised e)
  ∨ resolved_threads env options (threads_count (self w)) ≤ 0 →
  let r := run (handle env options) w in
  (∃ e, r.2 = Raised e)
  ∧ output_result_counts (self r.1) = mkCounts 0 0 0
  ∧ manifest (self r.1) = Some (Manifest_load env (manifest_file w))
  ∧ manifest_file r.1 = manifest_file w
  ∧ ∃ evs, calls r.1 = calls w ++ evs ∧ EvWriteData ∉ evs.
Proof.
  intros Habort r. subst r. unfold handle.
  destruct w as [[f tc mo [c0 u0 s0]] outs file cl].
  cbn [self threads_count manifest_file calls] in *.
  assert (∀ (P : prog (list string)) w0,
            run (resolve_threads env options ≫= λ _, P) w0
            = run P (set_self (set_threads_count
                (resolved_threads env options (threads_count (self w0)))) w0))
    as Hres by (intros P w0; by rewrite run_bind, run_resolve_threads).
  repeat run_step.
  destruct (env_collectstatic env) as [s|e] eqn:Hc.
  - destruct Habort as [[e He]|Ht]; [done|]. apply Z.leb_le in Ht.
    destruct (opt_force options); repeat run_step; rewrite ?Hc; cbv beta iota zeta;
      repeat run_step;
      [|change (static_files_manifest_changed (Manifest_load env file))
        with (env_static_set_changed env);
        destruct (env_static_set_changed env); repeat run_step];
      (rewrite Hres; world_norm; cbn [self threads_count]; repeat run_step;
       rewrite Ht; cbv beta iota zeta; cbn [fst snd self output_result_counts
         manifest manifest_file calls];
       split_and!; [eauto|done..|];
       rewrite <- ?app_assoc; cbn [app];
       eexists; split; [done|]; not_in_events).
  - destruct (opt_force options); repeat run_step; rewrite ?Hc; cbv beta iota zeta;
      cbn [fst snd self output_result_counts manifest manifest_file calls];
      (split_and!; [eauto|done..|]; rewrite <- ?app_assoc; cbn [app];
       eexists; split; [done|]; not_in_events).
Qed.

(** ** Errors are only ever appended *)

Lemma build_loop_errors env paths w errors :
  ∃ extra, (build_loop env paths (w, errors)).2 = errors ++ extra.
Proof.
  revert w errors. induction paths as [|path rest IH]; intros w errors.
  { exists []. simpl. by rewrite app_nil_r. }
  unfold build_loop. cbn [foldl]. unfold file_step at 2.
  destruct (run (_output_markdown_file env path) w) as [w' [[]|e]].
  - apply IH.
  - destruct (IH w' (errors ++ [error_message_of path e])) as [extra Hx].
    unfold build_loop in Hx. rewrite Hx, <- app_assoc. eauto.
Qed.

(** ** What a successful file leaves in the manifest *)

Lemma classify_spec_mtime_match isForced existingRecord currentFingerprint :
  classify_spec isForced existingRecord currentFingerprint
    = mkDecision Skip false false →
  ∃ rec, existingRecord = Some rec ∧ mtime rec = mtime currentFingerprint.
Proof.
  unfold classify_spec.
  destruct isForced; [by destruct existingRecord|].
  destruct existingRecord as [rec|]; [|done].
  destruct (mtime currentFingerprint =? mtime rec) eqn:Heq.
  - intros _. apply Z.eqb_eq in Heq. eauto.
  - by case_bool_decide.
Qed.

Lemma recorded_fresh_upsert env path t h m q :
  env_stat env path = Ok (t, h) →
  recorded_fresh env (items m) q →
  recorded_fresh env (items (Manifest_upsert (mkItem path t h) m)) q.
Proof.
  intros Hs (t' & h' & it & Hs' & Hit & Hmt). unfold recorded_fresh. simpl.
  destruct (decide (path = q)) as [<-|Hne].
  - rewrite lookup_insert_eq. exists t, h, (mkItem path t h). done.
  - rewrite lookup_insert_ne by done. eauto 10.
Qed.

Lemma run_output_markdown_file_ok env path w m w' :
  manifest (self w) = Some m →
  run (_output_markdown_file env path) w = (w', Ok tt) →
  ∃ m', manifest (self w') = Some m'
    ∧ recorded_fresh env (items m') path
    ∧ (∀ q, recorded_fresh env (items m) q → recorded_fresh env (items m') q).
Proof.
  intros Hm Hrun.
  destruct (run_output_markdown_file_cases env path w m Hm)
    as [(e & _ & Hr)|(t & h & Hs & [(o & _ & Hr)|[[Hd Hr]|[_ Hr]]])];
    rewrite Hr in Hrun.
  - done.
  - unfold render_branch in Hrun.
    destruct (env_render_html env path); [|done].
    destruct (env_write_text_error env _); [done|].
    injection Hrun as <-. eexists. split; [done|]. split.
    + exists t, h, (mkItem path t h). simpl. by rewrite lookup_insert_eq.
    + intros q. by apply recorded_fresh_upsert.
  - injection Hrun as <-. exists m. simpl. split; [done|]. split; [|done].
    apply classify_spec_mtime_match in Hd as (rec & Hrec & Hmt).
    exists t, h, rec. done.
  - injection Hrun as <-. eexists. split; [done|]. split.
    + exists t, h, (mkItem path t h). simpl. by rewrite lookup_insert_eq.
    + intros q. by apply recorded_fresh_upsert.
Qed.

(** A pass that collects no error leaves a fresh record for every path. *)
Lemma build_loop_no_error env paths w errors m w1 :
  manifest (self w) = Some m →
  build_loop env paths (w, errors) = (w1, errors) →
  ∃ m1, manifest (self w1) = Some m1
    ∧ (∀ p, p ∈ paths → recorded_fresh env (items m1) p)
    ∧ (∀ q, recorded_fresh env (items m) q → recorded_fresh env (items m1) q).
Proof.
  revert w m. induction paths as [|path rest IH]; intros w m Hm Hloop.
  { injection Hloop as <-. exists m. split_and!; [done| |done].
    intros p Hp. by apply not_elem_of_nil in Hp. }
  unfold build_loop in Hloop. cbn [foldl] in Hloop. unfold file_step at 2 in Hloop.
  destruct (run (_output_markdown_file env path) w) as [w' [[]|e]] eqn:Hrun.
  - destruct (run_output_markdown_file_ok env path w m w' Hm Hrun)
      as (m' & Hm' & Hfresh & Hkeep).
    destruct (IH w' m' Hm' Hloop) as (m1 & Hm1 & Hall & Hkeep1).
    exists m1. split_and!; [done| |by eauto].
    intros p [->|Hp]%elem_of_cons; eauto.
  - destruct (build_loop_errors env rest w' (errors ++ [error_message_of path e]))
      as [extra Hx].
    unfold build_loop in Hx. rewrite Hloop in Hx. simpl in Hx.
    apply (f_equal length) in Hx. rewrite !length_app in Hx. simpl in Hx. lia.
Qed.

(** Records change only together with the dirty flag. *)
Lemma build_loop_dirty env paths w errors m :
  manifest (self w) = Some m →
  ∃ m1, manifest (self (build_loop env paths (w, errors)).1) = Some m1
    ∧ (is_dirty m1 = false → items m1 = items m).
Proof.
  intros Hm.
  apply (build_loop_invariant env (λ st,
    ∃ m1, manifest (self st.1) = Some m1
      ∧ (is_dirty m1 = false → items m1 = items m))).
  { exists m. done. }
  intros [w0 errors0] path _ (m0 & Hm0 & Hd0).
  rewrite file_step_world. cbn [fst] in *.
  destruct (run_output_markdown_file_frame env path w0 m0 Hm0)
    as (_ & _ & _ & m' & Hm' & [->|(t & h & _ & ->)]); eauto.
  exists (Manifest_upsert (mkItem path t h) m0). done.
Qed.

(** A pass over files whose records are all fresh, without force: every file
    is skipped on its modification time and nothing else happens. *)
Lemma build_loop_all_fresh env paths w errors m :
  manifest (self w) = Some m →
  is_force (self w) = false →
  (∀ p, p ∈ paths → recorded_fresh env (items m) p) →
  build_loop env paths (w, errors)
    = (set_self (set_counts (λ c,
         set_skip_count (skip_count c + Z.of_nat (length paths)) c)) w,
       errors).
Proof.
  revert w. induction paths as [|path rest IH]; intros w Hm Hf Hall.
  { simpl. destruct w as [[f tc mo [c u s]] outs file cl]. world_simpl.
    by rewrite Z.add_0_r. }
  unfold build_loop. cbn [foldl]. unfold file_step at 2.
  destruct (Hall path) as (t & h & it & Hs & Hit & Hmt); [apply list_elem_of_here|].
  rewrite (run_output_markdown_file_mtime env path w m t h Hm Hs).
  2:{ rewrite Hf, Hit. unfold classify_spec. simpl. subst t. by rewrite Z.eqb_refl. }
  fold (build_loop env rest (set_self (set_counts (bump Skip)) w, errors)).
  rewrite IH; [| done | done |].
  2:{ intros p Hp. apply Hall. by apply list_elem_of_further. }
  destruct w as [[f tc mo [c u s]] outs file cl].
  unfold bump. world_norm. cbv beta. world_norm.
  cbn [skip_count length]. rewrite Nat2Z.inj_succ.
  replace (s + Z.succ (Z.of_nat (length rest)))
    with (s + 1 + Z.of_nat (length rest)) by lia.
  done.
Qed.

(** ** Two builds in a row *)

(** What the second of two builds finds on disk: the records the first one
    ended with. *)
Lemma handle_ok_leaves_fresh_records env options w w' :
  run (handle env options) w = (w', Ok []) →
  ∀ p, p ∈ env_content_paths env →
    recorded_fresh env (default ∅ (manifest_file w')) p.
Proof.
  intros Hrun.
  destruct (env_collectstatic env) as [s|e] eqn:Hc.
  2:{ destruct (handle_aborted env options w) as ([e' He'] & _).
      { left. eauto. }
      rewrite Hrun in He'. done. }
  destruct (decide (0 < resolved_threads env options (threads_count (self w))))
    as [Ht|Ht].
  2:{ destruct (handle_aborted env options w) as ([e' He'] & _).
      { right. lia. }
      rewrite Hrun in He'. done. }
  destruct (handle_run env options w s Hc Ht) as (w1 & errors & m & Hloop & Hm & Hr).
  rewrite Hr in Hrun. injection Hrun as <- ->.
  set (w0 := loop_entry env options s w) in *.
  assert (manifest (self w0) = Some (Manifest_load env (manifest_file w))) as Hm0
    by done.
  destruct (build_loop_no_error env _ w0 [] _ w1 Hm0 Hloop)
    as (m1 & Hm1 & Hall & _).
  rewrite Hm in Hm1. injection Hm1 as <-.
  destruct (build_loop_dirty env (env_content_paths env) w0 [] _ Hm0)
    as (m1 & Hm1 & Hdirty).
  rewrite Hloop in Hm1. cbn [fst] in Hm1. rewrite Hm in Hm1. injection Hm1 as <-.
  destruct (build_loop_frame env (env_content_paths env) w0 [] _ Hm0)
    as (_ & _ & Hfile & _).
  rewrite Hloop in Hfile. cbn [fst] in Hfile.
  intros p Hp. specialize (Hall p Hp).
  unfold loop_exit. cbn [manifest_file].
  destruct (is_dirty m) eqn:Hd; [done|].
  rewrite Hfile. subst w0. unfold loop_entry. cbn [manifest_file].
  rewrite Hdirty in Hall by done. done.
Qed.

(** C4, amended.  Idempotence and dirty-skip.  After a build that completed
    without errors, a second build over the same sources, without [--force] and with
    an unchanged static set, creates nothing and updates nothing; its
    manifest is not dirty at the end; it never calls [write_data] and leaves
    the manifest file as it was.  When that second build gets as far as its
    summary it reports every file as skipped and no error. *)
Theorem second_build_is_noop env options w w' env2 options2 w2 :
  run (handle env options) w = (w', Ok []) →
  (∀ p, env_stat env2 p = env_stat env p) →
  env_content_paths env2 = env_content_paths env →
  env_static_set_changed env2 = false →
  opt_force options2 = false →
  manifest_file w2 = manifest_file w' →
  let r := run (handle env2 options2) w2 in
  let counts := output_result_counts (self r.1) in
  create_count counts = 0
  ∧ update_count counts = 0
  ∧ (∃ m, manifest (self r.1) = Some m ∧ is_dirty m = false)
  ∧ (∃ evs, calls r.1 = calls w2 ++ evs ∧ EvWriteData ∉ evs)
  ∧ manifest_file r.1 = manifest_file w2
  ∧ (∀ errors, r.2 = Ok errors →
       errors = []
       ∧ skip_count counts = Z.of_nat (length (env_content_paths env2))).
Proof.
  intros Hrun1 Hstat Hpaths Hstatic Hforce Hfile r counts. subst counts r.
  pose proof (handle_ok_leaves_fresh_records env options w w' Hrun1) as Hfresh.
  assert (∀ p, p ∈ env_content_paths env2 →
            recorded_fresh env2
              (items (Manifest_load env2 (manifest_file w2))) p) as Hfresh2.
  { intros p Hp. rewrite Hpaths in Hp. rewrite Hfile. cbn [Manifest_load items].
    destruct (Hfresh p Hp) as (t & h & it & Hs & Hit & Hmt).
    exists t, h, it. by rewrite Hstat. }
  destruct (env_collectstatic env2) as [s|e] eqn:Hc; [destruct (decide
    (0 < resolved_threads env2 options2 (threads_count (self w2)))) as [Ht|Ht]|].
  - destruct (handle_run env2 options2 w2 s Hc Ht)
      as (w1 & errors & m & Hloop & Hm & ->).
    set (w0 := loop_entry env2 options2 s w2) in *.
    assert (manifest (self w0) = Some (Manifest_load env2 (manifest_file w2)))
      as Hm0 by done.
    assert (is_force (self w0) = false) as Hf0.
    { subst w0. unfold loop_entry, effective_force. cbn [self is_force].
      by rewrite Hforce, Hstatic. }
    rewrite (build_loop_all_fresh env2 _ w0 [] _ Hm0 Hf0 Hfresh2) in Hloop.
    injection Hloop as <- <-.
    subst w0. unfold loop_entry in *. world_norm. cbv beta. world_norm.
    cbn [self manifest] in Hm. injection Hm as <-.
    unfold loop_exit, epilogue_events. cbn [Manifest_load is_dirty].
    cbn [fst snd self output_result_counts create_count update_count skip_count
         manifest manifest_file calls].
    split_and!; try done.
    + eauto.
    + rewrite <- !app_assoc. eexists. split; [done|].
      unfold prologue_events. rewrite Hforce, Hstatic. cbn [negb andb app length
        replicate]. not_in_events.
    + intros errors [= <-]. split; [done|]. lia.
  - destruct (handle_aborted env2 options2 w2) as ([e He] & -> & Hm & Hfl & Hev).
    { right. lia. }
    split_and!; try done.
    + rewrite Hm. eauto.
    + intros errors Herr. rewrite Herr in He. done.
  - destruct (handle_aborted env2 options2 w2) as ([e' He] & -> & Hm & Hfl & Hev).
    { left. eauto. }
    split_and!; try done.
    + rewrite Hm. eauto.
    + intros errors Herr. rewrite Herr in He. done.
Qed.

(** The hypotheses of the idempotence theorem hold for two builds of a
    two-file site started from no manifest at all. *)
Lemma second_build_is_noop_witness :
  let env := example_env ["a.md"; "b.md"] [] 8 in
  let options := mkOptions false None in
  let w := initial_world Command_class None in
  let w' := (run (handle env options) w).1 in
  create_count (output_result_counts (self (run (handle env options) w').1)) = 0.
Proof.
  intros env options w w'.
  pose proof (second_build_is_noop env options w w' env options w') as H.
  apply H; [vm_compute; reflexivity | done | done | done | done | done].
Defined.

(** C4, as stated, fails: on a site with a page whose template does not
    render, the first build returns with that one error and records the other
    page only; the second build, without [--force] and with nothing changed,
    renders the failing page again and counts it as a create. *)
Lemma failed_page_is_created_again :
  let env := example_env ["a.md"; "bad.md"] ["bad.md"] 8 in
  let options := mkOptions false None in
  let first := run (handle env options) (initial_world Command_class None) in
  let second := run (handle env options) first.1 in
  (∃ error, first.2 = Ok [error])
  ∧ (∃ error, second.2 = Ok [error])
  ∧ output_result_counts (self second.1) = mkCounts 1 0 1
  ∧ create_count (output_result_counts (self second.1)) ≠ 0.
Proof.
  vm_compute. split_and!; [by eexists|by eexists|done|done].
Qed.

(** ** The executor never holds more than one file *)

Lemma app_cons_not_nil' {A} (r1 r2 : list A) x : r1 ++ x :: r2 ≠ [].
Proof. by destruct r1. Qed.

Lemma app_cons_singleton {A} (r1 r2 : list A) x y :
  r1 ++ x :: r2 = [y] → r1 = [] ∧ r2 = [] ∧ x = y.
Proof. destruct r1 as [|z [|z' r1]]; intros H; by simplify_eq/=. Qed.

Lemma build_loop_snoc env pre path st :
  build_loop env (pre ++ [path]) st = file_step env (build_loop env pre st) path.
Proof. unfold build_loop. by rewrite foldl_app. Qed.

Lemma pool_inv_start env paths w : pool_inv env paths w (pool_start paths w).
Proof. by apply (inv_loop env paths w [] paths). Qed.

Lemma pool_inv_step_measure env max_workers paths w c c' :
  pool_inv env paths w c →
  pool_step env max_workers c c' →
  pool_inv env paths w c' ∧ S (pool_measure env c') = pool_measure env c.
Proof.
  intros Hinv Hstep.
  destruct Hinv as [pre todo d n w1 errs Hp Hl Hd
                   |pre path todo f d n w1 errs Hp Hl Hd Hf
                   |pre path todo f p d n w1 w2 errs Hp Hl Hr Hd Hf
                   |pre path todo f d n w1 w2 errs r Hp Hl Hr Hdf Hd
                   |d n w1 errs Hl
                   |d n w1 errs Hl];
    inversion Hstep; subst;
    try match goal with
        | H : _ ++ _ :: _ = [] |- _ => by apply app_cons_not_nil' in H
        | H : _ ++ _ :: _ = [_] |- _ =>
            apply app_cons_singleton in H as (-> & -> & ?); simplify_eq
        end.
  - (* loop: submit *)
    split; [|done].
    apply (inv_queued env _ w pre path todo0); auto with lia.
  - (* loop: exhausted *)
    split; [|done]. apply inv_shutdown. by rewrite app_nil_r.
  - (* queued: taken by a worker *)
    split; [|done].
    by apply (inv_running env _ w pre path todo f _ d n w1 w1).
  - (* queued: wake is impossible *)
    match goal with H : _ !! _ = Some _ |- _ => rewrite Hd in H by lia; done end.
  - (* running: one more action *)
    match goal with H : _ = (_, Ok _) |- _ => rename H into Ha end.
    split.
    + apply (inv_running env _ w pre path todo f _ d n w1 w' errs); auto.
      rewrite <- Hr. simpl. by rewrite Ha.
    + unfold pool_measure. simpl. by rewrite Ha.
  - (* running: the action raises *)
    match goal with H : _ = (_, Raised _) |- _ => rename H into Ha end.
    split.
    + apply (inv_finished env _ w pre path todo f _ n w1 w' errs (Raised e)); auto.
      * rewrite <- Hr. simpl. by rewrite Ha.
      * by rewrite lookup_insert_eq.
      * intros g Hg. rewrite lookup_insert_ne by lia. apply Hd. lia.
    + unfold pool_measure. simpl. by rewrite Ha.
  - (* running: the body returns *)
    split; [|done].
    apply (inv_finished env _ w pre path todo f _ n w1 w2 errs (Ok tt)); auto.
    + by rewrite lookup_insert_eq.
    + intros g Hg. rewrite lookup_insert_ne by lia. apply Hd. lia.
  - (* running: wake is impossible *)
    match goal with H : _ !! _ = Some _ |- _ => rewrite Hd in H by lia; done end.
  - (* finished: the main thread wakes *)
    match goal with H : _ !! _ = Some _ |- _ => rewrite Hdf in H; injection H as <- end.
    split; [|done].
    apply (inv_loop env _ w (pre ++ [path]) todo); auto.
    + by rewrite <- app_assoc.
    + rewrite build_loop_snoc, Hl. unfold file_step. rewrite Hr. by destruct r as [[]|e].
  - (* shutdown *)
    split; [|done]. by apply inv_done.
Qed.

Lemma pool_inv_step env max_workers paths w c c' :
  pool_inv env paths w c →
  pool_step env max_workers c c' →
  pool_inv env paths w c'.
Proof. intros Hinv Hstep. by apply (pool_inv_step_measure env max_workers paths w c c'). Qed.

Lemma pool_inv_reachable env max_workers paths w c :
  rtc (pool_step env max_workers) (pool_start paths w) c →
  pool_inv env paths w c.
Proof.
  revert c. apply rtc_ind_r; [apply pool_inv_start|].
  intros c1 c2 _ Hstep Hinv. by eapply pool_inv_step.
Qed.

Lemma pool_inv_in_flight env paths w c :
  pool_inv env paths w c → (in_flight c ≤ 1)%nat.
Proof. destruct 1; unfold in_flight; simpl; lia. Qed.

Lemma pool_inv_done env paths w c :
  pool_inv env paths w c →
  pool_main c = MainDone →
  (pool_world c, pool_errors c) = build_loop env paths (w, []).
Proof. by destruct 1. Qed.

(** ** The executor always gets to the end *)

Lemma pool_progress env max_workers paths w c :
  (0 < max_workers)%nat →
  pool_inv env paths w c →
  pool_main c ≠ MainDone →
  ∃ c', pool_step env max_workers c c'.
Proof.
  intros Hn Hinv Hmain.
  destruct Hinv as [pre todo d n w1 errs Hp Hl Hd
                   |pre path todo f d n w1 errs Hp Hl Hd Hf
                   |pre path todo f p d n w1 w2 errs Hp Hl Hr Hd Hf
                   |pre path todo f d n w1 w2 errs r Hp Hl Hr Hdf Hd
                   |d n w1 errs Hl
                   |d n w1 errs Hl].
  - destruct todo as [|path todo]; eexists; constructor.
  - eexists. by constructor.
  - destruct p as [[]|A a k].
    + eexists. apply (step_return env max_workers _ _ [] []).
    + destruct (a w2) as [w' [x|e]] eqn:Ha; eexists.
      * by apply (step_action env max_workers _ _ [] [] f A a k _ _ _ _ w' x).
      * by apply (step_raise env max_workers _ _ [] [] f A a k _ _ _ _ w' e).
  - eexists. by apply step_wake.
  - eexists. constructor.
  - done.
Qed.

Lemma pool_steps_measure env max_workers paths w k c c' :
  pool_inv env paths w c →
  nsteps (pool_step env max_workers) k c c' →
  pool_inv env paths w c' ∧ (k + pool_measure env c')%nat = pool_measure env c.
Proof.
  intros Hinv Hsteps. induction Hsteps as [|k c1 c2 c3 Hstep _ IH]; [done|].
  destruct (pool_inv_step_measure env max_workers paths w c1 c2 Hinv Hstep)
    as [Hinv2 Hm].
  destruct (IH Hinv2) as [Hinv3 Hm3]. split; [done|]. lia.
Qed.

Lemma pool_completes env max_workers paths w c :
  (0 < max_workers)%nat →
  pool_inv env paths w c →
  ∃ c', rtc (pool_step env max_workers) c c' ∧ pool_main c' = MainDone.
Proof.
  intros Hn. remember (pool_measure env c) as k eqn:Hk. revert c Hk.
  induction k as [k IH] using lt_wf_ind. intros c Hk Hinv.
  assert (pool_main c = MainDone ∨ pool_main c ≠ MainDone) as [Hd|Hd]
    by (destruct (pool_main c); auto).
  { exists c. done. }
  destruct (pool_progress env max_workers paths w c Hn Hinv Hd) as [c1 Hstep].
  destruct (pool_inv_step_measure env max_workers paths w c c1 Hinv Hstep)
    as [Hinv1 Hm].
  destruct (IH (pool_measure env c1)) with (c := c1) as (c' & Hrtc & Hdone);
    [lia|done|done|].
  exists c'. split; [|done]. by eapply rtc_l.
Qed.

(** ** The order of the files does not matter to counters and manifest *)

Lemma run_output_markdown_file_self env path w :
  self (run (_output_markdown_file env path) w).1 = step_self env path (self w).
Proof.
  unfold step_self.
  destruct (manifest (self w)) as [m|] eqn:Hm.
  2:{ by rewrite run_output_markdown_file_unloaded. }
  destruct (run_output_markdown_file_cases env path w m Hm)
    as [(e & Hs & ->)|(t & h & Hs & [(o & Hd & ->)|[[Hd ->]|[Hd ->]]])];
    rewrite Hs; [done|..]; rewrite Hd; destruct w as [[f tc mo cs] outs file cl];
    simpl in Hm; subst mo; cbn [renders refreshes outcome].
  - unfold render_branch, rendered_ok.
    destruct (env_render_html env path); [|done].
    by destruct (env_write_text_error env _).
  - done.
  - done.
Qed.

Lemma build_loop_self env paths w errors :
  self (build_loop env paths (w, errors)).1
    = foldl (λ c path, step_self env path c) (self w) paths.
Proof.
  revert w errors. induction paths as [|path rest IH]; intros w errors; [done|].
  unfold build_loop. cbn [foldl].
  destruct (file_step env (w, errors) path) as [w0 errors0] eqn:Hstep.
  pose proof (file_step_world env w errors path) as Hw0.
  rewrite Hstep in Hw0. cbn [fst] in Hw0.
  fold (build_loop env rest (w0, errors0)). rewrite IH. f_equal.
  rewrite Hw0. apply run_output_markdown_file_self.
Qed.

Lemma bump_bump o1 o2 c : bump o1 (bump o2 c) = bump o2 (bump o1 c).
Proof. destruct c as [k u s], o1, o2; cbn; f_equal; lia. Qed.

Lemma step_self_commute env p q c :
  p ≠ q →
  step_self env p (step_self env q c) = step_self env q (step_self env p c).
Proof.
  intros Hne. unfold step_self. destruct c as [f tc [m|] cs]; [|done].
  cbn [manifest is_force threads_count output_result_counts].
  destruct (env_stat env p) as [[tp hp]|ep] eqn:Hp,
           (env_stat env q) as [[tq hq]|eq] eqn:Hq;
    cbn [manifest is_force threads_count output_result_counts];
    rewrite ?Hp, ?Hq; try done.
  set (ip := mkItem p tp hp). set (iq := mkItem q tq hq).
  assert (∀ b : bool, items (if b then Manifest_upsert iq m else m) !! p
                       = items m !! p) as Hlp.
  { intros []; [|done]. simpl. by rewrite lookup_insert_ne. }
  assert (∀ b : bool, items (if b then Manifest_upsert ip m else m) !! q
                       = items m !! q) as Hlq.
  { intros []; [|done]. simpl. by rewrite lookup_insert_ne. }
  rewrite Hlp, Hlq.
  set (dp := classify_spec f (items m !! p) ip).
  set (dq := classify_spec f (items m !! q) iq).
  rewrite bump_bump. f_equal. f_equal.
  destruct (if renders dp then rendered_ok env p else refreshes dp),
           (if renders dq then rendered_ok env q else refreshes dq); try done.
  unfold Manifest_upsert. simpl. f_equal. by apply insert_insert_ne.
Qed.

Lemma foldl_step_self_perm env paths paths' c :
  paths ≡ₚ paths' →
  foldl (λ c path, step_self env path c) c paths
    = foldl (λ c path, step_self env path c) c paths'.
Proof.
  intros Hperm. revert c.
  induction Hperm as [|x l l' _ IH|x y l|l1 l2 l3 _ IH1 _ IH2]; intros c.
  - done.
  - simpl. apply IH.
  - simpl. destruct (decide (x = y)) as [->|Hne]; [done|].
    by rewrite (step_self_commute env x y c).
  - by rewrite IH1.
Qed.

Lemma build_loop_perm env paths paths' w :
  paths ≡ₚ paths' →
  self (build_loop env paths (w, [])).1 = self (build_loop env paths' (w, [])).1.
Proof. intros Hperm. rewrite !build_loop_self. by apply foldl_step_self_perm. Qed.

Lemma step_self_threads env path n c :
  step_self env path (set_threads_count n c)
    = set_threads_count n (step_self env path c).
Proof.
  unfold step_self. destruct c as [f tc [m|] cs]; [|done].
  cbn [set_threads_count manifest is_force threads_count output_result_counts].
  by destruct (env_stat env path) as [[t h]|e].
Qed.

Lemma foldl_step_self_threads env paths n c :
  foldl (λ c path, step_self env path c) (set_threads_count n c) paths
    = set_threads_count n (foldl (λ c path, step_self env path c) c paths).
Proof.
  revert c. induction paths as [|path rest IH]; intros c; [done|].
  simpl. by rewrite step_self_threads, IH.
Qed.

(** What a build leaves in the counters, the manifest and the manifest file
    does not depend on the thread count it resolved. *)
Lemma handle_result_threads env options options' w :
  opt_force options' = opt_force options →
  (0 < resolved_threads env options (threads_count (self w)) ↔
   0 < resolved_threads env options' (threads_count (self w))) →
  let r := run (handle env options) w in
  let r' := run (handle env options') w in
  output_result_counts (self r.1) = output_result_counts (self r'.1)
  ∧ manifest (self r.1) = manifest (self r'.1)
  ∧ manifest_file r.1 = manifest_file r'.1.
Proof.
  intros Hforce Hthreads r r'. subst r r'.
  destruct (env_collectstatic env) as [s|e] eqn:Hc.
  2:{ destruct (handle_aborted env options w) as (_ & -> & -> & -> & _);
        [left; eauto|].
      destruct (handle_aborted env options' w) as (_ & -> & -> & -> & _);
        [left; eauto|]. done. }
  destruct (decide (0 < resolved_threads env options (threads_count (self w))))
    as [Ht|Ht].
  2:{ destruct (handle_aborted env options w) as (_ & -> & -> & -> & _);
        [right; lia|].
      destruct (handle_aborted env options' w) as (_ & -> & -> & -> & _);
        [right; apply Z.nlt_ge; rewrite <- Hthreads; lia|]. done. }
  destruct (handle_run env options w s Hc Ht) as (w1 & errs & m & Hloop & Hm & ->).
  destruct (handle_run env options' w s Hc) as (w1' & errs' & m' & Hloop' & Hm' & ->);
    [by apply Hthreads|].
  pose proof (build_loop_self env (env_content_paths env)
                (loop_entry env options s w) []) as Hs.
  pose proof (build_loop_self env (env_content_paths env)
                (loop_entry env options' s w) []) as Hs'.
  rewrite Hloop in Hs. rewrite Hloop' in Hs'. cbn [fst] in Hs, Hs'.
  destruct (build_loop_frame env (env_content_paths env)
              (loop_entry env options s w) [] _ eq_refl) as (_ & _ & Hf & _).
  destruct (build_loop_frame env (env_content_paths env)
              (loop_entry env options' s w) [] _ eq_refl) as (_ & _ & Hf' & _).
  rewrite Hloop in Hf. rewrite Hloop' in Hf'. cbn [fst] in Hf, Hf'.
  unfold loop_entry, effective_force in Hs, Hs', Hf, Hf'.
  cbn [self manifest_file] in Hs, Hs', Hf, Hf'. rewrite Hforce in Hs'.
  set (c0 := mkCommand (opt_force options || env_static_set_changed env) 0
               (Some (Manifest_load env (manifest_file w))) (mkCounts 0 0 0)) in *.
  change (mkCommand (opt_force options || env_static_set_changed env)
            (resolved_threads env options (threads_count (self w)))
            (Some (Manifest_load env (manifest_file w))) (mkCounts 0 0 0))
    with (set_threads_count
            (resolved_threads env options (threads_count (self w))) c0) in Hs.
  change (mkCommand (opt_force options || env_static_set_changed env)
            (resolved_threads env options' (threads_count (self w)))
            (Some (Manifest_load env (manifest_file w))) (mkCounts 0 0 0))
    with (set_threads_count
            (resolved_threads env options' (threads_count (self w))) c0) in Hs'.
  rewrite foldl_step_self_threads in Hs, Hs'.
  destruct w1 as [c1 o1 f1 l1], w1' as [c1' o1' f1' l1'].
  cbn [self manifest_file] in *. subst f1 f1'.
  assert (m' = m) as ->.
  { rewrite Hs in Hm. rewrite Hs' in Hm'.
    destruct (foldl _ c0 _); cbn in Hm, Hm'. congruence. }
  unfold loop_exit. cbn [self manifest_file]. rewrite Hs, Hs'.
  by destruct (foldl _ c0 _).
Qed.

(** C9. Whatever the number of workers, the executor of [handle] holds at
    most one file at any time — queued or being processed — because the main
    thread waits on each future before it submits the next path; every state
    that is not the end can take a step, no execution is longer than the
    steps the sequential pass needs, an execution to the end exists, and at
    the end the world and the collected errors are exactly what the loop of
    [handle] gives when it processes the paths one after the other in
    discovery order. *)
Theorem pool_is_sequential env max_workers paths w :
  (0 < max_workers)%nat →
  (∀ c, rtc (pool_step env max_workers) (pool_start paths w) c →
     (in_flight c ≤ 1)%nat
     ∧ (pool_main c = MainDone →
          run (create_html_files env paths [] None) w
            = (pool_world c, Ok (pool_errors c, last (pool_errors c))))
     ∧ (pool_main c ≠ MainDone → ∃ c', pool_step env max_workers c c'))
  ∧ (∀ k c, nsteps (pool_step env max_workers) k (pool_start paths w) c →
       (k ≤ remaining_steps env paths w)%nat)
  ∧ ∃ c, rtc (pool_step env max_workers) (pool_start paths w) c
         ∧ pool_main c = MainDone.
Proof.
  intros Hn. split_and!.
  - intros c Hrtc.
    pose proof (pool_inv_reachable env max_workers paths w c Hrtc) as Hinv.
    split_and!.
    + by eapply pool_inv_in_flight.
    + intros Hdone.
      pose proof (pool_inv_done env paths w c Hinv Hdone) as Hres.
      pose proof (run_create_html_files env paths w []) as Hrun.
      simpl last in Hrun. rewrite Hrun, <- Hres. done.
    + by apply (pool_progress env max_workers paths w).
  - intros k c Hsteps.
    destruct (pool_steps_measure env max_workers paths w k _ c
                (pool_inv_start env paths w) Hsteps) as [_ Hm].
    change (pool_measure env (pool_start paths w))
      with (remaining_steps env paths w) in Hm. lia.
  - apply (pool_completes env max_workers paths w); [done|apply pool_inv_start].
Qed.

(** C8. With one worker or with eight, every execution of the pool over the
    same files from the same world ends in the same world and with the same
    errors, so the counters and the manifest agree; a build resolves
    [--threads 1] and [--threads 8] to the same counters, manifest and
    manifest file; and processing the files in any other order leaves the
    same counters and the same manifest. *)
Theorem thread_count_does_not_change_result env paths w :
  (∀ c1 c8,
     rtc (pool_step env 1) (pool_start paths w) c1 → pool_main c1 = MainDone →
     rtc (pool_step env 8) (pool_start paths w) c8 → pool_main c8 = MainDone →
     pool_world c1 = pool_world c8 ∧ pool_errors c1 = pool_errors c8)
  ∧ (∀ force,
       let r1 := run (handle env (mkOptions force (Some "1"))) w in
       let r8 := run (handle env (mkOptions force (Some "8"))) w in
       output_result_counts (self r1.1) = output_result_counts (self r8.1)
       ∧ manifest (self r1.1) = manifest (self r8.1)
       ∧ manifest_file r1.1 = manifest_file r8.1)
  ∧ (∀ n paths' c c',
       paths ≡ₚ paths' →
       rtc (pool_step env n) (pool_start paths w) c → pool_main c = MainDone →
       rtc (pool_step env n) (pool_start paths' w) c' → pool_main c' = MainDone →
       output_result_counts (self (pool_world c))
         = output_result_counts (self (pool_world c'))
       ∧ manifest (self (pool_world c)) = manifest (self (pool_world c'))).
Proof.
  split_and!.
  - intros c1 c8 H1 D1 H8 D8.
    pose proof (pool_inv_done env paths w c1
                  (pool_inv_reachable env 1 paths w c1 H1) D1) as E1.
    pose proof (pool_inv_done env paths w c8
                  (pool_inv_reachable env 8 paths w c8 H8) D8) as E8.
    rewrite <- E8 in E1. by injection E1.
  - intros force. by apply handle_result_threads.
  - intros n paths' c c' Hperm H D H' D'.
    pose proof (pool_inv_done env paths w c
                  (pool_inv_reachable env n paths w c H) D) as E.
    pose proof (pool_inv_done env paths' w c'
                  (pool_inv_reachable env n paths' w c' H') D') as E'.
    pose proof (build_loop_perm env paths paths' w Hperm) as Hself.
    rewrite <- E, <- E' in Hself. cbn [fst] in Hself. by rewrite Hself.
Qed.

(** The executor gets through a two-file site with two workers. *)
Lemma pool_is_sequential_witness :
  let env := example_env ["a.md"; "b.md"] [] 8 in
  ∃ c, rtc (pool_step env 2) (pool_start ["a.md"; "b.md"] example_world) c
       ∧ pool_main c = MainDone.
Proof.
  intros env.
  exact (proj2 (proj2 (pool_is_sequential env 2 ["a.md"; "b.md"] example_world
                         ltac:(lia)))).
Defined.

(* One step of the pool from a state in which at most one body runs. *)
Ltac pool_step_tac :=
  first
    [ apply step_submit
    | apply step_exhausted
    | apply step_shutdown
    | apply step_take; simpl; lia
    | apply (step_return _ _ _ _ [] [])
    | eapply (step_action _ _ _ _ [] []); reflexivity
    | eapply (step_raise _ _ _ _ [] []); reflexivity
    | eapply step_wake; reflexivity ].

Ltac pool_run := repeat (eapply rtc_l; [pool_step_tac|]); apply rtc_refl.

(** One worker and eight workers, and the paths in discovery order and in
    the reverse order, on a site with a skipped page, a page that fails to
    render, an updated page and a new page: the executions end with the same
    counters and the same manifest, although the calls they made differ. *)
Lemma thread_count_does_not_change_result_witness :
  let paths := ["a.md"; "b.md"; "c.md"; "d.md"] in
  let paths' := ["d.md"; "c.md"; "b.md"; "a.md"] in
  let env := example_env paths ["b.md"] 8 in
  let records : gmap string ManifestItem :=
    {["a.md" := mkItem "a.md" 100 "md5-a.md"; "c.md" := mkItem "c.md" 50 "md5-old"]} in
  let w := mkWorld (mkCommand false 2 (Some (mkManifest records false false))
                      (mkCounts 0 0 0)) ∅ (Some records) [] in
  ∃ c1 c8 c8',
    (rtc (pool_step env 1) (pool_start paths w) c1 ∧ pool_main c1 = MainDone)
    ∧ (rtc (pool_step env 8) (pool_start paths w) c8 ∧ pool_main c8 = MainDone)
    ∧ (rtc (pool_step env 8) (pool_start paths' w) c8' ∧ pool_main c8' = MainDone)
    ∧ pool_world c1 = pool_world c8
    ∧ pool_errors c1 = pool_errors c8
    ∧ output_result_counts (self (pool_world c8))
      = output_result_counts (self (pool_world c8'))
    ∧ manifest (self (pool_world c8)) = manifest (self (pool_world c8'))
    ∧ output_result_counts (self (pool_world c1)) = mkCounts 2 1 1
    ∧ calls (pool_world c8) ≠ calls (pool_world c8')
    ∧ output_result_counts
        (self (run (handle env (mkOptions false (Some "1"))) w).1)
      = output_result_counts
          (self (run (handle env (mkOptions false (Some "8"))) w).1).
Proof.
  intros paths paths' env records w.
  destruct (pool_completes env 1 paths w _ ltac:(lia) (pool_inv_start env paths w))
    as (c1 & H1 & D1).
  destruct (pool_completes env 8 paths w _ ltac:(lia) (pool_inv_start env paths w))
    as (c8 & H8 & D8).
  destruct (pool_completes env 8 paths' w _ ltac:(lia) (pool_inv_start env paths' w))
    as (c8' & H8' & D8').
  destruct (thread_count_does_not_change_result env paths w) as (T1 & T2 & T3).
  destruct (T1 c1 c8 H1 D1 H8 D8) as [Ew Ee].
  destruct (T3 8%nat paths' c8 c8' (Permutation_rev paths) H8 D8 H8' D8')
    as [Ec Em].
  destruct (T2 false) as (Eh & _).
  pose proof (pool_inv_done env paths w c8
                (pool_inv_reachable env 8 paths w c8 H8) D8) as E8.
  pose proof (pool_inv_done env paths' w c8'
                (pool_inv_reachable env 8 paths' w c8' H8') D8') as E8'.
  exists c1, c8, c8'. split_and!; try done.
  - rewrite Ew. apply (f_equal fst) in E8. cbn [fst] in E8. rewrite E8.
    vm_compute. reflexivity.
  - apply (f_equal fst) in E8, E8'. cbn [fst] in E8, E8'. rewrite E8, E8'.
    vm_compute. discriminate.
Defined.


(** * [dict_merge] *)

Lemma pyval_ind' (P : pyval → Prop) :
  (∀ v, P (PLeaf v)) →
  (∀ d, Forall (λ kv, P kv.2) d → P (PDict d)) →
  ∀ v, P v.
Proof.
  intros Hleaf Hdict.
  refine (fix F (v : pyval) : P v :=
            match v with
            | PLeaf s => Hleaf s
            | PDict d =>
                Hdict d
                  ((fix G (d : pydict) : Forall (λ kv, P kv.2) d :=
                      match d with
                      | [] => @List.Forall_nil _ _
                      | (k, v') :: rest => @List.Forall_cons _ (λ kv, P kv.2) (k, v') rest (F v') (G rest)
                      end) d)
            end).
Qed.

Lemma dict_get_None key d : dict_get key d = None ↔ key ∉ dict_keys d.
Proof.
  unfold dict_keys. induction d as [|[k v] d IH]; simpl.
  - split; [intros _; apply not_elem_of_nil | done].
  - rewrite not_elem_of_cons. case_bool_decide as Hk.
    + split; [done|]. intros [Hne _]. by subst.
    + rewrite IH. split; [intros Hn; split; [by intros ->|done] | by intros [_ ?]].
Qed.

Lemma dict_get_Some_keys key d v : dict_get key d = Some v → key ∈ dict_keys d.
Proof.
  intros Hget. destruct (decide (key ∈ dict_keys d)) as [|Hn]; [done|].
  apply dict_get_None in Hn. congruence.
Qed.

Lemma dict_get_set_eq key v d : dict_get key (dict_set key v d) = Some v.
Proof.
  induction d as [|[k v'] d IH]; simpl.
  - by rewrite bool_decide_eq_true_2.
  - case_bool_decide as Hk; simpl.
    + by rewrite bool_decide_eq_true_2.
    + by rewrite bool_decide_eq_false_2.
Qed.

Lemma dict_get_set_ne key key' v d :
  key ≠ key' → dict_get key' (dict_set key v d) = dict_get key' d.
Proof.
  intros Hne. induction d as [|[k v'] d IH]; simpl.
  - by rewrite bool_decide_eq_false_2.
  - case_bool_decide as Hk; simpl.
    + subst k. by rewrite !bool_decide_eq_false_2.
    + by rewrite IH.
Qed.

Lemma dict_keys_set_present key v d :
  key ∈ dict_keys d → dict_keys (dict_set key v d) = dict_keys d.
Proof.
  unfold dict_keys. induction d as [|[k v'] d IH]; simpl.
  - intros H. by apply not_elem_of_nil in H.
  - intros Hin. case_bool_decide as Hk; [done|]. simpl. f_equal. apply IH.
    apply elem_of_cons in Hin as [?|?]; [congruence|done].
Qed.

Lemma dict_keys_set_absent key v d :
  key ∉ dict_keys d → dict_keys (dict_set key v d) = dict_keys d ++ [key].
Proof.
  unfold dict_keys. induction d as [|[k v'] d IH]; simpl; [done|].
  intros Hnin. apply not_elem_of_cons in Hnin as [Hne Hnin].
  rewrite bool_decide_eq_false_2 by done. simpl. f_equal. by apply IH.
Qed.

Lemma dict_set_absent key v d :
  key ∉ dict_keys d → dict_set key v d = d ++ [(key, v)].
Proof.
  unfold dict_keys. induction d as [|[k v'] d IH]; simpl; [done|].
  intros Hnin. apply not_elem_of_cons in Hnin as [Hne Hnin].
  rewrite bool_decide_eq_false_2 by done. f_equal. by apply IH.
Qed.

Lemma dict_set_same key v d : dict_get key d = Some v → dict_set key v d = d.
Proof.
  induction d as [|[k v'] d IH]; simpl; [done|].
  case_bool_decide as Hk; [by intros [= ->]|]. intros Hget. f_equal. by apply IH.
Qed.

(** ** With [destination_overrides_source] nothing is ever raised *)

Lemma dict_merge_loop_override rec path entries source :
  Forall (λ kv, ∀ sd p, (rec kv.2 sd p).2 = Ok tt) entries →
  (dict_merge_loop rec true path entries source).2 = Ok tt.
Proof.
  intros Hrec. revert source.
  induction Hrec as [|[key dv] rest Hdv _ IH]; intros source; [done|].
  simpl in *. destruct (dict_get key source) as [sv|]; [|apply IH].
  destruct (is_dict sv && is_dict dv).
  - destruct sv as [|sd]; [apply IH|].
    specialize (Hdv sd (path ++ [key])).
    destruct (rec dv sd (path ++ [key])) as [sd' [[]|e]]; [apply IH|done].
  - destruct (leaf_eqb sv dv); apply IH.
Qed.

Lemma dict_merge_into_override destination source path :
  (dict_merge_into destination source true path).2 = Ok tt.
Proof.
  revert source path.
  induction destination as [v|entries IH] using pyval_ind'; intros source path;
    [done|].
  simpl. apply dict_merge_loop_override.
  eapply Forall_impl; [exact IH|]. intros [k v] Hv sd p. apply Hv.
Qed.

(** X1. [destination_overrides_source=True] never raises. *)
Theorem dict_merge_override_never_raises source destination path :
  (dict_merge source destination true path).2 = Ok tt.
Proof. apply dict_merge_into_override. Qed.

(** ** Keys that are new to the source *)

Lemma dict_merge_loop_disjoint rec flag path entries source :
  NoDup (dict_keys entries) →
  (∀ k, k ∈ dict_keys entries → k ∉ dict_keys source) →
  dict_merge_loop rec flag path entries source = (source ++ entries, Ok tt).
Proof.
  revert source. induction entries as [|[key dv] rest IH]; intros source Hnd Hdisj.
  { simpl. by rewrite app_nil_r. }
  unfold dict_keys in *. simpl in *. apply NoDup_cons in Hnd as [Hk Hnd].
  assert (key ∉ source.*1) as Hnew by (apply Hdisj; apply list_elem_of_here).
  rewrite (proj2 (dict_get_None key source) Hnew).
  rewrite (dict_set_absent key dv source Hnew).
  rewrite IH; [by rewrite <- app_assoc|done|].
  intros k Hin. rewrite fmap_app. simpl. rewrite elem_of_app, list_elem_of_singleton.
  intros [Hs| ->]; [|done].
  by apply (Hdisj k); [apply list_elem_of_further|].
Qed.

(** X2. a destination whose keys are all new to the source is appended to it,
    entry by entry and in the destination's order, whatever the flag; in
    particular merging into the empty dictionary gives the destination. *)
Theorem dict_merge_disjoint_appends source destination flag path :
  NoDup (dict_keys destination) →
  (∀ k, k ∈ dict_keys destination → k ∉ dict_keys source) →
  dict_merge source destination flag path = (source ++ destination, Ok tt).
Proof. intros Hnd Hdisj. by apply dict_merge_loop_disjoint. Qed.

Lemma dict_merge_disjoint_appends_witness :
  dict_merge [("a", PLeaf "1")]
    [("b", PDict [("x", PLeaf "2")]); ("c", PLeaf "3")] false []
  = ([("a", PLeaf "1"); ("b", PDict [("x", PLeaf "2")]); ("c", PLeaf "3")], Ok tt).
Proof.
  apply (dict_merge_disjoint_appends [("a", PLeaf "1")]).
  - apply NoDup_ListNoDup. repeat constructor; simpl; intuition congruence.
  - intros k Hk Hs. apply list_elem_of_singleton in Hs as ->.
    apply elem_of_cons in Hk as [Hk|Hk]; [discriminate|].
    apply list_elem_of_singleton in Hk. discriminate.
Defined.

(** ** A merge that succeeds without the flag is the merge with the flag *)

Lemma dict_merge_loop_agree rec_f rec_t path path' entries source s' :
  Forall (λ kv, ∀ sd p sd' p',
            rec_f kv.2 sd p = (sd', Ok tt) → rec_t kv.2 sd p' = (sd', Ok tt))
         entries →
  dict_merge_loop rec_f false path entries source = (s', Ok tt) →
  dict_merge_loop rec_t true path' entries source = (s', Ok tt).
Proof.
  intros Hrec. revert source.
  induction Hrec as [|[key dv] rest Hdv _ IH]; intros source; [done|].
  simpl in *. destruct (dict_get key source) as [sv|]; [|apply IH].
  destruct (is_dict sv && is_dict dv).
  - destruct sv as [|sd]; [apply IH|].
    destruct (rec_f dv sd (path ++ [key])) as [sd' [[]|e]] eqn:Hf; [|done].
    rewrite (Hdv sd _ sd' (path' ++ [key]) Hf). apply IH.
  - destruct (leaf_eqb sv dv); [apply IH|done].
Qed.

Lemma dict_merge_into_agree destination source path path' s' :
  dict_merge_into destination source false path = (s', Ok tt) →
  dict_merge_into destination source true path' = (s', Ok tt).
Proof.
  revert source path path' s'.
  induction destination as [v|entries IH] using pyval_ind';
    intros source path path' s'; [done|].
  simpl. apply dict_merge_loop_agree.
  eapply Forall_impl; [exact IH|]. intros [k v] Hv sd p sd' p'. apply Hv.
Qed.

(** X3. if the merge returns without [destination_overrides_source], then with
    the flag it returns the same dictionary; the flag only matters where a
    conflict would be raised, and the path argument only for the message. *)
Theorem dict_merge_flag_only_matters_on_conflict source destination path path' s' :
  dict_merge source destination false path = (s', Ok tt) →
  dict_merge source destination true path' = (s', Ok tt).
Proof. apply dict_merge_into_agree. Qed.

Lemma dict_merge_flag_only_matters_on_conflict_witness :
  dict_merge [("a", PLeaf "1"); ("b", PDict [("x", PLeaf "1")])]
    [("b", PDict [("y", PLeaf "2")]); ("a", PLeaf "1")] true ["root"]
  = ([("a", PLeaf "1"); ("b", PDict [("x", PLeaf "1"); ("y", PLeaf "2")])], Ok tt).
Proof.
  apply (dict_merge_flag_only_matters_on_conflict _ _ []). reflexivity.
Defined.

(** ** Keys after a merge *)

Lemma dict_keys_set key v d :
  ∃ extra, dict_keys (dict_set key v d) = dict_keys d ++ extra.
Proof.
  destruct (decide (key ∈ dict_keys d)) as [Hin|Hnin].
  - exists []. by rewrite dict_keys_set_present, app_nil_r.
  - exists [key]. by rewrite dict_keys_set_absent.
Qed.

Lemma dict_merge_loop_keeps_keys rec flag path entries source :
  ∃ extra,
    dict_keys (dict_merge_loop rec flag path entries source).1
    = dict_keys source ++ extra.
Proof.
  revert source. induction entries as [|[k dv] rest IH]; intros source.
  { exists []. simpl. by rewrite app_nil_r. }
  assert (∀ x, ∃ extra,
            dict_keys (dict_merge_loop rec flag path rest (dict_set k x source)).1
            = dict_keys source ++ extra) as Hset.
  { intros x. destruct (IH (dict_set k x source)) as [extra ->].
    destruct (dict_keys_set k x source) as [extra0 ->].
    exists (extra0 ++ extra). by rewrite app_assoc. }
  simpl. destruct (dict_get k source) as [sv|]; [|by apply Hset].
  destruct (is_dict sv && is_dict dv).
  - destruct sv as [|sd]; [by apply IH|].
    destruct (rec dv sd (path ++ [k])) as [sd' [[]|e]]; [by apply Hset|].
    apply dict_keys_set.
  - destruct (leaf_eqb sv dv); [by apply IH|].
    destruct flag; [by apply Hset|].
    exists []. simpl. by rewrite app_nil_r.
Qed.

(** X4. whether the merge returns or raises, the source keeps every key it
    had, in the order it had them: keys are only ever added behind them. *)
Theorem dict_merge_never_removes_keys source destination flag path :
  ∃ extra,
    dict_keys (dict_merge source destination flag path).1
    = dict_keys source ++ extra.
Proof. apply dict_merge_loop_keeps_keys. Qed.

Lemma filter_ext_in {A} (P1 P2 : A → Prop)
    `{!∀ x, base.Decision (P1 x), !∀ x, base.Decision (P2 x)} (l : list A) :
  (∀ x, x ∈ l → P1 x ↔ P2 x) → filter P1 l = filter P2 l.
Proof.
  induction l as [|x l IH]; intros Hiff; [done|].
  assert (P1 x ↔ P2 x) as Hx by (apply Hiff, list_elem_of_here).
  assert (filter P1 l = filter P2 l) as Hl.
  { apply IH. intros y Hy. by apply Hiff, list_elem_of_further. }
  destruct (decide (P1 x)) as [H1|H1].
  - rewrite !filter_cons_True by tauto. by f_equal.
  - rewrite !filter_cons_False by tauto. done.
Qed.

Lemma dict_merge_loop_keys rec flag path entries source s' :
  NoDup (dict_keys entries) →
  dict_merge_loop rec flag path entries source = (s', Ok tt) →
  dict_keys s'
    = dict_keys source ++ filter (λ k, k ∉ dict_keys source) (dict_keys entries).
Proof.
  revert source. unfold dict_keys.
  induction entries as [|[k dv] rest IH]; intros source Hnd Hloop.
  { simpl in *. injection Hloop as <-. by rewrite app_nil_r. }
  simpl in Hnd. apply NoDup_cons in Hnd as [Hk Hnd].
  assert (∀ v, k ∈ source.*1 →
            dict_merge_loop rec flag path rest (dict_set k v source) = (s', Ok tt) →
            s'.*1 = source.*1 ++ filter (λ k0, k0 ∉ source.*1) ((k, dv) :: rest).*1)
    as Hpresent.
  { intros v Hin Hl. apply IH in Hl; [|done].
    pose proof (dict_keys_set_present k v source Hin) as E.
    unfold dict_keys in E. rewrite E in Hl.
    simpl. by rewrite filter_cons_False by (by intros ?). }
  simpl in Hloop. destruct (dict_get k source) as [sv|] eqn:Hget.
  - pose proof (dict_get_Some_keys k source sv Hget) as Hin.
    assert (dict_merge_loop rec flag path rest source = (s', Ok tt) →
            s'.*1 = source.*1 ++ filter (λ k0, k0 ∉ source.*1) ((k, dv) :: rest).*1)
      as Hsame.
    { intros Hl. apply IH in Hl; [|done].
      simpl. by rewrite filter_cons_False by (by intros ?). }
    destruct (is_dict sv && is_dict dv).
    + destruct sv as [|sd]; [by apply Hsame|].
      destruct (rec dv sd (path ++ [k])) as [sd' [[]|e]]; [|done].
      by apply (Hpresent (PDict sd')).
    + destruct (leaf_eqb sv dv); [by apply Hsame|].
      destruct flag; [|done]. by apply (Hpresent dv).
  - apply dict_get_None in Hget. apply IH in Hloop; [|done].
    pose proof (dict_keys_set_absent k dv source Hget) as E.
    unfold dict_keys in E. rewrite E in Hloop.
    rewrite Hloop. simpl. rewrite filter_cons_True by done.
    rewrite <- app_assoc. simpl. do 2 f_equal.
    apply filter_ext_in. intros x Hx.
    rewrite elem_of_app, list_elem_of_singleton.
    split; [tauto|]. intros Hn [?| ->]; [done|]. apply Hk, Hx.
Qed.

(** X5. when the merge returns, the keys of the result are the keys of the
    source, in their order, followed by the keys only the destination has, in
    the destination's order. *)
Theorem dict_merge_keys source destination flag path s' :
  NoDup (dict_keys destination) →
  dict_merge source destination flag path = (s', Ok tt) →
  dict_keys s'
    = dict_keys source
      ++ filter (λ k, k ∉ dict_keys source) (dict_keys destination).
Proof. apply dict_merge_loop_keys. Qed.

Lemma dict_merge_keys_witness :
  dict_keys (dict_merge [("a", PLeaf "1"); ("b", PLeaf "2")]
               [("c", PLeaf "3"); ("b", PLeaf "2")] false []).1
  = ["a"; "b"; "c"].
Proof.
  apply (dict_merge_keys [("a", PLeaf "1"); ("b", PLeaf "2")]
           [("c", PLeaf "3"); ("b", PLeaf "2")] false []).
  - apply NoDup_ListNoDup. repeat constructor; simpl; intuition congruence.
  - reflexivity.
Defined.

(** ** Merging a dictionary with itself *)

Lemma wf_pyval_dict d :
  wf_pyval (PDict d) ↔ NoDup (dict_keys d) ∧ Forall (λ kv, wf_pyval kv.2) d.
Proof.
  simpl. split; intros [Hnd Hall]; (split; [done|]); clear Hnd.
  - induction d as [|[k v] d IH]; [done|]. destruct Hall as [Hv Hall].
    constructor; [done|by apply IH].
  - induction Hall as [|[k v] d Hv _ IH]; [done|]. done.
Qed.

Lemma dict_get_middle pre key v rest :
  key ∉ dict_keys pre → dict_get key (pre ++ (key, v) :: rest) = Some v.
Proof.
  unfold dict_keys. induction pre as [|[k v'] pre IH]; simpl.
  - intros _. by rewrite bool_decide_eq_true_2.
  - intros [Hne Hn]%not_elem_of_cons. rewrite bool_decide_eq_false_2 by done.
    by apply IH.
Qed.

Lemma leaf_eqb_refl v : is_dict v = false → leaf_eqb v v = true.
Proof. destruct v; [|done]. intros _. simpl. by rewrite bool_decide_eq_true_2. Qed.

Lemma dict_merge_loop_self rec flag path pre entries :
  NoDup (dict_keys (pre ++ entries)) →
  Forall (λ kv, ∀ sd p, kv.2 = PDict sd → rec (PDict sd) sd p = (sd, Ok tt))
         entries →
  dict_merge_loop rec flag path entries (pre ++ entries) = (pre ++ entries, Ok tt).
Proof.
  intros Hnd Hrec. revert pre Hnd.
  induction Hrec as [|[key dv] rest Hdv _ IH]; intros pre Hnd; [done|].
  assert (key ∉ dict_keys pre) as Hpre.
  { unfold dict_keys in *. rewrite fmap_app in Hnd.
    apply NoDup_app in Hnd as (_ & Hdisj & _).
    intros Hin. apply (Hdisj key Hin). simpl. apply list_elem_of_here. }
  assert (dict_merge_loop rec flag path rest (pre ++ (key, dv) :: rest)
          = (pre ++ (key, dv) :: rest, Ok tt)) as Hrest.
  { specialize (IH (pre ++ [(key, dv)])). rewrite <- app_assoc in IH.
    by apply IH. }
  simpl. rewrite (dict_get_middle pre key dv rest Hpre).
  destruct dv as [a|sd]; simpl.
  - by rewrite bool_decide_eq_true_2.
  - rewrite (Hdv sd (path ++ [key]) eq_refl).
    rewrite dict_set_same by (by apply dict_get_middle). done.
Qed.

Lemma dict_merge_into_self v flag path :
  wf_pyval v →
  ∀ d, v = PDict d → dict_merge_into v d flag path = (d, Ok tt).
Proof.
  revert path. induction v as [a|entries IH] using pyval_ind';
    intros path Hwf d [= <-].
  apply wf_pyval_dict in Hwf as [Hnd Hall]. simpl.
  apply (dict_merge_loop_self _ flag path []); [done|].
  apply Forall_forall. intros [k v] Hin sd p Hv. simpl in Hv. subst v.
  rewrite Forall_forall in IH, Hall.
  by apply (IH (k, PDict sd) Hin p (Hall _ Hin)).
Qed.

(** X6. merging a dictionary of strings and nested dictionaries with an
    equal dictionary returns it unchanged and raises nothing, with or
    without the flag. *)
Theorem dict_merge_self d flag path :
  wf_pyval (PDict d) →
  dict_merge d d flag path = (d, Ok tt).
Proof. intros Hwf. by apply dict_merge_into_self. Qed.

Lemma dict_merge_self_witness :
  let d := [("a", PLeaf "1"); ("b", PDict [("x", PLeaf "1"); ("y", PLeaf "2")])] in
  dict_merge d d false [] = (d, Ok tt).
Proof.
  intros d. apply dict_merge_self.
  simpl. split_and!; try exact I;
    apply NoDup_ListNoDup; repeat constructor; simpl; intuition congruence.
Defined.

(** ** Where a conflict is reported *)

Lemma leaf_eqb_false_ne sv dv : leaf_eqb sv dv = false → is_dict sv && is_dict dv = false → sv ≠ dv.
Proof.
  destruct sv as [a|sd], dv as [b|dd]; simpl; try done.
  intros Hne _ [= ->]. by rewrite bool_decide_eq_true_2 in Hne.
Qed.

Lemma dict_merge_loop_raises rec path entries source s' e :
  NoDup (dict_keys entries) →
  dict_merge_loop rec false path entries source = (s', Raised e) →
  ∃ key dv sv,
    dict_get key entries = Some dv ∧ dict_get key source = Some sv ∧
    ((is_dict sv && is_dict dv = false ∧ sv ≠ dv
      ∧ e = mkExc "Exception" (conflict_message path key))
     ∨ (∃ sd sd', sv = PDict sd ∧ rec dv sd (path ++ [key]) = (sd', Raised e))).
Proof.
  revert source. unfold dict_keys.
  induction entries as [|[k dv] rest IH]; intros source Hnd Hloop; [done|].
  simpl in Hnd. apply NoDup_cons in Hnd as [Hk Hnd].
  assert (∀ source0,
    (∀ key, key ≠ k → dict_get key source0 = dict_get key source) →
    dict_merge_loop rec false path rest source0 = (s', Raised e) →
    ∃ key dv0 sv,
      dict_get key ((k, dv) :: rest) = Some dv0 ∧ dict_get key source = Some sv ∧
      ((is_dict sv && is_dict dv0 = false ∧ sv ≠ dv0
        ∧ e = mkExc "Exception" (conflict_message path key))
       ∨ (∃ sd sd', sv = PDict sd
                    ∧ rec dv0 sd (path ++ [key]) = (sd', Raised e)))) as Hnext.
  { intros source0 Hsame Hrest.
    destruct (IH source0 Hnd Hrest) as (key & dv0 & sv & Hd & Hs & Hcase).
    assert (key ≠ k) as Hne.
    { intros ->. apply Hk. by eapply dict_get_Some_keys. }
    exists key, dv0, sv. split_and!; [|by rewrite <- Hsame|done].
    simpl. by rewrite bool_decide_eq_false_2. }
  simpl in Hloop. destruct (dict_get k source) as [sv|] eqn:Hks.
  - destruct (is_dict sv && is_dict dv) eqn:Hdict.
    + destruct sv as [|sd]; [done|].
      destruct (rec dv sd (path ++ [k])) as [sd' [[]|e']] eqn:Hrec.
      * apply (Hnext _ (λ key Hne, dict_get_set_ne k key _ source
                                     (not_eq_sym Hne)) Hloop).
      * injection Hloop as <- <-. exists k, dv, (PDict sd). split_and!.
        -- simpl. by rewrite bool_decide_eq_true_2.
        -- done.
        -- right. by exists sd, sd'.
    + destruct (leaf_eqb sv dv) eqn:Hleaf; [by apply (Hnext source)|].
      injection Hloop as <- <-. exists k, dv, sv. split_and!.
      * simpl. by rewrite bool_decide_eq_true_2.
      * done.
      * left. split_and!; [done|by apply leaf_eqb_false_ne|done].
  - apply (Hnext _ (λ key Hne, dict_get_set_ne k key _ source
                                 (not_eq_sym Hne)) Hloop).
Qed.

Lemma dict_merge_into_raises destination :
  wf_pyval destination →
  ∀ source path s' e,
    dict_merge_into destination source false path = (s', Raised e) →
    ∃ keys sv dv,
      keys ≠ [] ∧
      dict_lookup_path keys (PDict source) = Some sv ∧
      dict_lookup_path keys destination = Some dv ∧
      is_dict sv && is_dict dv = false ∧ sv ≠ dv ∧
      e = mkExc "Exception"
            ("Conflict at " +:+ String.concat "." (path ++ keys)).
Proof.
  induction destination as [a|entries IH] using pyval_ind';
    intros Hwf source path s' e Hrun; [done|].
  apply wf_pyval_dict in Hwf as [Hnd Hall]. simpl in Hrun.
  apply dict_merge_loop_raises in Hrun as (key & dv & sv & Hd & Hs & Hcase);
    [|done].
  destruct Hcase as [(Hdict & Hne & ->)|(sd & sd' & -> & Hrec)].
  - exists [key], sv, dv. simpl. rewrite Hs, Hd. done.
  - assert ((key, dv) ∈ entries) as Hin.
    { clear -Hd. induction entries as [|[k v] rest IH']; [done|].
      simpl in Hd. case_bool_decide as Hk.
      - injection Hd as ->. subst k. apply list_elem_of_here.
      - apply list_elem_of_further. by apply IH'. }
    rewrite Forall_forall in IH, Hall.
    destruct (IH _ Hin (Hall _ Hin) sd (path ++ [key]) sd' e Hrec)
      as (keys & sv & dv' & Hkeys & Hls & Hld & Hdict & Hne & ->).
    exists (key :: keys), sv, dv'. simpl. rewrite Hs, Hd.
    split_and!; try done. by rewrite <- app_assoc.
Qed.

(** X8. when the merge raises, the message names a path of keys under which
    source and destination hold different values that are not both
    dictionaries. *)
Theorem dict_merge_conflict_is_located source destination path s' e :
  wf_pyval (PDict destination) →
  dict_merge source destination false path = (s', Raised e) →
  ∃ keys sv dv,
    keys ≠ [] ∧
    dict_lookup_path keys (PDict source) = Some sv ∧
    dict_lookup_path keys (PDict destination) = Some dv ∧
    is_dict sv && is_dict dv = false ∧ sv ≠ dv ∧
    e = mkExc "Exception" ("Conflict at " +:+ String.concat "." (path ++ keys)).
Proof. intros Hwf. by apply dict_merge_into_raises. Qed.

Lemma dict_merge_conflict_is_located_witness :
  ∃ keys sv dv,
    keys ≠ [] ∧
    dict_lookup_path keys
      (PDict [("a", PLeaf "1"); ("b", PDict [("y", PLeaf "2")])]) = Some sv ∧
    dict_lookup_path keys
      (PDict [("c", PLeaf "1"); ("b", PDict [("x", PLeaf "1"); ("y", PLeaf "3")])])
      = Some dv ∧
    is_dict sv && is_dict dv = false ∧ sv ≠ dv ∧
    mkExc "Exception" "Conflict at b.y"
    = mkExc "Exception" ("Conflict at " +:+ String.concat "." ([] ++ keys)).
Proof.
  eapply (dict_merge_conflict_is_located
            [("a", PLeaf "1"); ("b", PDict [("y", PLeaf "2")])]
            [("c", PLeaf "1"); ("b", PDict [("x", PLeaf "1"); ("y", PLeaf "3")])]
            []).
  - simpl. split_and!; try exact I;
      apply NoDup_ListNoDup; repeat constructor; simpl; intuition congruence.
  - reflexivity.
Defined.

(** * More on [Command.handle] and [Command._output_markdown_file] *)

(** A build that does not reach its loop: what it raises and what it leaves
    untouched. *)
Lemma handle_aborted_state env options w :
  (∃ e, env_collectstatic env = Raised e)
  ∨ resolved_threads env options (threads_count (self w)) ≤ 0 →
  let r := run (handle env options) w in
  r.2 = match env_collectstatic env with
        | Raised e => Raised e
        | Ok _ => Raised (mkExc "ValueError" "max_workers must be greater than 0")
        end
  ∧ outputs r.1 = outputs w
  ∧ manifest_file r.1 = manifest_file w
  ∧ ∃ evs, calls r.1 = calls w ++ evs
      ∧ ∀ ev, ev ∈ evs →
          match ev with
          | EvRender _ | EvWriteText _ _ | EvManifestAdd _ | EvWriteData => False
          | _ => True
          end.
Proof.
  intros Habort r. subst r. unfold handle.
  destruct w as [[f tc mo [c0 u0 s0]] outs file cl].
  cbn [self threads_count manifest_file calls outputs] in *.
  assert (∀ (P : prog (list string)) w0,
            run (resolve_threads env options ≫= λ _, P) w0
            = run P (set_self (set_threads_count
                (resolved_threads env options (threads_count (self w0)))) w0))
    as Hres by (intros P w0; by rewrite run_bind, run_resolve_threads).
  assert (∀ evs : list Event,
            Forall (λ ev, match ev with
                          | EvRender _ | EvWriteText _ _ | EvManifestAdd _
                          | EvWriteData => False
                          | _ => True
                          end) evs →
            ∀ ev, ev ∈ evs →
              match ev with
              | EvRender _ | EvWriteText _ _ | EvManifestAdd _ | EvWriteData => False
              | _ => True
              end) as Hall by (intros evs Hevs; by apply Forall_forall).
  repeat run_step.
  destruct (env_collectstatic env) as [s|e] eqn:Hc.
  - destruct Habort as [[e He]|Ht]; [done|]. apply Z.leb_le in Ht.
    destruct (opt_force options); repeat run_step; rewrite ?Hc; cbv beta iota zeta;
      repeat run_step;
      [|change (static_files_manifest_changed (Manifest_load env file))
        with (env_static_set_changed env);
        destruct (env_static_set_changed env); repeat run_step];
      (rewrite Hres; world_norm; cbn [self threads_count]; repeat run_step;
       rewrite Ht; cbv beta iota zeta; cbn [fst snd self output_result_counts
         manifest manifest_file calls outputs];
       split_and!; [done..|];
       rewrite <- ?app_assoc; cbn [app];
       eexists; split; [done|]; apply Hall; repeat constructor).
  - destruct (opt_force options); repeat run_step; rewrite ?Hc; cbv beta iota zeta;
      cbn [fst snd self output_result_counts manifest manifest_file calls outputs];
      (split_and!; [done..|]; rewrite <- ?app_assoc; cbn [app];
       eexists; split; [done|]; apply Hall; repeat constructor).
Qed.

(** A build that returns went through the loop over the content paths. *)
Lemma handle_completed env options w w' errors :
  run (handle env options) w = (w', Ok errors) →
  ∃ s w1 m,
    env_collectstatic env = Ok s
    ∧ 0 < resolved_threads env options (threads_count (self w))
    ∧ build_loop env (env_content_paths env) (loop_entry env options s w, [])
        = (w1, errors)
    ∧ manifest (self w1) = Some m
    ∧ w' = loop_exit m errors w1.
Proof.
  intros Hrun.
  destruct (env_collectstatic env) as [s|e] eqn:Hc.
  2:{ destruct (handle_aborted env options w) as ([e' He'] & _).
      { left. eauto. }
      rewrite Hrun in He'. done. }
  destruct (decide (0 < resolved_threads env options (threads_count (self w))))
    as [Ht|Ht].
  2:{ destruct (handle_aborted env options w) as ([e' He'] & _).
      { right. lia. }
      rewrite Hrun in He'. done. }
  destruct (handle_run env options w s Hc Ht) as (w1 & errs & m & Hloop & Hm & Hr).
  rewrite Hr in Hrun. injection Hrun as <- ->.
  exists s, w1, m. done.
Qed.

(** X9. a file whose processing raises leaves its manifest record, the
    manifest file and the pages of all other files as they were: nothing
    marks it as built.  Its own page is untouched as well when it was the
    fingerprint or the rendering that raised; of the page whose writing
    raised nothing is said. *)
Theorem failed_file_is_not_recorded env path w m w' e :
  manifest (self w) = Some m →
  run (_output_markdown_file env path) w = (w', Raised e) →
  manifest (self w') = Some m
  ∧ manifest_file w' = manifest_file w
  ∧ (∀ k, k ≠ env_generated_file_path env path →
          outputs w' !! k = outputs w !! k)
  ∧ ((env_stat env path = Raised e ∧ outputs w' = outputs w)
     ∨ (env_render_html env path = Raised e ∧ outputs w' = outputs w)
     ∨ env_write_text_error env (env_generated_file_path env path) = Some e).
Proof.
  intros Hm Hrun.
  destruct (run_output_markdown_file_cases env path w m Hm)
    as [(e' & Hs & Hr)|(t & h & Hs & [(o & _ & Hr)|[[_ Hr]|[_ Hr]]])];
    rewrite Hr in Hrun; try done.
  - injection Hrun as <- <-. eauto 10.
  - unfold render_branch in Hrun.
    destruct (env_render_html env path) as [html|e1] eqn:Hrender.
    + destruct (env_write_text_error env _) as [e2|] eqn:Hwrite; [|done].
      injection Hrun as <- <-. destruct w as [[f tc mo cs] outs file cl].
      simpl in *. eauto 10.
    + injection Hrun as <- <-. destruct w as [[f tc mo cs] outs file cl].
      simpl in *. eauto 10.
Qed.

Lemma failed_file_is_not_recorded_witness :
  let env := example_env ["a.md"] ["a.md"] 8 in
  let w := mkWorld (mkCommand false 2 (Some (mkManifest ∅ false false))
                      (mkCounts 0 0 0)) ∅ None [] in
  let w' := (run (_output_markdown_file env "a.md") w).1 in
  manifest (self w') = Some (mkManifest ∅ false false)
  ∧ manifest_file w' = manifest_file w.
Proof.
  intros env w w'.
  destruct (failed_file_is_not_recorded env "a.md" w (mkManifest ∅ false false) w'
              (mkExc "TemplateSyntaxError" "Invalid block tag in a.md"))
    as (H1 & H2 & _); [reflexivity|reflexivity|]. by split.
Defined.

(** ** Every readable file is counted *)

Lemma bump_total o c : counts_total (bump o c) = counts_total c + 1.
Proof. destruct o, c; unfold counts_total; simpl; lia. Qed.

Lemma render_branch_self env path item m o w :
  output_result_counts (self (render_branch env path item m o w).1)
  = bump o (output_result_counts (self w)).
Proof.
  unfold render_branch. destruct (env_render_html env path); [|done].
  by destruct (env_write_text_error env _).
Qed.

Lemma run_output_markdown_file_total env path w m :
  manifest (self w) = Some m →
  counts_total (output_result_counts
                  (self (run (_output_markdown_file env path) w).1))
  = counts_total (output_result_counts (self w))
    + (if readable env path then 1 else 0).
Proof.
  intros Hm. unfold readable.
  destruct (run_output_markdown_file_cases env path w m Hm)
    as [(e' & Hs & ->)|(t & h & Hs & [(o & _ & ->)|[[_ ->]|[_ ->]]])];
    rewrite Hs; cbn [fst].
  - lia.
  - by rewrite render_branch_self, bump_total.
  - unfold set_self, set_counts. cbn [self output_result_counts].
    by rewrite bump_total.
  - unfold set_self, set_counts, emit. cbn [self output_result_counts].
    by rewrite bump_total.
Qed.

Lemma build_loop_total env paths w errors m :
  manifest (self w) = Some m →
  counts_total (output_result_counts (self (build_loop env paths (w, errors)).1))
  = counts_total (output_result_counts (self w))
    + Z.of_nat (length (filter (λ p, readable env p = true) paths)).
Proof.
  revert w errors m. induction paths as [|path rest IH]; intros w errors m Hm.
  { simpl. lia. }
  change (build_loop env (path :: rest) (w, errors))
    with (build_loop env rest (file_step env (w, errors) path)).
  destruct (file_step env (w, errors) path) as [w1 errors1] eqn:Hstep.
  pose proof (file_step_world env w errors path) as Hw. rewrite Hstep in Hw.
  cbn [fst] in Hw.
  destruct (run_output_markdown_file_frame env path w m Hm)
    as (_ & _ & _ & m' & Hm' & _). rewrite <- Hw in Hm'.
  rewrite (IH w1 errors1 m' Hm').
  rewrite Hw, (run_output_markdown_file_total env path w m Hm).
  rewrite filter_cons.
  destruct (decide (readable env path = true)) as [Hr|Hr].
  - rewrite Hr, length_cons. lia.
  - apply not_true_is_false in Hr. rewrite Hr. lia.
Qed.

(** X10. in a build that returns, the three counters add up to the number of
    content files whose fingerprint could be taken, whether or not the files
    were rendered with success. *)
Theorem every_readable_file_is_counted env options w w' errors :
  run (handle env options) w = (w', Ok errors) →
  counts_total (output_result_counts (self w'))
  = Z.of_nat (length (filter (λ p, readable env p = true) (env_content_paths env))).
Proof.
  intros Hrun.
  apply handle_completed in Hrun as (s & w1 & m & _ & _ & Hloop & _ & ->).
  pose proof (build_loop_total env (env_content_paths env)
                (loop_entry env options s w) [] _ eq_refl) as Htotal.
  rewrite Hloop in Htotal. cbn [fst] in Htotal.
  unfold loop_exit. cbn [self]. rewrite Htotal. unfold counts_total. simpl. lia.
Qed.

Lemma every_readable_file_is_counted_witness :
  let env := example_env ["a.md"; "b.md"; "c.md"] ["b.md"] 8 in
  counts_total (output_result_counts (self
    (run (handle env (mkOptions false None)) (initial_world Command_class None)).1))
  = 3.
Proof.
  intros env.
  apply (every_readable_file_is_counted env (mkOptions false None)
           (initial_world Command_class None) _
           ["Rendering b.md failed. `TemplateSyntaxError: Invalid block tag in b.md`"]).
  vm_compute. reflexivity.
Defined.

(** ** The manifest file after a build *)

(** X11. when a build returns, the manifest file holds exactly the records of
    the manifest in memory: it was rewritten if a record moved, and a manifest
    that is not dirty still has the records it was loaded with. *)
Theorem manifest_file_matches_memory env options w w' errors :
  run (handle env options) w = (w', Ok errors) →
  ∃ m, manifest (self w') = Some m
    ∧ default ∅ (manifest_file w') = items m
    ∧ (is_dirty m = false → manifest_file w' = manifest_file w).
Proof.
  intros Hrun.
  apply handle_completed in Hrun as (s & w1 & m & _ & _ & Hloop & Hm & ->).
  set (w0 := loop_entry env options s w) in *.
  destruct (build_loop_dirty env (env_content_paths env) w0 [] _ eq_refl)
    as (m1 & Hm1 & Hdirty).
  rewrite Hloop in Hm1. cbn [fst] in Hm1. rewrite Hm in Hm1. injection Hm1 as <-.
  destruct (build_loop_frame env (env_content_paths env) w0 [] _ eq_refl)
    as (_ & _ & Hfile & _).
  rewrite Hloop in Hfile. cbn [fst] in Hfile.
  exists m. unfold loop_exit. cbn [self manifest_file]. split; [done|].
  destruct (is_dirty m); [done|]. rewrite Hfile, Hdirty by done. done.
Qed.

Lemma manifest_file_matches_memory_witness :
  let env := example_env ["a.md"] [] 8 in
  let w' := (run (handle env (mkOptions false None))
               (initial_world Command_class None)).1 in
  ∃ m, manifest (self w') = Some m
    ∧ default ∅ (manifest_file w') = items m
    ∧ (is_dirty m = false → manifest_file w' = None).
Proof.
  intros env w'.
  apply (manifest_file_matches_memory env (mkOptions false None)
           (initial_world Command_class None) w' []).
  vm_compute. reflexivity.
Defined.

(** ** Nothing is ever removed *)

Lemma render_branch_keeps env path item m o w :
  let w' := (render_branch env path item m o w).1 in
  (∀ k, is_Some (outputs w !! k) → is_Some (outputs w' !! k)).
Proof.
  intros w' k Hk. subst w'. unfold render_branch.
  destruct (env_render_html env path); [|done].
  destruct (env_write_text_error env _); [done|].
  destruct w as [s outs file cl]. simpl in *.
  destruct (decide (env_generated_file_path env path = k)) as [->|Hne].
  - rewrite lookup_insert_eq. eauto.
  - by rewrite lookup_insert_ne.
Qed.

Lemma run_output_markdown_file_keeps env path w m :
  manifest (self w) = Some m →
  let w' := (run (_output_markdown_file env path) w).1 in
  (∀ k, is_Some (outputs w !! k) → is_Some (outputs w' !! k))
  ∧ ∃ m', manifest (self w') = Some m'
      ∧ ∀ p, is_Some (items m !! p) → is_Some (items m' !! p).
Proof.
  intros Hm w'. subst w'. split.
  - destruct (run_output_markdown_file_cases env path w m Hm)
      as [(e' & Hs & ->)|(t & h & Hs & [(o & _ & ->)|[[_ ->]|[_ ->]]])];
      try done. apply render_branch_keeps.
  - destruct (run_output_markdown_file_frame env path w m Hm)
      as (_ & _ & _ & m' & Hm' & [Heq|(t & h & _ & Heq)]); exists m';
      (split; [done|]); subst m'; [done|].
    intros p Hp. simpl.
    destruct (decide (path = p)) as [->|Hne].
    + rewrite lookup_insert_eq. eauto.
    + by rewrite lookup_insert_ne.
Qed.

Lemma build_loop_keeps env paths w errors m :
  manifest (self w) = Some m →
  let w1 := (build_loop env paths (w, errors)).1 in
  (∀ k, is_Some (outputs w !! k) → is_Some (outputs w1 !! k))
  ∧ ∃ m1, manifest (self w1) = Some m1
      ∧ ∀ p, is_Some (items m !! p) → is_Some (items m1 !! p).
Proof.
  intros Hm.
  apply (build_loop_invariant env (λ st,
    (∀ k, is_Some (outputs w !! k) → is_Some (outputs st.1 !! k))
    ∧ ∃ m1, manifest (self st.1) = Some m1
        ∧ ∀ p, is_Some (items m !! p) → is_Some (items m1 !! p))).
  { simpl. eauto. }
  intros [w0 errors0] path _ (Hout & m0 & Hm0 & Hrec).
  rewrite file_step_world. cbn [fst] in *.
  destruct (run_output_markdown_file_keeps env path w0 m0 Hm0)
    as (Hout' & m' & Hm' & Hrec').
  split; [by eauto|]. exists m'. eauto.
Qed.

(** X12. a build removes nothing: whether it returns or raises, every
    generated file that existed before still exists, and every path recorded
    in the manifest file is still recorded there, also when its source file is
    no longer among the content paths. *)
Theorem build_never_removes env options w :
  let w' := (run (handle env options) w).1 in
  (∀ k, is_Some (outputs w !! k) → is_Some (outputs w' !! k))
  ∧ (∀ p, is_Some (default ∅ (manifest_file w) !! p) →
          is_Some (default ∅ (manifest_file w') !! p)).
Proof.
  intros w'. subst w'.
  destruct (run (handle env options) w) as [w' [errors|e]] eqn:Hrun.
  - apply handle_completed in Hrun as (s & w1 & m & _ & _ & Hloop & Hm & ->).
    set (w0 := loop_entry env options s w) in *.
    destruct (build_loop_keeps env (env_content_paths env) w0 [] _ eq_refl)
      as (Hout & m1 & Hm1 & Hrec).
    rewrite Hloop in Hout, Hm1. cbn [fst] in Hout, Hm1.
    rewrite Hm in Hm1. injection Hm1 as <-.
    destruct (build_loop_frame env (env_content_paths env) w0 [] _ eq_refl)
      as (_ & _ & Hfile & _).
    rewrite Hloop in Hfile. cbn [fst] in Hfile.
    unfold loop_exit. cbn [fst outputs manifest_file]. split; [done|].
    destruct (is_dirty m); [|by rewrite Hfile].
    intros p Hp. by apply Hrec.
  - assert ((∃ e, env_collectstatic env = Raised e)
            ∨ resolved_threads env options (threads_count (self w)) ≤ 0) as Hab.
    { destruct (env_collectstatic env) as [s|e'] eqn:Hc; [|by eauto].
      destruct (decide (0 < resolved_threads env options (threads_count (self w))))
        as [Ht|Ht]; [|right; lia].
      destruct (handle_run env options w s Hc Ht) as (? & ? & ? & _ & _ & Hr).
      rewrite Hr in Hrun. done. }
    destruct (handle_aborted_state env options w Hab) as (_ & Hout & Hfile & _).
    rewrite Hrun in Hout, Hfile. cbn [fst] in *. by rewrite Hout, Hfile.
Qed.

(** ** Builds that cannot start *)

(** X13. a thread count that is not positive stops the build: without
    [--threads] on a machine that reports fewer than four processors, or with
    a [--threads] value that [int] reads as an integer below one, [handle]
    does not return, no file is rendered, and the generated files and the
    manifest file stay as they were. *)
Theorem nonpositive_thread_count_aborts_the_build env options w :
  (opt_threads options = None ∧ ∃ n, env_cpu_count env = Ok n ∧ n < 4)
  ∨ (∃ s k, opt_threads options = Some s ∧ py_int s = Some k ∧ k ≤ 0) →
  let r := run (handle env options) w in
  (∀ errors, r.2 ≠ Ok errors)
  ∧ outputs r.1 = outputs w
  ∧ manifest_file r.1 = manifest_file w
  ∧ ∃ evs, calls r.1 = calls w ++ evs ∧ ∀ p, EvRender p ∉ evs.
Proof.
  intros Hcount r. subst r.
  destruct (handle_aborted_state env options w)
    as (Hr & Hout & Hfile & evs & Hcalls & Hevs).
  { right. unfold resolved_threads, default_threads.
    destruct Hcount as [[-> (n & -> & Hn)]|(s & k & -> & Hk & Hle)].
    - assert (n `div` 2 < 2) by (apply Z.div_lt_upper_bound; lia). lia.
    - assert (str_truthy s = true) as ->.
      { destruct s; [|done]. by vm_compute in Hk. }
      by rewrite Hk. }
  split_and!; [|done..|].
  - intros errors. rewrite Hr. by destruct (env_collectstatic env).
  - exists evs. split; [done|]. intros p Hin. apply (Hevs _ Hin).
Qed.

Lemma nonpositive_thread_count_aborts_the_build_witness :
  (∀ errors,
     (run (handle (example_env ["a.md"] [] 2) (mkOptions false None))
        (initial_world Command_class None)).2 ≠ Ok errors)
  ∧ (∀ errors,
       (run (handle (example_env ["a.md"] [] 8) (mkOptions false (Some "0")))
          (initial_world Command_class None)).2 ≠ Ok errors).
Proof.
  split.
  - apply (nonpositive_thread_count_aborts_the_build (example_env ["a.md"] [] 2)
             (mkOptions false None) (initial_world Command_class None)).
    left. split; [reflexivity|]. exists 2. split; [reflexivity|lia].
  - apply (nonpositive_thread_count_aborts_the_build (example_env ["a.md"] [] 8)
             (mkOptions false (Some "0")) (initial_world Command_class None)).
    right. exists "0", 0. split_and!; [reflexivity|reflexivity|lia].
Defined.

(** X14. when the static file collection raises, [handle] does not return:
    no file is rendered, and the generated files and the manifest file stay
    as they were. *)
Theorem collectstatic_failure_aborts_the_build env options w e :
  env_collectstatic env = Raised e →
  let r := run (handle env options) w in
  (∀ errors, r.2 ≠ Ok errors)
  ∧ outputs r.1 = outputs w
  ∧ manifest_file r.1 = manifest_file w
  ∧ ∃ evs, calls r.1 = calls w ++ evs ∧ ∀ p, EvRender p ∉ evs.
Proof.
  intros Hc r. subst r.
  destruct (handle_aborted_state env options w)
    as (Hr & Hout & Hfile & evs & Hcalls & Hevs); [by eauto|].
  rewrite Hc in Hr. split_and!; [|done..|].
  - intros errors. by rewrite Hr.
  - exists evs. split; [done|]. intros p Hin. apply (Hevs _ Hin).
Qed.

Lemma collectstatic_failure_aborts_the_build_witness :
  let env := mkEnv (λ p, Ok (100, "md5")) (λ p, Ok "<html>") (λ p, p) (λ _, None)
               ["a.md"] (Ok 8) (Raised (mkExc "CommandError" "collectstatic"))
               false "output" in
  outputs (run (handle env (mkOptions false None))
             (initial_world Command_class None)).1 = ∅.
Proof.
  intros env.
  destruct (collectstatic_failure_aborts_the_build env (mkOptions false None)
              (initial_world Command_class None)
              (mkExc "CommandError" "collectstatic") eq_refl) as (_ & H & _).
  exact H.
Defined.

(** ** Builds without failures *)

Lemma failed_file_causes env path w m w' e :
  manifest (self w) = Some m →
  run (_output_markdown_file env path) w = (w', Raised e) →
  env_stat env path = Raised e
  ∨ env_render_html env path = Raised e
  ∨ env_write_text_error env (env_generated_file_path env path) = Some e.
Proof.
  intros Hm Hrun.
  destruct (run_output_markdown_file_cases env path w m Hm)
    as [(e' & Hs & Hr)|(t & h & Hs & [(o & _ & Hr)|[[_ Hr]|[_ Hr]]])];
    rewrite Hr in Hrun; try done.
  - injection Hrun as <- <-. eauto.
  - unfold render_branch in Hrun.
    destruct (env_render_html env path) as [html|e1] eqn:Hrender.
    + destruct (env_write_text_error env _) as [e2|] eqn:Hwrite; [|done].
      injection Hrun as <- <-. eauto.
    + injection Hrun as <- <-. eauto.
Qed.

Lemma build_loop_clean env paths w errors m :
  manifest (self w) = Some m →
  (∀ p, p ∈ paths →
     readable env p = true
     ∧ (∃ html, env_render_html env p = Ok html)
     ∧ env_write_text_error env (env_generated_file_path env p) = None) →
  (build_loop env paths (w, errors)).2 = errors.
Proof.
  intros Hm Hclean.
  cut ((build_loop env paths (w, errors)).2 = errors
       ∧ is_Some (manifest (self (build_loop env paths (w, errors)).1))).
  { by intros [? _]. }
  apply (build_loop_invariant env (λ st,
    st.2 = errors ∧ is_Some (manifest (self st.1)))).
  { simpl. by rewrite Hm. }
  intros [w0 errors0] path Hin [Herr [m0 Hm0]]. cbn [fst snd] in *. subst errors0.
  destruct (Hclean path Hin) as (Hrd & [html Hhtml] & Hwrite).
  unfold readable in Hrd. unfold file_step.
  destruct (run_output_markdown_file_frame env path w0 m0 Hm0)
    as (_ & _ & _ & m' & Hm' & _).
  destruct (run (_output_markdown_file env path) w0) as [w' [[]|e]] eqn:Hrun;
    cbn [fst snd] in *; [by rewrite Hm'|].
  destruct (failed_file_causes env path w0 m0 w' e Hm0 Hrun) as [Hs|[Hr|Hw]].
  - by rewrite Hs in Hrd.
  - by rewrite Hr in Hhtml.
  - by rewrite Hw in Hwrite.
Qed.

(** X15. when every content file can be read, rendered and written, a build
    that returns has collected no error, and the manifest file then records
    every content file with its current modification time. *)
Theorem clean_site_builds_without_errors env options w w' errors :
  run (handle env options) w = (w', Ok errors) →
  (∀ p, p ∈ env_content_paths env →
     readable env p = true
     ∧ (∃ html, env_render_html env p = Ok html)
     ∧ env_write_text_error env (env_generated_file_path env p) = None) →
  errors = []
  ∧ ∀ p, p ∈ env_content_paths env →
      recorded_fresh env (default ∅ (manifest_file w')) p.
Proof.
  intros Hrun Hclean.
  destruct (handle_completed env options w w' errors Hrun)
    as (s & w1 & m & _ & _ & Hloop & _ & _).
  pose proof (build_loop_clean env (env_content_paths env)
                (loop_entry env options s w) [] _ eq_refl Hclean) as Herr.
  rewrite Hloop in Herr. cbn [snd] in Herr. subst errors.
  split; [done|].
  by apply (handle_ok_leaves_fresh_records env options w).
Qed.

Lemma clean_site_builds_without_errors_witness :
  let env := example_env ["a.md"; "b.md"] [] 8 in
  let r := run (handle env (mkOptions false None))
             (initial_world Command_class None) in
  recorded_fresh env (default ∅ (manifest_file r.1)) "a.md"
  ∧ recorded_fresh env (default ∅ (manifest_file r.1)) "b.md".
Proof.
  intros env r.
  destruct (clean_site_builds_without_errors env (mkOptions false None)
              (initial_world Command_class None) r.1 []) as [_ H].
  - vm_compute. reflexivity.
  - intros p Hp. split_and!; [reflexivity| |reflexivity].
    simpl. eauto.
  - split; apply H.
    + apply list_elem_of_here.
    + apply list_elem_of_further, list_elem_of_here.
Defined.

(** ** The generated pages *)

Lemma render_branch_outputs_other env path item m o w k :
  k ≠ env_generated_file_path env path →
  outputs (render_branch env path item m o w).1 !! k = outputs w !! k.
Proof.
  intros Hk. unfold render_branch.
  destruct (env_render_html env path); [|done].
  destruct (env_write_text_error env _); [done|].
  destruct w as [s outs file cl]. simpl. by rewrite lookup_insert_ne.
Qed.

Lemma run_output_markdown_file_outputs_other env path w m k :
  manifest (self w) = Some m →
  k ≠ env_generated_file_path env path →
  outputs (run (_output_markdown_file env path) w).1 !! k = outputs w !! k.
Proof.
  intros Hm Hk.
  destruct (run_output_markdown_file_cases env path w m Hm)
    as [(e' & Hs & ->)|(t & h & Hs & [(o & _ & ->)|[[_ ->]|[_ ->]]])];
    try done. by apply render_branch_outputs_other.
Qed.

Lemma build_loop_outputs_other env paths w errors m k :
  manifest (self w) = Some m →
  k ∉ env_generated_file_path env <$> paths →
  outputs (build_loop env paths (w, errors)).1 !! k = outputs w !! k.
Proof.
  intros Hm Hk.
  cut (outputs (build_loop env paths (w, errors)).1 !! k = outputs w !! k
       ∧ is_Some (manifest (self (build_loop env paths (w, errors)).1))).
  { by intros [? _]. }
  apply (build_loop_invariant env (λ st,
    outputs st.1 !! k = outputs w !! k ∧ is_Some (manifest (self st.1)))).
  { simpl. by rewrite Hm. }
  intros [w0 errors0] path Hin [Hout [m0 Hm0]].
  rewrite file_step_world. cbn [fst] in *.
  destruct (run_output_markdown_file_frame env path w0 m0 Hm0)
    as (_ & _ & _ & m' & Hm' & _).
  rewrite Hm'. split; [|by eauto]. rewrite <- Hout.
  apply (run_output_markdown_file_outputs_other env path w0 m0); [done|].
  intros ->. apply Hk. by apply list_elem_of_fmap_2.
Qed.

Lemma build_loop_writes env paths p t h html :
  env_stat env p = Ok (t, h) →
  env_render_html env p = Ok html →
  env_write_text_error env (env_generated_file_path env p) = None →
  NoDup (env_generated_file_path env <$> paths) →
  p ∈ paths →
  ∀ w errors m,
    manifest (self w) = Some m →
    is_force (self w) = true ∨ items m !! p = None →
    outputs (build_loop env paths (w, errors)).1 !! env_generated_file_path env p
    = Some html.
Proof.
  intros Hs Hhtml Hwrite.
  induction paths as [|path rest IH]; intros Hnd Hin w errors m Hm Hnew.
  { by apply not_elem_of_nil in Hin. }
  rewrite fmap_cons in Hnd. apply NoDup_cons in Hnd as [Hfirst Hnd].
  change (build_loop env (path :: rest) (w, errors))
    with (build_loop env rest (file_step env (w, errors) path)).
  destruct (file_step env (w, errors) path) as [w1 errors1] eqn:Hstep.
  pose proof (file_step_world env w errors path) as Hw. rewrite Hstep in Hw.
  cbn [fst] in Hw.
  destruct (run_output_markdown_file_frame env path w m Hm)
    as (Hf & _ & _ & m' & Hm' & Hmove). rewrite <- Hw in Hf, Hm'.
  destruct (decide (p = path)) as [<-|Hne].
  - rewrite (build_loop_outputs_other env rest w1 errors1 m') by done.
    assert (∃ o, run (_output_markdown_file env p) w
                 = render_branch env p (mkItem p t h) m o w) as [o Hrun].
    { destruct Hnew as [Hforce|Hnone].
      - destruct (run_output_markdown_file_forced env p w m t h Hm Hforce Hs)
          as (o & _ & Hrun). eauto.
      - exists Create. apply run_output_markdown_file_build; [done..|].
        rewrite Hnone. unfold classify_spec. by destruct (is_force (self w)). }
    rewrite Hw, Hrun. unfold render_branch. rewrite Hhtml, Hwrite.
    destruct w as [s outs file cl]. simpl. by rewrite lookup_insert_eq.
  - apply elem_of_cons in Hin as [?|Hin]; [done|].
    apply (IH Hnd Hin w1 errors1 m' Hm').
    destruct Hnew as [Hforce|Hnone]; [left; congruence|right].
    destruct Hmove as [->|(t' & h' & _ & ->)]; [done|].
    simpl. by rewrite lookup_insert_ne.
Qed.

(** X16. in a build that reaches its loop, a content file that is new to the
    manifest, or any content file when the build is forced, ends up at its
    generated path with the html it rendered to, provided no other content
    file is generated to the same path. *)
Theorem new_or_forced_page_is_written env options w s p t h html :
  env_collectstatic env = Ok s →
  0 < resolved_threads env options (threads_count (self w)) →
  NoDup (env_generated_file_path env <$> env_content_paths env) →
  p ∈ env_content_paths env →
  effective_force env options = true ∨ default ∅ (manifest_file w) !! p = None →
  env_stat env p = Ok (t, h) →
  env_render_html env p = Ok html →
  env_write_text_error env (env_generated_file_path env p) = None →
  outputs (run (handle env options) w).1 !! env_generated_file_path env p
  = Some html.
Proof.
  intros Hc Ht Hnd Hin Hnew Hs Hhtml Hwrite.
  destruct (handle_run env options w s Hc Ht) as (w1 & errors & m & Hloop & Hm & ->).
  pose proof (build_loop_writes env (env_content_paths env) p t h html Hs Hhtml
                Hwrite Hnd Hin (loop_entry env options s w) [] _ eq_refl Hnew)
    as Hout.
  rewrite Hloop in Hout. done.
Qed.

Lemma new_or_forced_page_is_written_witness :
  outputs (run (handle (example_env ["a.md"; "b.md"] ["b.md"] 8)
                  (mkOptions false None))
             (initial_world Command_class None)).1 !! "output/a.md.html"
  = Some "<html>a.md</html>".
Proof.
  apply (new_or_forced_page_is_written (example_env ["a.md"; "b.md"] ["b.md"] 8)
           (mkOptions false None) (initial_world Command_class None)
           "Copy 0 static files" "a.md" 100 "md5-a.md" "<html>a.md</html>");
    try reflexivity.
  - apply NoDup_ListNoDup. vm_compute.
    repeat constructor; simpl; intuition congruence.
  - apply list_elem_of_here.
  - by right.
Defined.

(** ** When the manifest is written *)

Lemma run_output_markdown_file_adds env path w m :
  manifest (self w) = Some m →
  let w' := (run (_output_markdown_file env path) w).1 in
  ∃ tr m', calls w' = calls w ++ tr
    ∧ (EvWriteData ∉ tr)
    ∧ manifest (self w') = Some m'
    ∧ ((m' = m ∧ ∀ p, EvManifestAdd p ∉ tr)
       ∨ (is_dirty m' = true ∧ EvManifestAdd path ∈ tr)).
Proof.
  intros Hm w'. subst w'.
  destruct (run_output_markdown_file_cases env path w m Hm)
    as [(e' & Hs & ->)|(t & h & Hs & [(o & _ & ->)|[[_ ->]|[_ ->]]])].
  - exists [], m. rewrite app_nil_r. split_and!; [done| |done|].
    + apply not_elem_of_nil.
    + left. split; [done|]. intros p. apply not_elem_of_nil.
  - unfold render_branch. destruct w as [s outs file cl]. simpl in Hm.
    destruct (env_render_html env path) as [html|e1].
    + destruct (env_write_text_error env _) as [e2|].
      * exists [EvRender path], m. simpl. split_and!; [done| |done|].
        -- not_in_events.
        -- left. split; [done|]. intros p. not_in_events.
      * eexists [EvRender path; EvWriteText _ html; EvManifestAdd path], _.
        simpl. rewrite <- !app_assoc. split_and!; [done| |done|].
        -- not_in_events.
        -- right. split; [done|]. set_solver.
    + exists [EvRender path], m. simpl. split_and!; [done| |done|].
      * not_in_events.
      * left. split; [done|]. intros p. not_in_events.
  - exists [], m. destruct w as [s outs file cl]. simpl in *.
    rewrite app_nil_r. split_and!; [done| |done|].
    + apply not_elem_of_nil.
    + left. split; [done|]. intros p. apply not_elem_of_nil.
  - eexists [EvManifestAdd path], _. destruct w as [s outs file cl]. simpl.
    split_and!; [done| |done|].
    + not_in_events.
    + right. split; [done|]. set_solver.
Qed.

Lemma build_loop_adds env paths w errors m :
  manifest (self w) = Some m →
  is_dirty m = false →
  let w1 := (build_loop env paths (w, errors)).1 in
  ∃ tr m1, calls w1 = calls w ++ tr
    ∧ (EvWriteData ∉ tr)
    ∧ manifest (self w1) = Some m1
    ∧ (is_dirty m1 = true ↔ ∃ p, EvManifestAdd p ∈ tr).
Proof.
  intros Hm Hclean.
  apply (build_loop_invariant env (λ st,
    ∃ tr m1, calls st.1 = calls w ++ tr
      ∧ (EvWriteData ∉ tr)
      ∧ manifest (self st.1) = Some m1
      ∧ (is_dirty m1 = true ↔ ∃ p, EvManifestAdd p ∈ tr))).
  { exists [], m. simpl. rewrite app_nil_r, Hclean. split_and!; [done| |done|].
    - apply not_elem_of_nil.
    - split; [done|]. intros [p Hp]. by apply not_elem_of_nil in Hp. }
  intros [w0 errors0] path _ (tr & m0 & Hcalls & Hnw & Hm0 & Hiff).
  rewrite file_step_world. cbn [fst] in *.
  destruct (run_output_markdown_file_adds env path w0 m0 Hm0)
    as (tr' & m' & Hcalls' & Hnw' & Hm' & Hcase).
  exists (tr ++ tr'), m'. rewrite Hcalls', Hcalls, app_assoc.
  split_and!; [done| |done|].
  - rewrite elem_of_app. tauto.
  - destruct Hcase as [[-> Hnone]|[Hd Hadd]].
    + rewrite Hiff. split; intros [p Hp]; exists p.
      * apply elem_of_app. by left.
      * apply elem_of_app in Hp as [?|?]; [done|]. by destruct (Hnone p).
    + split; [|done]. intros _. exists path. apply elem_of_app. by right.
Qed.

(** X17. a build that returns writes the manifest file exactly when some
    record was added or refreshed during the build, and it writes it after
    the last of them. *)
Theorem manifest_written_iff_record_added env options w w' errors :
  run (handle env options) w = (w', Ok errors) →
  ∃ before after,
    calls w' = calls w ++ before ++ after
    ∧ (EvWriteData ∉ before)
    ∧ (∀ p, EvManifestAdd p ∉ after)
    ∧ (EvWriteData ∈ after ↔ ∃ p, EvManifestAdd p ∈ before).
Proof.
  intros Hrun.
  apply handle_completed in Hrun as (s & w1 & m & _ & _ & Hloop & Hm & ->).
  set (w0 := loop_entry env options s w) in *.
  destruct (build_loop_adds env (env_content_paths env) w0 [] _ eq_refl eq_refl)
    as (tr & m1 & Hcalls & Hnw & Hm1 & Hiff).
  rewrite Hloop in Hcalls, Hm1. cbn [fst] in Hcalls, Hm1.
  rewrite Hm in Hm1. injection Hm1 as <-.
  set (threads := resolved_threads env options (threads_count (self w))) in *.
  exists (prologue_events env options s threads ++ tr),
         (epilogue_events m (output_result_counts (self w1)) errors).
  assert (∀ ev, ev ∈ prologue_events env options s threads →
                ev ≠ EvWriteData ∧ ∀ p, ev ≠ EvManifestAdd p) as Hpro.
  { intros ev. unfold prologue_events.
    destruct (opt_force options), (env_static_set_changed env); cbn [negb andb app];
      intros Hin;
      repeat (apply elem_of_cons in Hin as [->|Hin]; [done|]);
      by apply elem_of_nil in Hin. }
  assert (∀ ev, ev ∈ epilogue_events m (output_result_counts (self w1)) errors →
                (∀ p, ev ≠ EvManifestAdd p)
                ∧ (ev = EvWriteData → is_dirty m = true)) as Hepi.
  { intros ev. unfold epilogue_events. rewrite !elem_of_app.
    intros [Hin|[Hin|[Hin|Hin]]].
    - apply list_elem_of_singleton in Hin as ->. done.
    - apply elem_of_replicate in Hin as [-> _]. done.
    - destruct (is_dirty m); [|by apply elem_of_nil in Hin].
      repeat (apply elem_of_cons in Hin as [->|Hin]; [done|]).
      by apply elem_of_nil in Hin.
    - repeat (apply elem_of_cons in Hin as [->|Hin]; [done|]).
      by apply elem_of_nil in Hin. }
  split_and!.
  - unfold loop_exit. cbn [calls]. rewrite Hcalls. subst w0. unfold loop_entry.
    cbn [calls]. by rewrite <- !app_assoc.
  - rewrite elem_of_app. intros [Hin|Hin]; [|done].
    by destruct (Hpro _ Hin).
  - intros p Hin. destruct (Hepi _ Hin) as [Hne _]. by apply (Hne p).
  - split.
    + intros Hin. destruct (Hepi _ Hin) as [_ Hd].
      destruct (proj1 Hiff (Hd eq_refl)) as [p Hp].
      exists p. apply elem_of_app. by right.
    + intros [p Hp]. apply elem_of_app in Hp as [Hp|Hp].
      { destruct (Hpro _ Hp) as [_ Hne]. by destruct (Hne p). }
      assert (is_dirty m = true) as Hd by (apply Hiff; eauto).
      unfold epilogue_events. rewrite Hd, !elem_of_app.
      right; right; left. apply list_elem_of_further, list_elem_of_here.
Qed.

Lemma manifest_written_iff_record_added_witness :
  ∃ before after,
    calls (run (handle (example_env ["a.md"] [] 8) (mkOptions false None))
             (initial_world Command_class None)).1 = [] ++ before ++ after
    ∧ (EvWriteData ∉ before)
    ∧ (∀ p, EvManifestAdd p ∉ after)
    ∧ (EvWriteData ∈ after ↔ ∃ p, EvManifestAdd p ∈ before).
Proof.
  apply (manifest_written_iff_record_added (example_env ["a.md"] [] 8)
           (mkOptions false None) (initial_world Command_class None) _ []).
  vm_compute. reflexivity.
Defined.

(** * [_call_collectstatic]: cleaning the summary *)

Lemma append_cons c s t : String c s +:+ t = String c (s +:+ t).
Proof. reflexivity. Qed.

Lemma append_nil_l s : "" +:+ s = s.
Proof. reflexivity. Qed.

Lemma append_nil_r s : s +:+ "" = s.
Proof. induction s as [|c s IH]; [done|]. by rewrite append_cons, IH. Qed.

Lemma append_assoc' s t u : (s +:+ t) +:+ u = s +:+ (t +:+ u).
Proof. induction s as [|c s IH]; [done|]. by rewrite !append_cons, IH. Qed.

Lemma length_append s t :
  String.length (s +:+ t) = (String.length s + String.length t)%nat.
Proof. induction s as [|c s IH]; [done|]. rewrite append_cons. simpl. by rewrite IH. Qed.

Lemma prefix_append old s :
  String.prefix old s = true → ∃ rest, s = old +:+ rest.
Proof.
  revert s. induction old as [|c old IH]; intros s Hp.
  { by exists s. }
  destruct s as [|c' s]; [done|]. simpl in Hp.
  destruct (ascii_dec c c') as [->|]; [|done].
  destruct (IH s Hp) as [rest ->]. by exists rest.
Qed.

Lemma prefix_append_true old rest : String.prefix old (old +:+ rest) = true.
Proof.
  induction old as [|c old IH]; [by destruct rest|].
  rewrite append_cons. simpl. by destruct (ascii_dec c c).
Qed.

Lemma chars_before_append c s t :
  has_char c s = false →
  chars_before c (s +:+ String c t) = String.length s.
Proof.
  induction s as [|c' s IH]; intros Hs.
  - rewrite append_nil_l. simpl. by rewrite bool_decide_eq_true_2.
  - simpl in Hs. apply orb_false_iff in Hs as [Hc Hs].
    rewrite append_cons. simpl. by rewrite Hc, IH.
Qed.

Lemma has_char_append c s t :
  has_char c (s +:+ t) = has_char c s || has_char c t.
Proof.
  induction s as [|c' s IH]; [done|].
  rewrite append_cons. simpl. by rewrite IH, orb_assoc.
Qed.

Lemma str_replace_from_skip old new x post :
  str_replace_from (String.length x) old new (x +:+ post)
  = str_replace_from 0 old new post.
Proof. induction x as [|c x IH]; [done|]. rewrite append_cons. by simpl. Qed.

Lemma str_replace_no_match old new s :
  (∀ x y, s = x +:+ y → String.prefix old y = false) →
  str_replace_from 0 old new s = s.
Proof.
  induction s as [|c s IH]; intros Hno; [done|].
  cbn [str_replace_from]. rewrite (Hno "" (String c s)) by done.
  rewrite IH; [done|]. intros x y ->. apply (Hno (String c x)). done.
Qed.

(** The only occurrence of [old] is the marked one. *)
Lemma str_replace_unique old new pre post :
  old ≠ "" →
  (∀ x y, pre = x +:+ y → y ≠ "" → String.prefix old (y +:+ old +:+ post) = false) →
  (∀ x y, post = x +:+ y → String.prefix old y = false) →
  str_replace old new (pre +:+ old +:+ post) = pre +:+ new +:+ post.
Proof.
  intros Hold Hpre Hpost. unfold str_replace.
  induction pre as [|c pre IH].
  - rewrite !append_nil_l. destruct old as [|a old]; [done|].
    rewrite append_cons. cbn [str_replace_from].
    change (String a (old +:+ post)) with (String a old +:+ post).
    rewrite prefix_append_true. cbn [String.length].
    rewrite Nat.sub_succ, Nat.sub_0_r, str_replace_from_skip.
    by rewrite str_replace_no_match.
  - rewrite !append_cons. cbn [str_replace_from].
    change (String c (pre +:+ old +:+ post)) with (String c pre +:+ old +:+ post).
    rewrite (Hpre "" (String c pre)) by done.
    rewrite IH; [done|]. intros x y -> Hy. by apply (Hpre (String c x)).
Qed.

Lemma slice_1_m2_wrapped c0 mid c1 c2 :
  slice_1_m2 (String c0 (mid +:+ String c1 (String c2 ""))) = mid.
Proof.
  unfold slice_1_m2. cbn [String.length]. rewrite length_append. cbn [String.length].
  replace (S (String.length mid + 2) - 3)%nat with (String.length mid) by lia.
  cbn [substring]. induction mid as [|c mid IH]; [done|].
  rewrite append_cons. cbn [String.length substring]. by rewrite IH.
Qed.

Lemma copied_to_not_prefix dir y rest :
  has_char "'" y = false → y ≠ "" →
  String.prefix (copied_to dir) (y +:+ copied_to dir +:+ rest) = false.
Proof.
  intros Hy Hne. destruct (String.prefix _ _) eqn:Hp; [|done].
  apply prefix_append in Hp as [r Hr].
  assert (y +:+ copied_to dir +:+ rest
          = (y +:+ " copied to ") +:+ String "'" (dir +:+ "'" +:+ rest)) as E1.
  { unfold copied_to. rewrite !append_assoc'. reflexivity. }
  assert (copied_to dir +:+ r
          = " copied to " +:+ String "'" (dir +:+ "'" +:+ r)) as E2.
  { unfold copied_to. rewrite !append_assoc'. reflexivity. }
  rewrite E1, E2 in Hr. apply (f_equal (chars_before "'")) in Hr.
  rewrite !chars_before_append in Hr.
  - rewrite length_append in Hr. destruct y; [done|]. simpl in Hr. lia.
  - done.
  - by rewrite has_char_append, Hy.
Qed.

Lemma copied_to_not_in dir y :
  has_char "'" y = false → String.prefix (copied_to dir) y = false.
Proof.
  intros Hy. destruct (String.prefix _ _) eqn:Hp; [|done].
  apply prefix_append in Hp as [r ->]. unfold copied_to in Hy.
  rewrite !has_char_append in Hy. by simpl in Hy.
Qed.

(** X18. from a collectstatic summary in which the destination phrase stands
    once (a line break, the counts, [ copied to '<static directory>'], the
    rest of the sentence, a full stop and a line break), the command keeps
    the counts and the rest of the sentence, and reports them after the word
    [Copy]. *)
Theorem call_collectstatic_cleans_summary call_command dir settings c0 body tail c1 c2 :
  call_command (mkSettings false (COLTRANE settings) (STATIC_ROOT settings))
    = Ok (String c0 (body +:+ copied_to dir +:+ tail +:+ String c1 (String c2 ""))) →
  has_char "'" (String c0 body) = false →
  has_char "'" (tail +:+ String c1 (String c2 "")) = false →
  (_call_collectstatic call_command dir settings).2 = Ok ("Copy " +:+ body +:+ tail).
Proof.
  intros Hout Hbody Htail. unfold _call_collectstatic. rewrite Hout. cbn [snd].
  do 2 f_equal.
  change (String c0 (body +:+ copied_to dir +:+ tail +:+ String c1 (String c2 "")))
    with (String c0 body +:+ copied_to dir +:+ (tail +:+ String c1 (String c2 ""))).
  rewrite str_replace_unique.
  - rewrite append_nil_l, append_cons, <- append_assoc'.
    apply slice_1_m2_wrapped.
  - done.
  - intros x y Hxy Hy. apply copied_to_not_prefix; [|done].
    rewrite Hxy, has_char_append in Hbody. by apply orb_false_iff in Hbody as [_ ?].
  - intros x y Hxy. apply copied_to_not_in.
    rewrite Hxy, has_char_append in Htail. by apply orb_false_iff in Htail as [_ ?].
Qed.

Lemma call_collectstatic_cleans_summary_witness :
  (_call_collectstatic
     (λ _, Ok (String "010" ("2 static files" +:+ copied_to "/site/output/static"
                 +:+ ", 5 unmodified" +:+ String "." (String "010" ""))))
     "/site/output/static" (mkSettings true None None)).2
  = Ok ("Copy " +:+ "2 static files" +:+ ", 5 unmodified").
Proof.
  apply (call_collectstatic_cleans_summary _ "/site/output/static"
           (mkSettings true None None) "010" "2 static files" ", 5 unmodified"
           "." "010"); reflexivity.
Defined.

(** * [_set_output_directory] *)

Lemma output_setting_set key key' v output coltrane :
  output_setting key (dict_set "OUTPUT" (PDict (dict_set key' v output)) coltrane)
  = if bool_decide (key' = key) then Ok v else getitem key output.
Proof.
  unfold output_setting, getitem at 1. rewrite dict_get_set_eq.
  unfold getitem. case_bool_decide as Hk.
  - subst. by rewrite dict_get_set_eq.
  - by rewrite dict_get_set_ne.
Qed.

Lemma dict_set_set key v v' d :
  dict_set key v (dict_set key v' d) = dict_set key v d.
Proof.
  induction d as [|[k v0] d IH]; simpl.
  - by rewrite bool_decide_eq_true_2.
  - case_bool_decide as Hk; simpl.
    + by rewrite bool_decide_eq_true_2.
    + rewrite bool_decide_eq_false_2 by done. by rewrite IH.
Qed.

(** What a call with a non-empty [--output] does once [OUTPUT] is known to
    be a dictionary: [output] is that dictionary, or the empty one the call
    creates. *)
Lemma set_output_directory_run base truediv o settings output :
  str_truthy o = true →
  match dict_get "OUTPUT" (default [] (COLTRANE settings)) with
  | Some v => v = PDict output
  | None => output = []
  end →
  let coltrane' :=
    dict_set "OUTPUT" (PDict (dict_set "PATH" (PLeaf o) output))
      (default [] (COLTRANE settings)) in
  _set_output_directory base truediv (Some o) settings
  = try_static_root (static_under_directory truediv coltrane')
      (mkSettings (DEBUG settings) (Some coltrane')
         (Some (truediv (truediv base o) "static"))).
Proof.
  intros Ho Hout coltrane'. unfold _set_output_directory. rewrite Ho.
  set (c := default [] (COLTRANE settings)) in *.
  assert (∃ c1, (if dict_get "OUTPUT" c is Some _ then c
                 else dict_set "OUTPUT" (PDict []) c) = c1
                ∧ dict_get "OUTPUT" c1 = Some (PDict output)
                ∧ dict_set "OUTPUT" (PDict (dict_set "PATH" (PLeaf o) output)) c1
                  = coltrane') as (c1 & -> & Hc1 & Hset).
  { destruct (dict_get "OUTPUT" c) as [v|] eqn:Hget.
    - subst v. by exists c.
    - subst output. eexists. split; [done|]. split.
      + by rewrite dict_get_set_eq.
      + subst coltrane'. apply dict_set_set. }
  unfold getitem at 1. rewrite Hc1, Hset. subst coltrane'.
  unfold static_under_base. rewrite output_setting_set.
  rewrite bool_decide_eq_true_2 by done. simpl. done.
Qed.

(** Every way a call with a non-empty [--output] can go. *)
Lemma set_output_directory_cases base truediv o settings :
  str_truthy o = true →
  let c0 := default [] (COLTRANE settings) in
  let r := _set_output_directory base truediv (Some o) settings in
  (∃ s, dict_get "OUTPUT" c0 = Some (PLeaf s)
        ∧ r = (set_COLTRANE (Some c0) settings,
               Raised (TypeError "'str' object does not support item assignment")))
  ∨ (∃ output,
       (dict_get "OUTPUT" c0 = Some (PDict output)
        ∨ (dict_get "OUTPUT" c0 = None ∧ output = []))
       ∧ let c' := dict_set "OUTPUT" (PDict (dict_set "PATH" (PLeaf o) output)) c0 in
         let s1 := mkSettings (DEBUG settings) (Some c')
                     (Some (truediv (truediv base o) "static")) in
         match dict_get "DIRECTORY" output with
         | None => r = (s1, Ok tt)
         | Some (PLeaf directory) =>
             r = (mkSettings (DEBUG settings) (Some c')
                    (Some (truediv directory "static")), Ok tt)
         | Some (PDict _) =>
             r = (s1, Raised (TypeError
                    "expected str, bytes or os.PathLike object, not dict"))
         end).
Proof.
  intros Ho c0 r.
  assert (∀ output,
    match dict_get "OUTPUT" c0 with
    | Some v => v = PDict output
    | None => output = []
    end →
    let c' := dict_set "OUTPUT" (PDict (dict_set "PATH" (PLeaf o) output)) c0 in
    let s1 := mkSettings (DEBUG settings) (Some c')
                (Some (truediv (truediv base o) "static")) in
    match dict_get "DIRECTORY" output with
    | None => r = (s1, Ok tt)
    | Some (PLeaf directory) =>
        r = (mkSettings (DEBUG settings) (Some c')
               (Some (truediv directory "static")), Ok tt)
    | Some (PDict _) =>
        r = (s1, Raised (TypeError
               "expected str, bytes or os.PathLike object, not dict"))
    end) as Hrun.
  { intros output Hout c' s1. subst r.
    rewrite (set_output_directory_run base truediv o settings output Ho Hout).
    fold c0. fold c'. unfold static_under_directory. subst c'.
    rewrite output_setting_set. rewrite bool_decide_eq_false_2 by done.
    unfold getitem. by destruct (dict_get "DIRECTORY" output) as [[d|d]|]. }
  destruct (dict_get "OUTPUT" c0) as [[s|output]|] eqn:Hget.
  - left. exists s. split; [done|]. subst r. unfold _set_output_directory.
    rewrite Ho. fold c0. unfold getitem. rewrite Hget. cbv beta iota zeta.
    by rewrite Hget.
  - right. exists output. split; [by left|]. by apply Hrun.
  - right. exists []. split; [by right|]. by apply Hrun.
Qed.

(** X19. a call that returns has stored the [--output] value under
    [COLTRANE["OUTPUT"]["PATH"]] and has left every other setting of
    [COLTRANE], every other setting of [COLTRANE["OUTPUT"]] and [DEBUG] as
    they were. *)
Theorem set_output_directory_records_path base truediv o settings settings' :
  str_truthy o = true →
  _set_output_directory base truediv (Some o) settings = (settings', Ok tt) →
  let c0 := default [] (COLTRANE settings) in
  ∃ c', COLTRANE settings' = Some c'
    ∧ dict_lookup_path ["OUTPUT"; "PATH"] (PDict c') = Some (PLeaf o)
    ∧ (∀ k, k ≠ "OUTPUT" → dict_get k c' = dict_get k c0)
    ∧ (∀ k, k ≠ "PATH" →
         dict_lookup_path ["OUTPUT"; k] (PDict c')
         = dict_lookup_path ["OUTPUT"; k] (PDict c0))
    ∧ DEBUG settings' = DEBUG settings.
Proof.
  intros Ho Hrun c0.
  destruct (set_output_directory_cases base truediv o settings Ho)
    as [(s & _ & Hr)|(output & Hout & Hr)]; fold c0 in Hr.
  { rewrite Hrun in Hr. done. }
  cbv zeta in Hr. rewrite Hrun in Hr.
  exists (dict_set "OUTPUT" (PDict (dict_set "PATH" (PLeaf o) output)) c0).
  assert (COLTRANE settings'
          = Some (dict_set "OUTPUT" (PDict (dict_set "PATH" (PLeaf o) output)) c0)
          ∧ DEBUG settings' = DEBUG settings) as [Hc Hd].
  { destruct (dict_get "DIRECTORY" output) as [[d|d]|]; [| done |];
      by injection Hr as ->. }
  split_and!; [done| | | |done].
  - simpl. by rewrite !dict_get_set_eq.
  - intros k Hk. by rewrite dict_get_set_ne.
  - intros k Hk. simpl. rewrite dict_get_set_eq.
    rewrite dict_get_set_ne by done.
    destruct Hout as [Hg|[Hg ->]]; fold c0 in Hg; by rewrite Hg.
Qed.

Lemma set_output_directory_records_path_witness :
  let settings := mkSettings true
    (Some [("SITE", PLeaf "https://example.com");
           ("OUTPUT", PDict [("DIRECTORY", PLeaf "/srv/www")])]) None in
  ∃ c', COLTRANE (_set_output_directory "/site" (λ a b, a +:+ "/" +:+ b)
                    (Some "public") settings).1 = Some c'
    ∧ dict_lookup_path ["OUTPUT"; "PATH"] (PDict c') = Some (PLeaf "public").
Proof.
  intros settings.
  destruct (set_output_directory_records_path "/site" (λ a b, a +:+ "/" +:+ b)
              "public" settings
              (_set_output_directory "/site" (λ a b, a +:+ "/" +:+ b)
                 (Some "public") settings).1)
    as (c' & Hc & Hp & _); [reflexivity|reflexivity|].
  exists c'. by split.
Defined.

(** X20. the static root is put under [COLTRANE["OUTPUT"]["DIRECTORY"]] when
    that setting exists, whatever [--output] says, and under the base
    directory and the [--output] value otherwise. *)
Theorem output_directory_setting_wins base truediv o settings settings' :
  str_truthy o = true →
  _set_output_directory base truediv (Some o) settings = (settings', Ok tt) →
  STATIC_ROOT settings'
  = Some (match dict_lookup_path ["OUTPUT"; "DIRECTORY"]
                  (PDict (default [] (COLTRANE settings))) with
          | Some (PLeaf directory) => truediv directory "static"
          | _ => truediv (truediv base o) "static"
          end).
Proof.
  intros Ho Hrun.
  destruct (set_output_directory_cases base truediv o settings Ho)
    as [(s & _ & Hr)|(output & Hout & Hr)].
  { rewrite Hrun in Hr. done. }
  cbv zeta in Hr. rewrite Hrun in Hr. simpl.
  destruct Hout as [->|[-> ->]].
  - destruct (dict_get "DIRECTORY" output) as [[d|d]|]; [| done |];
      by injection Hr as ->.
  - simpl in Hr. by injection Hr as ->.
Qed.

Lemma output_directory_setting_wins_witness :
  let settings := mkSettings true
    (Some [("OUTPUT", PDict [("DIRECTORY", PLeaf "/srv/www")])]) None in
  STATIC_ROOT (_set_output_directory "/site" (λ a b, a +:+ "/" +:+ b)
                 (Some "public") settings).1
  = Some "/srv/www/static".
Proof.
  intros settings.
  apply (output_directory_setting_wins "/site" (λ a b, a +:+ "/" +:+ b)
           "public" settings); reflexivity.
Defined.

(** X21. a call that returned changes nothing when it is made again with the
    same [--output] value. *)
Theorem set_output_directory_idempotent base truediv o settings settings' :
  str_truthy o = true →
  _set_output_directory base truediv (Some o) settings = (settings', Ok tt) →
  _set_output_directory base truediv (Some o) settings' = (settings', Ok tt).
Proof.
  intros Ho Hrun.
  destruct (set_output_directory_cases base truediv o settings Ho)
    as [(s & _ & Hr)|(output & _ & Hr)].
  { rewrite Hrun in Hr. done. }
  cbv zeta in Hr. rewrite Hrun in Hr.
  set (c0 := default [] (COLTRANE settings)) in *.
  set (output' := dict_set "PATH" (PLeaf o) output) in *.
  set (c' := dict_set "OUTPUT" (PDict output') c0) in *.
  assert (COLTRANE settings' = Some c'
          ∧ DEBUG settings' = DEBUG settings
          ∧ dict_get "DIRECTORY" output
            = match dict_get "DIRECTORY" output with
              | Some (PLeaf d) => Some (PLeaf d) | _ => None end
          ∧ STATIC_ROOT settings'
            = Some (match dict_get "DIRECTORY" output with
                    | Some (PLeaf d) => truediv d "static"
                    | _ => truediv (truediv base o) "static"
                    end)) as (Hc & Hd & Hdir & Hroot).
  { destruct (dict_get "DIRECTORY" output) as [[d|d]|]; [| done |];
      by injection Hr as ->. }
  destruct (set_output_directory_cases base truediv o settings' Ho)
    as [(s & Hget & _)|(output2 & Hout2 & Hr2)]; rewrite Hc in *; simpl in *.
  { subst c'. by rewrite dict_get_set_eq in Hget. }
  destruct Hout2 as [Hget|[Hget _]]; subst c'; rewrite dict_get_set_eq in Hget;
    [|done].
  injection Hget as <-.
  assert (dict_get "DIRECTORY" output' = dict_get "DIRECTORY" output) as Hsame
    by (subst output'; by rewrite dict_get_set_ne).
  rewrite Hsame in Hr2. subst output'.
  rewrite dict_set_set in Hr2. rewrite dict_set_set in Hr2.
  destruct settings' as [dbg col root]. simpl in *. subst.
  destruct (dict_get "DIRECTORY" output) as [[d|d]|]; done.
Qed.

Lemma set_output_directory_idempotent_witness :
  let settings := mkSettings true None None in
  let settings' := (_set_output_directory "/site" (λ a b, a +:+ "/" +:+ b)
                      (Some "public") settings).1 in
  _set_output_directory "/site" (λ a b, a +:+ "/" +:+ b) (Some "public") settings'
  = (settings', Ok tt).
Proof.
  intros settings settings'.
  apply (set_output_directory_idempotent "/site" (λ a b, a +:+ "/" +:+ b)
           "public" settings); reflexivity.
Defined.

(** X22. the call raises only a [TypeError], and only when
    [COLTRANE["OUTPUT"]] is set to something that is not a dictionary, or
    when that dictionary has a [DIRECTORY].  The two [except KeyError]
    clauses let no [KeyError] out. *)
Theorem set_output_directory_fails_only_on_malformed_settings
    base truediv output settings e :
  (_set_output_directory base truediv output settings).2 = Raised e →
  exc_class e = "TypeError"
  ∧ ((∃ s, dict_lookup_path ["OUTPUT"] (PDict (default [] (COLTRANE settings)))
           = Some (PLeaf s))
     ∨ (∃ v, dict_lookup_path ["OUTPUT"; "DIRECTORY"]
               (PDict (default [] (COLTRANE settings))) = Some v)).
Proof.
  intros Hrun. destruct output as [o|]; [|done].
  destruct (str_truthy o) eqn:Ho.
  2:{ unfold _set_output_directory in Hrun. by rewrite Ho in Hrun. }
  destruct (set_output_directory_cases base truediv o settings Ho)
    as [(s & Hget & Hr)|(output & Hout & Hr)].
  - rewrite Hr in Hrun. injection Hrun as <-. split; [done|].
    left. exists s. simpl. by rewrite Hget.
  - cbv zeta in Hr.
    destruct (dict_get "DIRECTORY" output) as [[d|d]|] eqn:Hdir;
      rewrite Hr in Hrun; [done| |done].
    injection Hrun as <-. split; [done|]. right. exists (PDict d). simpl.
    destruct Hout as [->|[_ ->]]; [by rewrite Hdir|done].
Qed.

Lemma set_output_directory_fails_only_on_malformed_settings_witness :
  ∃ s, dict_lookup_path ["OUTPUT"] (PDict [("OUTPUT", PLeaf "public")])
       = Some (PLeaf s).
Proof.
  destruct (set_output_directory_fails_only_on_malformed_settings "/site"
              (λ a b, a +:+ "/" +:+ b) (Some "build")
              (mkSettings true (Some [("OUTPUT", PLeaf "public")]) None)
              (TypeError "'str' object does not support item assignment")
              eq_refl) as [_ [H|[v H]]].
  - exact H.
  - discriminate H.
Defined.

(** ** The reported errors *)

Lemma build_loop_unreadable env paths p e :
  p ∈ paths →
  env_stat env p = Raised e →
  ∀ w errors m,
    manifest (self w) = Some m →
    error_message_of p e ∈ (build_loop env paths (w, errors)).2.
Proof.
  intros Hin Hs. induction paths as [|path rest IH]; intros w errors m Hm.
  { by apply not_elem_of_nil in Hin. }
  change (build_loop env (path :: rest) (w, errors))
    with (build_loop env rest (file_step env (w, errors) path)).
  destruct (file_step env (w, errors) path) as [w1 errors1] eqn:Hstep.
  pose proof (file_step_world env w errors path) as Hw. rewrite Hstep in Hw.
  cbn [fst] in Hw.
  destruct (run_output_markdown_file_frame env path w m Hm)
    as (_ & _ & _ & m' & Hm' & _). rewrite <- Hw in Hm'.
  destruct (decide (path = p)) as [->|Hne].
  - destruct (build_loop_errors env rest w1 errors1) as [extra ->].
    apply elem_of_app. left.
    unfold file_step in Hstep.
    rewrite (run_output_markdown_file_unreadable env p w m e Hm Hs) in Hstep.
    injection Hstep as <- <-. apply elem_of_app. right. apply list_elem_of_here.
  - apply elem_of_cons in Hin as [?|Hin]; [done|]. by apply (IH Hin w1 errors1 m').
Qed.

(** X23. every error a build returns names a content file together with the
    exception that stopped it: the one raised when its fingerprint was taken,
    when it was rendered or when the page was written; and every content file
    whose fingerprint cannot be taken is among the errors. *)
Theorem errors_name_failing_files env options w w' errors :
  run (handle env options) w = (w', Ok errors) →
  (∀ msg, msg ∈ errors →
     ∃ p e, p ∈ env_content_paths env
       ∧ msg = error_message_of p e
       ∧ (env_stat env p = Raised e
          ∨ env_render_html env p = Raised e
          ∨ env_write_text_error env (env_generated_file_path env p) = Some e))
  ∧ (∀ p e, p ∈ env_content_paths env → env_stat env p = Raised e →
       error_message_of p e ∈ errors).
Proof.
  intros Hrun.
  apply handle_completed in Hrun as (s & w1 & m & _ & _ & Hloop & _ & ->).
  set (w0 := loop_entry env options s w) in *. split.
  - cut ((∀ msg, msg ∈ (build_loop env (env_content_paths env) (w0, [])).2 →
            ∃ p e, p ∈ env_content_paths env
              ∧ msg = error_message_of p e
              ∧ (env_stat env p = Raised e
                 ∨ env_render_html env p = Raised e
                 ∨ env_write_text_error env (env_generated_file_path env p)
                   = Some e))
         ∧ is_Some (manifest (self (build_loop env (env_content_paths env)
                                      (w0, [])).1))).
    { rewrite Hloop. by intros [? _]. }
    apply (build_loop_invariant env (λ st,
      (∀ msg, msg ∈ st.2 →
         ∃ p e, p ∈ env_content_paths env
           ∧ msg = error_message_of p e
           ∧ (env_stat env p = Raised e
              ∨ env_render_html env p = Raised e
              ∨ env_write_text_error env (env_generated_file_path env p)
                = Some e))
      ∧ is_Some (manifest (self st.1)))).
    { split; [|by eauto]. intros msg Hin. by apply elem_of_nil in Hin. }
    intros [w2 errors2] path Hpath [Herrs [m2 Hm2]]. cbn [fst snd] in *.
    destruct (run_output_markdown_file_frame env path w2 m2 Hm2)
      as (_ & _ & _ & m' & Hm' & _).
    unfold file_step.
    destruct (run (_output_markdown_file env path) w2) as [w3 [[]|e]] eqn:Hrun;
      cbn [fst snd] in *; (split; [|by eauto]); [done|].
    intros msg [Hin|Hin]%elem_of_app; [by apply Herrs|].
    apply list_elem_of_singleton in Hin as ->.
    exists path, e. split_and!; [done..|].
    by apply (failed_file_causes env path w2 m2 w3 e).
  - intros p e Hp Hs.
    pose proof (build_loop_unreadable env (env_content_paths env) p e Hp Hs
                  w0 [] _ eq_refl) as Hin.
    by rewrite Hloop in Hin.
Qed.

Lemma errors_name_failing_files_witness :
  ∃ p e, p ∈ ["a.md"; "b.md"]
    ∧ "Rendering b.md failed. `TemplateSyntaxError: Invalid block tag in b.md`"
      = error_message_of p e
    ∧ (env_stat (example_env ["a.md"; "b.md"] ["b.md"] 8) p = Raised e
       ∨ env_render_html (example_env ["a.md"; "b.md"] ["b.md"] 8) p = Raised e
       ∨ env_write_text_error (example_env ["a.md"; "b.md"] ["b.md"] 8)
           (env_generated_file_path (example_env ["a.md"; "b.md"] ["b.md"] 8) p)
         = Some e).
Proof.
  destruct (errors_name_failing_files (example_env ["a.md"; "b.md"] ["b.md"] 8)
              (mkOptions false None) (initial_world Command_class None)
              (run (handle (example_env ["a.md"; "b.md"] ["b.md"] 8)
                      (mkOptions false None))
                 (initial_world Command_class None)).1
              ["Rendering b.md failed. `TemplateSyntaxError: Invalid block tag in b.md`"])
    as [H _]; [vm_compute; reflexivity|].
  apply H. apply list_elem_of_here.
Defined.
